(** * Netflix Life Story: document consistency and asset lifecycle

    A shallow embedding of the Express handlers of [routes/api.js] (the
    object-storage variant that calls [config/s3.js], and the disk variant
    where the two differ) together with the properties of the series /
    episode / media document they maintain.

    Modelling conventions.
    - A JavaScript object read from [showData.json] is a record whose
      optional attributes are [option]s: [None] stands for an attribute that
      is absent or [null] (the handlers only ever test such attributes for
      truthiness).  Attributes are taken at the type the handlers build them
      with: counts are integers ([Z]), references and ids are strings.
    - [uuidv4()], the clock and the object store are the environment: ids come
      from a generator indexed by a counter kept in the world, [deleteFromS3]
      appends the key to a log of delete calls and answers what the store
      answers.
    - A handler is a computation in a state-and-exception monad over the
      world (file contents, delete log, id counter).  [try { } catch] is
      [try_catch]; an exception that no handler catches is the [Throw]
      result of the handler.
    - [fs.writeFileSync] is taken to succeed and to replace the whole file;
      what is written is read back unchanged ([JSON.stringify] then
      [JSON.parse] on such a record).
    - The world does not order a delete call against a write of the file.
      Where that order is part of a property the handler is embedded a
      second time over a world with a journal of events, and shown to be
      the first embedding once the journal is forgotten.
    - A string stands for the JavaScript string it is the UTF-8 encoding
      of; a string that is not valid UTF-8 stands for none.  Tests against
      ASCII text ([includes], [startsWith], the host part of the regular
      expression) read the same on the bytes as on the code units; the
      characters JavaScript singles out beyond ASCII (line terminators,
      white space) are recognised by their byte sequences. *)

From Stdlib Require Import ZArith List String Ascii Bool Lia Permutation.
From Stdlib Require Import DecimalString.
Import ListNotations.
Local Open Scope string_scope.
Local Open Scope list_scope.
Local Open Scope Z_scope.

Set Implicit Arguments.

(* ------------------------------------------------------------------ *)
(** ** JavaScript primitives used by the handlers *)

(** Template literal [`${n}`] for an integer. *)
Definition string_of_Z (z : Z) : string := NilZero.string_of_int (Z.to_int z).

(** [s.startsWith(p)], returning what follows the prefix. *)
Fixpoint strip_prefix (p s : string) : option string :=
  match p with
  | EmptyString => Some s
  | String a p' =>
      match s with
      | EmptyString => None
      | String b s' => if Ascii.eqb a b then strip_prefix p' s' else None
      end
  end.

Definition startsWith (s p : string) : bool :=
  match strip_prefix p s with Some _ => true | None => false end.

(** [s.includes(sub)]. *)
Fixpoint includes (s sub : string) : bool :=
  if startsWith s sub then true
  else match s with
       | EmptyString => false
       | String _ s' => includes s' sub
       end.

(** The byte [c] has the value [n]. *)
Definition byte_is (c : ascii) (n : nat) : bool := Nat.eqb (nat_of_ascii c) n.

(** Line terminators, which the regular expression atom [.] refuses: LF,
    CR, U+2028 and U+2029 (in UTF-8 the bytes E2 80 A8 and E2 80 A9).
    [is_line_terminator s]: one of them stands at the head of [s]. *)
Definition is_line_terminator (s : string) : bool :=
  match s with
  | EmptyString => false
  | String c1 rest =>
      byte_is c1 10 || byte_is c1 13
      || (byte_is c1 226
          && match rest with
             | String c2 (String c3 _) =>
                 byte_is c2 128 && (byte_is c3 168 || byte_is c3 169)
             | _ => false
             end)
  end.

Fixpoint no_line_terminator (s : string) : bool :=
  match s with
  | EmptyString => true
  | String _ s' => negb (is_line_terminator s) && no_line_terminator s'
  end.

(** [(.+)$] anchored at the start of [s]: one or more characters, none of
    them a line terminator, up to the end of the input. *)
Definition dot_plus_to_end (s : string) : bool :=
  match s with
  | EmptyString => false
  | String _ _ => no_line_terminator s
  end.

(** [url.match(/\.amazonaws\.com\/(.+)$/)], capture group 1 of the leftmost
    match. *)
Fixpoint match_amazonaws (url : string) : option string :=
  let here :=
    match strip_prefix ".amazonaws.com/" url with
    | Some rest => if dot_plus_to_end rest then Some rest else None
    | None => None
    end in
  match here with
  | Some k => Some k
  | None =>
      match url with
      | EmptyString => None
      | String _ url' => match_amazonaws url'
      end
  end.

(** JavaScript truthiness of a string-or-null attribute. *)
Definition truthy_str (o : option string) : bool :=
  match o with
  | Some s => negb (String.eqb s EmptyString)
  | None => false
  end.

(** [a || b] on a string-or-undefined operand. *)
Definition or_str (o : option string) (dflt : string) : string :=
  match o with
  | Some s => if String.eqb s EmptyString then dflt else s
  | None => dflt
  end.

(** [a || b] on an integer-or-undefined operand: [0] is falsy. *)
Definition or_Z (o : option Z) (dflt : Z) : Z :=
  match o with
  | Some z => if z =? 0 then dflt else z
  | None => dflt
  end.

(** [a || b] on an array-or-undefined operand: every array is truthy. *)
Definition or_list {A} (o : option (list A)) (dflt : list A) : list A :=
  match o with
  | Some l => l
  | None => dflt
  end.

(** [arr.slice(0, end)] for an integer [end]. *)
Definition slice0 {A} (l : list A) (e : Z) : list A :=
  let len := Z.of_nat (List.length l) in
  let final := if e <? 0 then Z.max (len + e) 0 else Z.min e len in
  firstn (Z.to_nat final) l.

(** [arr.findIndex(p)]: [None] is the answer [-1]. *)
Fixpoint findIndex {A} (p : A -> bool) (l : list A) : option nat :=
  match l with
  | [] => None
  | x :: l' => if p x then Some O else option_map S (findIndex p l')
  end.

(** [arr.splice(i, 1)]: the array without its element at index [i]. *)
Definition splice1 {A} (i : nat) (l : list A) : list A :=
  firstn i l ++ skipn (S i) l.

(** [arr[i] = x] for an index inside the array. *)
Fixpoint set_nth {A} (i : nat) (x : A) (l : list A) {struct l} : list A :=
  match l, i with
  | [], _ => []
  | _ :: l', O => x :: l'
  | y :: l', S i' => y :: set_nth i' x l'
  end.

(** [parseInt(s)] on a route parameter: optional white space, an optional
    sign, then the longest run of decimal digits ([0x] introduces
    hexadecimal digits); [None] is [NaN].

    The white space [parseInt] skips is TAB, LF, VT, FF, CR and SP, and
    beyond ASCII U+00A0 (bytes C2 A0), U+1680 (E1 9A 80), U+2000 to U+200A
    (E2 80 80 to E2 80 8A), U+2028 and U+2029 (E2 80 A8, E2 80 A9), U+202F
    (E2 80 AF), U+205F (E2 81 9F), U+3000 (E3 80 80) and U+FEFF
    (EF BB BF). *)
Definition is_space1 (c : ascii) : bool :=
  let n := nat_of_ascii c in
  (Nat.eqb n 32 || (Nat.leb 9 n && Nat.leb n 13))%bool.

Definition is_space2 (c1 c2 : ascii) : bool :=
  byte_is c1 194 && byte_is c2 160.

Definition is_space3 (c1 c2 c3 : ascii) : bool :=
  let n3 := nat_of_ascii c3 in
  (byte_is c1 225 && byte_is c2 154 && byte_is c3 128)
  || (byte_is c1 226 && byte_is c2 128
      && ((Nat.leb 128 n3 && Nat.leb n3 138)
          || byte_is c3 168 || byte_is c3 169 || byte_is c3 175))
  || (byte_is c1 226 && byte_is c2 129 && byte_is c3 159)
  || (byte_is c1 227 && byte_is c2 128 && byte_is c3 128)
  || (byte_is c1 239 && byte_is c2 187 && byte_is c3 191).

(** [is_space s]: one of these characters stands at the head of [s]. *)
Definition is_space (s : string) : bool :=
  match s with
  | EmptyString => false
  | String c1 s1 =>
      is_space1 c1
      || match s1 with
         | EmptyString => false
         | String c2 s2 =>
             is_space2 c1 c2
             || match s2 with
                | EmptyString => false
                | String c3 _ => is_space3 c1 c2 c3
                end
         end
  end.

(** The string without the white space it starts with. *)
Fixpoint skip_spaces (s : string) : string :=
  match s with
  | EmptyString => s
  | String c1 s1 =>
      if is_space1 c1 then skip_spaces s1
      else
        match s1 with
        | EmptyString => s
        | String c2 s2 =>
            if is_space2 c1 c2 then skip_spaces s2
            else
              match s2 with
              | EmptyString => s
              | String c3 s3 =>
                  if is_space3 c1 c2 c3 then skip_spaces s3 else s
              end
        end
  end.

Definition digit_value (radix : Z) (c : ascii) : option Z :=
  let n := Z.of_nat (nat_of_ascii c) in
  let v :=
    if (48 <=? n) && (n <=? 57) then Some (n - 48)
    else if (97 <=? n) && (n <=? 122) then Some (n - 87)
    else if (65 <=? n) && (n <=? 90) then Some (n - 55)
    else None in
  match v with
  | Some d => if d <? radix then Some d else None
  | None => None
  end.

Fixpoint digits_prefix (radix : Z) (acc : option Z) (s : string) : option Z :=
  match s with
  | EmptyString => acc
  | String c s' =>
      match digit_value radix c with
      | Some d =>
          digits_prefix radix
            (Some (match acc with Some a => a * radix + d | None => d end)) s'
      | None => acc
      end
  end.

Definition parseInt (s : string) : option Z :=
  let s1 := skip_spaces s in
  let '(sign, s2) :=
    match s1 with
    | String "-"%char r => (-1, r)
    | String "+"%char r => (1, r)
    | _ => (1, s1)
    end in
  let '(radix, s3) :=
    match s2 with
    | String "0"%char (String "x"%char r) => (16, r)
    | String "0"%char (String "X"%char r) => (16, r)
    | _ => (10, s2)
    end in
  option_map (Z.mul sign) (digits_prefix radix None s3).

(* ------------------------------------------------------------------ *)
(** ** Data model *)

Record MediaItem := mkMedia {
  m_id : string;
  m_filename : string;
  m_originalName : string;
  m_type : string;
  m_url : string
}.

Record Episode := mkEpisode {
  e_title : string;
  e_thumbnail : option string;
  e_music : option string;
  e_musicOriginalName : option string;
  e_media : list MediaItem
}.

Record Series := mkSeries {
  s_id : string;
  s_title : string;
  s_description : string;
  s_thumbnail : option string;
  s_createdAt : string;
  s_episodeCount : Z;
  s_episodes : list Episode
}.

(** What [JSON.parse] yields for the persisted object: the current shape has
    [series], the legacy shape has [showTitle], [episodeCount], [episodes]. *)
Record Document := mkDoc {
  series : option (list Series);
  showTitle : option string;
  episodeCount : option Z;
  episodes : option (list Episode)
}.

(** The object literal [{ series: l }]. *)
Definition doc_of_series (l : list Series) : Document :=
  mkDoc (Some l) None None None.

(** Contents of [showData.json]. *)
Inductive FileContents :=
| Missing
| Unparsable
| JsonNull
| JsonDoc (d : Document).

(** The object literal [{ title: `Episode ${k}`, thumbnail: null, media: [] }]. *)
Definition newEpisode (k : Z) : Episode :=
  mkEpisode ("Episode " ++ string_of_Z k)%string None None None [].

(* ------------------------------------------------------------------ *)
(** ** Environment, world and the handler monad *)

(** What the handlers take from outside the repository. *)
Record Env := mkEnv {
  uuid_gen : nat -> string;          (* the n-th answer of [uuidv4()] *)
  now : string;                      (* [new Date().toISOString()] *)
  s3_delete_ok : string -> bool;     (* does the store's delete resolve? *)
  bucketName : string;               (* [process.env.AWS_S3_BUCKET_NAME] *)
  AWS_REGION : option string;        (* [process.env.AWS_REGION] *)
  extname : string -> string;        (* [path.extname] *)
  toLowerCase : string -> string     (* [String.prototype.toLowerCase] *)
}.

Record World := mkWorld {
  w_file : FileContents;             (* showData.json *)
  w_deleted : list string;           (* keys passed to [deleteFromS3], oldest first *)
  w_uuids : nat                      (* number of ids generated so far *)
}.

Inductive exn := ENOENT | SyntaxError | TypeError.

Inductive result (A : Type) :=
| Ok (a : A)
| Throw (e : exn).
Arguments Ok {A} a.
Arguments Throw {A} e.

Definition M (A : Type) : Type := World -> result A * World.

Definition ret {A} (a : A) : M A := fun w => (Ok a, w).

Definition throw {A} (e : exn) : M A := fun w => (Throw e, w).

Definition bind {A B} (c : M A) (k : A -> M B) : M B :=
  fun w =>
    match c w with
    | (Ok a, w') => k a w'
    | (Throw e, w') => (Throw e, w')
    end.

Definition try_catch {A} (c : M A) (h : exn -> M A) : M A :=
  fun w =>
    match c w with
    | (Ok a, w') => (Ok a, w')
    | (Throw e, w') => h e w'
    end.

Declare Scope handler_scope.
Delimit Scope handler_scope with handler.
Notation "x <- c ;; k" := (bind c (fun x => k))
  (at level 61, c at next level, right associativity) : handler_scope.
Notation "c ;;; k" := (bind c (fun _ => k))
  (at level 61, right associativity) : handler_scope.
Local Open Scope handler_scope.

(** [if (b) { c }]. *)
Definition when (b : bool) (c : M unit) : M unit :=
  if b then c else ret tt.

(** [for (const x of l) { f(x) }]. *)
Fixpoint for_of {A} (l : list A) (f : A -> M unit) : M unit :=
  match l with
  | [] => ret tt
  | x :: l' => f x ;;; for_of l' f
  end.

(** [l.map(f)] for an effectful [f]. *)
Fixpoint map_M {A B} (f : A -> M B) (l : list A) : M (list B) :=
  match l with
  | [] => ret []
  | x :: l' => y <- f x ;; ys <- map_M f l' ;; ret (y :: ys)
  end.

(** Reading a property of a value that may be [undefined] or [null]. *)
Definition deref {A} (o : option A) : M A :=
  match o with
  | Some a => ret a
  | None => throw TypeError
  end.

(** HTTP responses. *)
Inductive Body :=
| BError (msg : string)
| BSuccess
| BSeriesList (l : option (list Series))
| BSeries (s : Series)
| BSeriesUpdated (s : Series)
| BFile (filename url : string)
| BMusic (filename originalName url : string)
| BFiles (files : list MediaItem)
| BMedia (media : list MediaItem)
| BShow (title : string) (count : Z) (eps : list Episode).

Record Response := mkResponse { status : Z; body : Body }.

Definition json (b : Body) : M Response := ret (mkResponse 200 b).
Definition status_json (code : Z) (msg : string) : M Response :=
  ret (mkResponse code (BError msg)).

Record UploadedFile := mkFile { f_key : string; f_originalname : string }.

(** [data.series = l] on the loaded object. *)
Definition set_series (d : Document) (l : list Series) : Document :=
  mkDoc (Some l) (showTitle d) (episodeCount d) (episodes d).

Definition set_episodes (s : Series) (eps : list Episode) : Series :=
  mkSeries (s_id s) (s_title s) (s_description s) (s_thumbnail s)
           (s_createdAt s) (s_episodeCount s) eps.

Definition set_media (e : Episode) (ms : list MediaItem) : Episode :=
  mkEpisode (e_title e) (e_thumbnail e) (e_music e) (e_musicOriginalName e) ms.

Definition set_e_thumbnail (e : Episode) (t : option string) : Episode :=
  mkEpisode (e_title e) t (e_music e) (e_musicOriginalName e) (e_media e).

Definition set_e_music (e : Episode) (mu orig : option string) : Episode :=
  mkEpisode (e_title e) (e_thumbnail e) mu orig (e_media e).

(** The comparison [episodeIndex >= series.episodes.length]; it is false
    when [episodeIndex] is [NaN]. *)
Definition index_ge_length (idx : option Z) (len : nat) : bool :=
  match idx with
  | Some z => Z.of_nat len <=? z
  | None => false
  end.

(** [series.episodes[episodeIndex]]: [undefined] unless the index is a
    non-negative integer below the length. *)
Definition episode_at (idx : option Z) (eps : list Episode) : option Episode :=
  match idx with
  | Some z => if z <? 0 then None else nth_error eps (Z.to_nat z)
  | None => None
  end.

Definition index_nat (idx : option Z) : nat :=
  match idx with Some z => Z.to_nat z | None => O end.

(* ------------------------------------------------------------------ *)
(** ** Episode-count reconciliation *)

(** [while (eps.length < count) eps.push(newEpisode(eps.length + 1))].
    The loop test is evaluated at every turn; [fuel] bounds the turns. *)
Fixpoint pad_loop (fuel : nat) (eps : list Episode) (count : Z) : list Episode :=
  match fuel with
  | O => eps
  | S fuel' =>
      if Z.of_nat (List.length eps) <? count
      then pad_loop fuel' (eps ++ [newEpisode (Z.of_nat (List.length eps) + 1)]) count
      else eps
  end.

Definition padEpisodes (eps : list Episode) (count : Z) : list Episode :=
  pad_loop (Z.to_nat (count - Z.of_nat (List.length eps))) eps count.

(** [for (let i = 0; i < count; i++) eps.push(newEpisode(i + 1))]. *)
Fixpoint init_loop (fuel : nat) (i : Z) (eps : list Episode) (count : Z)
  : list Episode :=
  match fuel with
  | O => eps
  | S fuel' =>
      if i <? count
      then init_loop fuel' (i + 1) (eps ++ [newEpisode (i + 1)]) count
      else eps
  end.

Definition initEpisodes (count : Z) : list Episode :=
  init_loop (Z.to_nat count) 0 [] count.

(** Body of [PUT /series/:seriesId]. *)
Record UpdateBody := mkUpdate {
  u_title : option string;
  u_description : option string;
  u_episodeCount : option Z;
  u_episodes : option (list Episode)
}.

(** The assignments of [PUT /series/:seriesId] on the series found. *)
Definition applyUpdate (s : Series) (b : UpdateBody) : Series :=
  let title := match u_title b with Some t => t | None => s_title s end in
  let description :=
    match u_description b with Some d => d | None => s_description s end in
  let eps := match u_episodes b with Some e => e | None => s_episodes s end in
  match u_episodeCount b with
  | Some n =>
      if negb (n =? s_episodeCount s)
      then mkSeries (s_id s) title description (s_thumbnail s) (s_createdAt s)
                    n (slice0 (padEpisodes eps n) n)
      else mkSeries (s_id s) title description (s_thumbnail s) (s_createdAt s)
                    (s_episodeCount s) eps
  | None =>
      mkSeries (s_id s) title description (s_thumbnail s) (s_createdAt s)
               (s_episodeCount s) eps
  end.

(* ------------------------------------------------------------------ *)
(** ** Media reordering: the JavaScript [Map] *)

(** A [Map] keeps its entries in insertion order; [set] on a key already
    present replaces the value where the key stands. *)
Definition JsMap := list (string * MediaItem).

Fixpoint map_set (k : string) (v : MediaItem) (m : JsMap) : JsMap :=
  match m with
  | [] => [(k, v)]
  | (k', v') :: m' =>
      if String.eqb k' k then (k', v) :: m' else (k', v') :: map_set k v m'
  end.

Fixpoint map_get (k : string) (m : JsMap) : option MediaItem :=
  match m with
  | [] => None
  | (k', v') :: m' => if String.eqb k' k then Some v' else map_get k m'
  end.

Definition map_has (k : string) (m : JsMap) : bool :=
  match map_get k m with Some _ => true | None => false end.

Fixpoint map_delete (k : string) (m : JsMap) : JsMap :=
  match m with
  | [] => []
  | (k', v') :: m' =>
      if String.eqb k' k then m' else (k', v') :: map_delete k m'
  end.

Definition map_values (m : JsMap) : list MediaItem := List.map snd m.

(** [episode.media.forEach(m => mediaMap.set(m.id, m))]. *)
Definition buildMediaMap (media : list MediaItem) : JsMap :=
  fold_left (fun mp x => map_set (m_id x) x mp) media [].

(** One turn of [mediaIds.forEach]:
    [if (mediaMap.has(id)) { reorderedMedia.push(mediaMap.get(id));
    mediaMap.delete(id); }]. *)
Definition reorder_step (st : list MediaItem * JsMap) (id : string)
  : list MediaItem * JsMap :=
  let '(out, mp) := st in
  match map_get id mp with
  | Some x => (out ++ [x], map_delete id mp)
  | None => (out, mp)
  end.

(** The new value of [episode.media]: the items pushed by the loop, then
    [mediaMap.forEach(m => reorderedMedia.push(m))]. *)
Definition reorderMedia (media : list MediaItem) (mediaIds : list string)
  : list MediaItem :=
  let '(out, mp) := fold_left reorder_step mediaIds ([], buildMediaMap media) in
  out ++ map_values mp.

(* ------------------------------------------------------------------ *)
(** ** [config/s3.js] *)

(** [getKeyFromUrl(url)]. *)
Definition getKeyFromUrl (url : option string) : option string :=
  match url with
  | None => None
  | Some u =>
      if String.eqb u EmptyString then None
      else if includes u ".s3." && includes u ".amazonaws.com/"
      then match_amazonaws u
      else if startsWith u "/uploads/" then None
      else None
  end.

Section Handlers.

Variable env : Env.

(** [getS3Url(key)]. *)
Definition getS3Url (key : string) : string :=
  ("https://" ++ bucketName env ++ ".s3." ++
   or_str (AWS_REGION env) "ap-south-1" ++ ".amazonaws.com/" ++ key)%string.

(** [deleteFromS3(key)]: the call is recorded; a failure of the store is
    caught inside and answered [false]. *)
Definition deleteFromS3 (key : string) : M bool :=
  fun w =>
    (Ok (s3_delete_ok env key),
     mkWorld (w_file w) (w_deleted w ++ [key]) (w_uuids w)).

(** [const key = getKeyFromUrl(ref); if (key) await deleteFromS3(key);] *)
Definition deleteRef (ref : option string) : M unit :=
  let key := getKeyFromUrl ref in
  match key with
  | Some k => if truthy_str key then (_ <- deleteFromS3 k ;; ret tt) else ret tt
  | None => ret tt
  end.

Definition uuidv4 : M string :=
  fun w =>
    (Ok (uuid_gen env (w_uuids w)),
     mkWorld (w_file w) (w_deleted w) (S (w_uuids w))).

(* ------------------------------------------------------------------ *)
(** ** [routes/api.js]: the document store *)

Definition readFileSync : M FileContents :=
  fun w =>
    match w_file w with
    | Missing => (Throw ENOENT, w)
    | c => (Ok c, w)
    end.

(** [JSON.parse(data)]: [None] is the value [null]. *)
Definition JSON_parse (c : FileContents) : M (option Document) :=
  match c with
  | Missing => throw ENOENT
  | Unparsable => throw SyntaxError
  | JsonNull => ret None
  | JsonDoc d => ret (Some d)
  end.

(** [saveData(data)]. *)
Definition saveData (data : Document) : M unit :=
  fun w => (Ok tt, mkWorld (JsonDoc data) (w_deleted w) (w_uuids w)).

(** [getData()]. *)
Definition getData : M Document :=
  try_catch
    (data <- readFileSync ;;
     parsed0 <- JSON_parse data ;;
     parsed <- deref parsed0 ;;
     match series parsed, showTitle parsed with
     | None, Some title =>
         if negb (String.eqb title EmptyString) then
           id <- uuidv4 ;;
           let migratedData :=
             doc_of_series
               [mkSeries id title "A personal documentary" None (now env)
                         (or_Z (episodeCount parsed) 1)
                         (or_list (episodes parsed) [])] in
           saveData migratedData ;;;
           ret migratedData
         else ret parsed
     | _, _ => ret parsed
     end)
    (fun _ => ret (doc_of_series [])).

Definition has_id (seriesId : string) (s : Series) : bool :=
  String.eqb (s_id s) seriesId.

(** [findSeries(seriesId)]: [data.series.find(s => s.id === seriesId)]. *)
Definition findSeries (seriesId : string) : M (option Series) :=
  data <- getData ;;
  ss <- deref (series data) ;;
  ret (List.find (has_id seriesId) ss).

(* ------------------------------------------------------------------ *)
(** ** Series routes *)

(** [GET /series]. *)
Definition listSeries : M Response :=
  data <- getData ;;
  json (BSeriesList (series data)).

(** [GET /series/:seriesId]. *)
Definition getSeries (seriesId : string) : M Response :=
  s <- findSeries seriesId ;;
  match s with
  | None => status_json 404 "Series not found"
  | Some s => json (BSeries s)
  end.

(** [POST /series]. *)
Definition createSeries (title description : option string)
           (count : option Z) : M Response :=
  try_catch
    (data <- getData ;;
     id <- uuidv4 ;;
     let n := or_Z count 1 in
     let newSeries :=
       mkSeries id (or_str title "Untitled Series") (or_str description EmptyString)
                None (now env) n (initEpisodes n) in
     ss <- deref (series data) ;;
     saveData (set_series data (ss ++ [newSeries])) ;;;
     json (BSeries newSeries))
    (fun _ => status_json 500 "error").

(** [PUT /series/:seriesId]. *)
Definition updateSeries (seriesId : string) (b : UpdateBody) : M Response :=
  try_catch
    (data <- getData ;;
     ss <- deref (series data) ;;
     match findIndex (has_id seriesId) ss with
     | None => status_json 404 "Series not found"
     | Some i =>
         s <- deref (nth_error ss i) ;;
         let s' := applyUpdate s b in
         saveData (set_series data (set_nth i s' ss)) ;;;
         json (BSeriesUpdated s')
     end)
    (fun _ => status_json 500 "error").

(** The delete calls of [DELETE /series/:seriesId] for one episode. *)
Definition deleteEpisodeAssets (e : Episode) : M unit :=
  when (truthy_str (e_thumbnail e)) (deleteRef (e_thumbnail e)) ;;;
  when (truthy_str (e_music e)) (deleteRef (e_music e)) ;;;
  for_of (e_media e) (fun m => deleteRef (Some (m_url m))).

(** [DELETE /series/:seriesId], object-storage variant. *)
Definition deleteSeries (seriesId : string) : M Response :=
  try_catch
    (data <- getData ;;
     ss <- deref (series data) ;;
     match findIndex (has_id seriesId) ss with
     | None => status_json 404 "Series not found"
     | Some i =>
         s <- deref (nth_error ss i) ;;
         when (truthy_str (s_thumbnail s)) (deleteRef (s_thumbnail s)) ;;;
         for_of (s_episodes s) deleteEpisodeAssets ;;;
         saveData (set_series data (splice1 i ss)) ;;;
         json BSuccess
     end)
    (fun _ => status_json 500 "error").

(** [DELETE /series/:seriesId], disk variant: the files are left alone
    ("TODO: Optionally delete associated files"). *)
Definition deleteSeries_disk (seriesId : string) : M Response :=
  try_catch
    (data <- getData ;;
     ss <- deref (series data) ;;
     match findIndex (has_id seriesId) ss with
     | None => status_json 404 "Series not found"
     | Some i =>
         saveData (set_series data (splice1 i ss)) ;;;
         json BSuccess
     end)
    (fun _ => status_json 500 "error").

(** Body of [POST /show]. *)
Record ShowBody := mkShow {
  sh_showTitle : option string;
  sh_episodeCount : option Z;
  sh_episodes : option (list Episode)
}.

(** [POST /show]: the legacy save, on the first series. *)
Definition saveShow (b : ShowBody) : M Response :=
  try_catch
    (data <- getData ;;
     ss <- deref (series data) ;;
     ss' <-
       match ss with
       | [] =>
           id <- uuidv4 ;;
           let n := or_Z (sh_episodeCount b) 1 in
           let newSeries :=
             mkSeries id (or_str (sh_showTitle b) "The Story of My Life") EmptyString
                      None (now env) n
                      (padEpisodes (or_list (sh_episodes b) []) n) in
           ret [newSeries]
       | s :: rest =>
           let n := or_Z (sh_episodeCount b) (s_episodeCount s) in
           let eps := or_list (sh_episodes b) (s_episodes s) in
           ret (mkSeries (s_id s) (or_str (sh_showTitle b) (s_title s))
                         (s_description s) (s_thumbnail s) (s_createdAt s) n
                         (slice0 (padEpisodes eps n) n) :: rest)
       end ;;
     saveData (set_series data ss') ;;;
     s <- deref (nth_error ss' 0) ;;
     json (BShow (s_title s) (s_episodeCount s) (s_episodes s)))
    (fun _ => status_json 500 "error").

(* ------------------------------------------------------------------ *)
(** ** Episode routes (with series context), object-storage variant *)

(** [series.episodes[episodeIndex] = e] on the series at index [i]. *)
Definition store_episode (data : Document) (ss : list Series) (i : nat)
           (s : Series) (idx : option Z) (e : Episode) : Document :=
  set_series data
    (set_nth i (set_episodes s (set_nth (index_nat idx) e (s_episodes s))) ss).

(** [POST /series/:seriesId/upload/thumbnail/:episodeIndex]. *)
Definition uploadEpisodeThumbnail (seriesId episodeIndexParam : string)
           (file : option UploadedFile) : M Response :=
  let episodeIndex := parseInt episodeIndexParam in
  match file with
  | None => status_json 400 "No file uploaded"
  | Some f =>
      data <- getData ;;
      ss <- deref (series data) ;;
      match findIndex (has_id seriesId) ss with
      | None => status_json 404 "Series not found"
      | Some i =>
          s <- deref (nth_error ss i) ;;
          if index_ge_length episodeIndex (List.length (s_episodes s))
          then status_json 400 "Invalid episode index"
          else
            e <- deref (episode_at episodeIndex (s_episodes s)) ;;
            when (truthy_str (e_thumbnail e)) (deleteRef (e_thumbnail e)) ;;;
            let s3Url := getS3Url (f_key f) in
            saveData (store_episode data ss i s episodeIndex
                        (set_e_thumbnail e (Some s3Url))) ;;;
            json (BFile (f_key f) s3Url)
      end
  end.

(** [/mp4|webm|mov|avi|mkv/.test(path.extname(name).toLowerCase())]. *)
Definition isVideo (originalname : string) : bool :=
  let ext := toLowerCase env (extname env originalname) in
  includes ext "mp4" || includes ext "webm" || includes ext "mov"
  || includes ext "avi" || includes ext "mkv".

Definition mediaOfFile (f : UploadedFile) : M MediaItem :=
  let video := isVideo (f_originalname f) in
  let s3Url := getS3Url (f_key f) in
  id <- uuidv4 ;;
  ret (mkMedia id (f_key f) (f_originalname f)
               (if video then "video" else "image") s3Url).

(** [POST /series/:seriesId/upload/media/:episodeIndex]. *)
Definition uploadMedia (seriesId episodeIndexParam : string)
           (files : option (list UploadedFile)) : M Response :=
  let episodeIndex := parseInt episodeIndexParam in
  match files with
  | None | Some [] => status_json 400 "No files uploaded"
  | Some fs =>
      data <- getData ;;
      ss <- deref (series data) ;;
      match findIndex (has_id seriesId) ss with
      | None => status_json 404 "Series not found"
      | Some i =>
          s <- deref (nth_error ss i) ;;
          if index_ge_length episodeIndex (List.length (s_episodes s))
          then status_json 400 "Invalid episode index"
          else
            newMedia <- map_M mediaOfFile fs ;;
            e <- deref (episode_at episodeIndex (s_episodes s)) ;;
            saveData (store_episode data ss i s episodeIndex
                        (set_media e (e_media e ++ newMedia))) ;;;
            json (BFiles newMedia)
      end
  end.

(** [POST /series/:seriesId/upload/music/:episodeIndex]. *)
Definition uploadMusic (seriesId episodeIndexParam : string)
           (file : option UploadedFile) : M Response :=
  let episodeIndex := parseInt episodeIndexParam in
  match file with
  | None => status_json 400 "No file uploaded"
  | Some f =>
      data <- getData ;;
      ss <- deref (series data) ;;
      match findIndex (has_id seriesId) ss with
      | None => status_json 404 "Series not found"
      | Some i =>
          s <- deref (nth_error ss i) ;;
          if index_ge_length episodeIndex (List.length (s_episodes s))
          then status_json 400 "Invalid episode index"
          else
            e <- deref (episode_at episodeIndex (s_episodes s)) ;;
            when (truthy_str (e_music e)) (deleteRef (e_music e)) ;;;
            let s3Url := getS3Url (f_key f) in
            saveData (store_episode data ss i s episodeIndex
                        (set_e_music e (Some s3Url)
                                     (Some (f_originalname f)))) ;;;
            json (BMusic (f_key f) (f_originalname f) s3Url)
      end
  end.

(** [DELETE /series/:seriesId/music/:episodeIndex]. *)
Definition deleteMusic (seriesId episodeIndexParam : string) : M Response :=
  let episodeIndex := parseInt episodeIndexParam in
  data <- getData ;;
  ss <- deref (series data) ;;
  match findIndex (has_id seriesId) ss with
  | None => status_json 404 "Series not found"
  | Some i =>
      s <- deref (nth_error ss i) ;;
      if index_ge_length episodeIndex (List.length (s_episodes s))
      then status_json 400 "Invalid episode index"
      else
        e <- deref (episode_at episodeIndex (s_episodes s)) ;;
        when (truthy_str (e_music e))
             (deleteRef (e_music e) ;;;
              saveData (store_episode data ss i s episodeIndex
                          (set_e_music e None None))) ;;;
        json BSuccess
  end.

(** [DELETE /series/:seriesId/media/:episodeIndex/:mediaId]. *)
Definition deleteMedia (seriesId episodeIndexParam mediaId : string)
  : M Response :=
  let episodeIndex := parseInt episodeIndexParam in
  data <- getData ;;
  ss <- deref (series data) ;;
  match findIndex (has_id seriesId) ss with
  | None => status_json 404 "Series not found"
  | Some i =>
      s <- deref (nth_error ss i) ;;
      if index_ge_length episodeIndex (List.length (s_episodes s))
      then status_json 400 "Invalid episode index"
      else
        e <- deref (episode_at episodeIndex (s_episodes s)) ;;
        match findIndex (fun m => String.eqb (m_id m) mediaId) (e_media e) with
        | None => status_json 404 "Media not found"
        | Some j =>
            mediaFile <- deref (nth_error (e_media e) j) ;;
            deleteRef (Some (m_url mediaFile)) ;;;
            saveData (store_episode data ss i s episodeIndex
                        (set_media e (splice1 j (e_media e)))) ;;;
            json BSuccess
        end
  end.

(** [POST /series/:seriesId/media/:episodeIndex/reorder]; [mediaIds] is
    [None] when the body does not carry an array. *)
Definition reorder (seriesId episodeIndexParam : string)
           (mediaIds : option (list string)) : M Response :=
  let episodeIndex := parseInt episodeIndexParam in
  match mediaIds with
  | None => status_json 400 "mediaIds must be an array"
  | Some ids =>
      data <- getData ;;
      ss <- deref (series data) ;;
      match findIndex (has_id seriesId) ss with
      | None => status_json 404 "Series not found"
      | Some i =>
          s <- deref (nth_error ss i) ;;
          if index_ge_length episodeIndex (List.length (s_episodes s))
          then status_json 400 "Invalid episode index"
          else
            e <- deref (episode_at episodeIndex (s_episodes s)) ;;
            let reorderedMedia := reorderMedia (e_media e) ids in
            saveData (store_episode data ss i s episodeIndex
                        (set_media e reorderedMedia)) ;;;
            json (BMedia reorderedMedia)
      end
  end.

End Handlers.

(* ------------------------------------------------------------------ *)
(** ** The order of effects

    The world keeps the file and the delete calls apart, so it does not say
    which came first.  The handlers whose order of effects matters are
    embedded a second time over a world with a journal, in which every
    call of [deleteFromS3] and every write of the file leaves an event. *)

Inductive Event :=
| Deleted (key : string)       (* a call [deleteFromS3(key)] *)
| Saved (data : Document).     (* a call [saveData(data)] *)

Record Traced := mkTraced {
  t_world : World;
  t_events : list Event        (* oldest first *)
}.

Definition T (A : Type) : Type := Traced -> result A * Traced.

Definition t_ret {A} (a : A) : T A := fun t => (Ok a, t).

Definition t_bind {A B} (c : T A) (k : A -> T B) : T B :=
  fun t =>
    match c t with
    | (Ok a, t') => k a t'
    | (Throw e, t') => (Throw e, t')
    end.

Definition t_try_catch {A} (c : T A) (h : exn -> T A) : T A :=
  fun t =>
    match c t with
    | (Ok a, t') => (Ok a, t')
    | (Throw e, t') => h e t'
    end.

(** A computation on the world, leaving no event. *)
Definition lift {A} (c : M A) : T A :=
  fun t =>
    match c (t_world t) with
    | (r, w') => (r, mkTraced w' (t_events t))
    end.

Definition emit (ev : Event) : T unit :=
  fun t => (Ok tt, mkTraced (t_world t) (t_events t ++ [ev])).

Declare Scope traced_scope.
Delimit Scope traced_scope with traced.
Notation "x <- c ;; k" := (t_bind c (fun x => k))
  (at level 61, c at next level, right associativity) : traced_scope.
Notation "c ;;; k" := (t_bind c (fun _ => k))
  (at level 61, right associativity) : traced_scope.

Definition t_when (b : bool) (c : T unit) : T unit :=
  if b then c else t_ret tt.

Fixpoint t_for_of {A} (l : list A) (f : A -> T unit) : T unit :=
  match l with
  | [] => t_ret tt
  | x :: l' => (f x ;;; t_for_of l' f)%traced
  end.

Section TracedHandlers.

Variable env : Env.

Local Open Scope traced_scope.

(** [deleteFromS3(key)], journalled. *)
Definition deleteFromS3_traced (key : string) : T bool :=
  emit (Deleted key) ;;; lift (deleteFromS3 env key).

(** [saveData(data)], journalled. *)
Definition saveData_traced (data : Document) : T unit :=
  emit (Saved data) ;;; lift (saveData data).

(** [getData()], journalled: the migration writes. *)
Definition getData_traced : T Document :=
  t_try_catch
    (data <- lift readFileSync ;;
     parsed0 <- lift (JSON_parse data) ;;
     parsed <- lift (deref parsed0) ;;
     match series parsed, showTitle parsed with
     | None, Some title =>
         if negb (String.eqb title EmptyString) then
           id <- lift (uuidv4 env) ;;
           let migratedData :=
             doc_of_series
               [mkSeries id title "A personal documentary" None (now env)
                         (or_Z (episodeCount parsed) 1)
                         (or_list (episodes parsed) [])] in
           saveData_traced migratedData ;;;
           t_ret migratedData
         else t_ret parsed
     | _, _ => t_ret parsed
     end)
    (fun _ => t_ret (doc_of_series [])).

(** [const key = getKeyFromUrl(ref); if (key) await deleteFromS3(key);] *)
Definition deleteRef_traced (ref : option string) : T unit :=
  let key := getKeyFromUrl ref in
  match key with
  | Some k =>
      if truthy_str key then (_ <- deleteFromS3_traced k ;; t_ret tt)
      else t_ret tt
  | None => t_ret tt
  end.

Definition deleteEpisodeAssets_traced (e : Episode) : T unit :=
  t_when (truthy_str (e_thumbnail e)) (deleteRef_traced (e_thumbnail e)) ;;;
  t_when (truthy_str (e_music e)) (deleteRef_traced (e_music e)) ;;;
  t_for_of (e_media e) (fun m => deleteRef_traced (Some (m_url m))).

(** [DELETE /series/:seriesId], object-storage variant, journalled. *)
Definition deleteSeries_traced (seriesId : string) : T Response :=
  t_try_catch
    (data <- getData_traced ;;
     ss <- lift (deref (series data)) ;;
     match findIndex (has_id seriesId) ss with
     | None => lift (status_json 404 "Series not found")
     | Some i =>
         s <- lift (deref (nth_error ss i)) ;;
         t_when (truthy_str (s_thumbnail s)) (deleteRef_traced (s_thumbnail s)) ;;;
         t_for_of (s_episodes s) deleteEpisodeAssets_traced ;;;
         saveData_traced (set_series data (splice1 i ss)) ;;;
         lift (json BSuccess)
     end)
    (fun _ => lift (status_json 500 "error")).

(** [DELETE /series/:seriesId], disk variant, journalled. *)
Definition deleteSeries_disk_traced (seriesId : string) : T Response :=
  t_try_catch
    (data <- getData_traced ;;
     ss <- lift (deref (series data)) ;;
     match findIndex (has_id seriesId) ss with
     | None => lift (status_json 404 "Series not found")
     | Some i =>
         saveData_traced (set_series data (splice1 i ss)) ;;;
         lift (json BSuccess)
     end)
    (fun _ => lift (status_json 500 "error")).

End TracedHandlers.

(** The events of the keys [ks], in order. *)
Definition deletions (ks : list string) : list Event := List.map Deleted ks.

(** The journalled world after delete calls for the keys [ks]. *)
Definition t_logged (t : Traced) (ks : list string) : Traced :=
  mkTraced (mkWorld (w_file (t_world t)) (w_deleted (t_world t) ++ ks)
                    (w_uuids (t_world t)))
           (t_events t ++ deletions ks).

(** A journalled computation [ct] is the computation [c] with a journal:
    forgetting the journal, it answers and leaves the world as [c] does. *)
Definition erases {A} (ct : T A) (c : M A) : Prop :=
  forall t, c (t_world t) = (fst (ct t), t_world (snd (ct t))).

(* ------------------------------------------------------------------ *)
(** ** Vocabulary of the properties *)

(** The invariant [episodes.length == episodeCount] of a series. *)
Definition consistent (s : Series) : Prop :=
  Z.of_nat (List.length (s_episodes s)) = s_episodeCount s.

(** The persisted document is in the current shape and every series in it
    satisfies the invariant. *)
Definition persisted_consistent (w : World) : Prop :=
  exists d ss,
    w_file w = JsonDoc d /\ series d = Some ss /\ Forall consistent ss.

(** When [PUT /series/:seriesId] leaves the count and the episodes of [s]
    in agreement: a supplied count that differs from the current one is
    reconciled (and must be non-negative); otherwise no episodes array may
    be supplied. *)
Definition update_reconciled (s : Series) (b : UpdateBody) : Prop :=
  match u_episodeCount b with
  | Some n => if n =? s_episodeCount s then u_episodes b = None else 0 <= n
  | None => u_episodes b = None
  end.

(** The episodes [Episode from+1], ..., [Episode from+k]. *)
Fixpoint freshEpisodes (from : Z) (k : nat) : list Episode :=
  match k with
  | O => []
  | S k' => newEpisode (from + 1) :: freshEpisodes (from + 1) k'
  end.

(** Asset references reachable from a series, as the specification counts
    them: the thumbnail if non-null, then per episode its thumbnail, its
    music and the reference of each media item. *)
Definition ref_list (o : option string) : list string :=
  match o with Some r => [r] | None => [] end.

Definition episodeRefs (e : Episode) : list string :=
  ref_list (e_thumbnail e) ++ ref_list (e_music e) ++ List.map m_url (e_media e).

Definition reachableRefs (s : Series) : list string :=
  ref_list (s_thumbnail s) ++ flat_map episodeRefs (s_episodes s).

(** The keys [DELETE /series/:seriesId] hands to [deleteFromS3]: one per
    truthy reference that [getKeyFromUrl] resolves, in the order of the
    handler. *)
Definition refKeys (ref : option string) : list string :=
  if truthy_str ref then ref_list (getKeyFromUrl ref) else [].

Definition episodeKeys (e : Episode) : list string :=
  refKeys (e_thumbnail e) ++ refKeys (e_music e)
  ++ flat_map (fun m => refKeys (Some (m_url m))) (e_media e).

Definition seriesKeys (s : Series) : list string :=
  refKeys (s_thumbnail s) ++ flat_map episodeKeys (s_episodes s).

(** Reordering, described without the [Map]. *)
Definition mem_str (x : string) (l : list string) : bool :=
  existsb (String.eqb x) l.

(** The ids of a list, each at its first occurrence only. *)
Fixpoint dedup (seen ids : list string) : list string :=
  match ids with
  | [] => []
  | id :: ids' =>
      if mem_str id seen then dedup seen ids' else id :: dedup (id :: seen) ids'
  end.

(** The media item carrying [id], if there is one. *)
Definition pick (media : list MediaItem) (id : string) : list MediaItem :=
  match List.find (fun m => String.eqb (m_id m) id) media with
  | Some m => [m]
  | None => []
  end.

Definition mentioned (media : list MediaItem) (ids : list string)
  : list MediaItem :=
  flat_map (pick media) (dedup [] ids).

Definition unmentioned (media : list MediaItem) (ids : list string)
  : list MediaItem :=
  List.filter (fun m => negb (mem_str (m_id m) ids)) media.

(** [m.id === id], and "the id of [m] is not among [seen]". *)
Definition is_id (id : string) (m : MediaItem) : bool := String.eqb (m_id m) id.

Definition not_in (seen : list string) (m : MediaItem) : bool :=
  negb (mem_str (m_id m) seen).

Definition entries (media : list MediaItem) : JsMap :=
  List.map (fun m => (m_id m, m)) media.

(** The series a migration builds from a legacy document titled [title]. *)
Definition migratedSeries (env : Env) (id title : string) (d : Document)
  : Series :=
  mkSeries id title "A personal documentary" None (now env)
           (or_Z (episodeCount d) 1) (or_list (episodes d) []).

(** The world after a write of [d]. *)
Definition written (w : World) (d : Document) : World :=
  mkWorld (JsonDoc d) (w_deleted w) (w_uuids w).

(** When [POST /show] leaves the first series with as many episodes as its
    count: on an empty document the supplied episodes must not outnumber the
    count (they are padded, never trimmed); on an existing series the
    resulting count must be non-negative. *)
Definition show_reconciled (ss : list Series) (b : ShowBody) : Prop :=
  match ss with
  | [] =>
      Z.of_nat (List.length (or_list (sh_episodes b) []))
      <= or_Z (sh_episodeCount b) 1
  | s :: _ => 0 <= or_Z (sh_episodeCount b) (s_episodeCount s)
  end.

(** The world after the delete calls [ks]. *)
Definition logged (w : World) (ks : list string) : World :=
  mkWorld (w_file w) (w_deleted w ++ ks) (w_uuids w).

(** Each of the six index-taking routes ends in an uncaught [TypeError]
    on the index parameter [param], leaving the file as it was (the media
    upload has by then drawn one id). *)
Definition throws_on_index (env : Env) (w : World) (seriesId param : string)
  : Prop :=
  let f := mkFile "media/n.png" "n.png" in
  uploadEpisodeThumbnail env seriesId param (Some f) w = (Throw TypeError, w)
  /\ uploadMedia env seriesId param (Some [f]) w
     = (Throw TypeError, mkWorld (w_file w) (w_deleted w) (S (w_uuids w)))
  /\ uploadMusic env seriesId param (Some f) w = (Throw TypeError, w)
  /\ deleteMusic env seriesId param w = (Throw TypeError, w)
  /\ (forall mediaId, deleteMedia env seriesId param mediaId w
                      = (Throw TypeError, w))
  /\ (forall ids, reorder env seriesId param (Some ids) w
                  = (Throw TypeError, w)).

(* ------------------------------------------------------------------ *)
(** ** Sample environment and documents *)

Definition sample_env : Env :=
  mkEnv (fun n => ("uuid-" ++ string_of_Z (Z.of_nat n))%string)
        "2024-01-01T00:00:00.000Z" (fun _ => false) "bucket" None
        (fun s => s) (fun s => s).

Definition world_of (c : FileContents) : World := mkWorld c [] O.

Definition s3_thumb : string :=
  "https://bucket.s3.ap-south-1.amazonaws.com/thumbnails/t.png".
Definition s3_media : string :=
  "https://bucket.s3.ap-south-1.amazonaws.com/media/a.png".
Definition local_thumb : string := "/uploads/series-thumbnails/x.png".
Definition local_music : string := "/uploads/music/m.mp3".

Definition media_a : MediaItem := mkMedia "a" "media/a.png" "a.png" "image" s3_media.
Definition media_b : MediaItem :=
  mkMedia "b" "b.png" "b.png" "image" "/uploads/media/b.png".
Definition media_c : MediaItem :=
  mkMedia "c" "media/c.mp4" "c.mp4" "video"
          "https://bucket.s3.ap-south-1.amazonaws.com/media/c.mp4".

Definition sample_episode : Episode :=
  mkEpisode "Episode 1" (Some s3_thumb) (Some local_music) (Some "m.mp3")
            [media_a; media_b; media_c].

Definition sample_series : Series :=
  mkSeries "s1" "Trip" EmptyString (Some local_thumb) "2023-12-31T00:00:00.000Z" 1
           [sample_episode].

Definition two_episode_series : Series :=
  mkSeries "s2" "Home" EmptyString None "2023-12-31T00:00:00.000Z" 2
           [newEpisode 1; newEpisode 2].

Definition sample_doc : Document :=
  doc_of_series [sample_series; two_episode_series].

(** A series holding two media items under one id, as a caller of
    [PUT /series/:seriesId] may store it. *)
Definition media_a_twin : MediaItem :=
  mkMedia "a" "media/a2.png" "a2.png" "image"
          "https://bucket.s3.ap-south-1.amazonaws.com/media/a2.png".

Definition twin_episode : Episode :=
  mkEpisode "Episode 1" None None None [media_a; media_a_twin].

(** The body [{ episodes: [twin_episode, {title: "Episode 2", ...}] }]. *)
Definition twin_update : UpdateBody :=
  mkUpdate None None None (Some [twin_episode; newEpisode 2]).

Definition legacy_doc : Document :=
  mkDoc None (Some "X") (Some 2) (Some [newEpisode 1; newEpisode 2]).

(** A legacy document whose [episodes] attribute is missing. *)
Definition legacy_doc_short : Document := mkDoc None (Some "X") (Some 2) None.

(** A legacy document with the count [0]. *)
Definition legacy_doc_zero : Document := mkDoc None (Some "X") (Some 0) (Some []).

(** The JSON text [{}]. *)
Definition empty_object : Document := mkDoc None None None None.

(** A series whose only asset reference is a local path. *)
Definition local_only_series : Series :=
  mkSeries "s3" "Old" EmptyString (Some local_thumb) "2023-12-31T00:00:00.000Z" 0 [].

(* ------------------------------------------------------------------ *)
(** ** Further routes of [routes/api.js], upload filters and [index.js] *)

From Stdlib Require DecimalZ.

Definition set_s_thumbnail (s : Series) (t : option string) : Series :=
  mkSeries (s_id s) (s_title s) (s_description s) t (s_createdAt s)
           (s_episodeCount s) (s_episodes s).

(** [s.slice(1)]. *)
Definition slice1 (s : string) : string :=
  match s with
  | EmptyString => EmptyString
  | String _ rest => rest
  end.

(** The default show of [GET /show] and of the bootstrap in [index.js]. *)
Definition defaultShowTitle : string := "The Story of My Life".

Definition defaultData : Document :=
  mkDoc None (Some defaultShowTitle) (Some 1) (Some [newEpisode 1]).

(** [index.js]: [if (!fs.existsSync(showDataPath)) fs.writeFileSync(...)]. *)
Definition initShowData : M unit :=
  fun w =>
    match w_file w with
    | Missing => (Ok tt, mkWorld (JsonDoc defaultData) (w_deleted w) (w_uuids w))
    | _ => (Ok tt, w)
    end.

Section MoreHandlers.

Variable env : Env.

(** The [fileFilter] of [uploadSeriesThumbnail] and [uploadThumbnail]:
    [/jpeg|jpg|png|gif|webp/.test(ext)] with
    [ext = path.extname(name).toLowerCase().slice(1)]. *)
Definition imageFilter (originalname : string) : bool :=
  let ext := slice1 (toLowerCase env (extname env originalname)) in
  includes ext "jpeg" || includes ext "jpg" || includes ext "png"
  || includes ext "gif" || includes ext "webp".

(** The [fileFilter] of [uploadMedia]. *)
Definition mediaFilter (originalname : string) : bool :=
  let ext := slice1 (toLowerCase env (extname env originalname)) in
  includes ext "jpeg" || includes ext "jpg" || includes ext "png"
  || includes ext "gif" || includes ext "webp" || includes ext "mp4"
  || includes ext "webm" || includes ext "mov" || includes ext "avi"
  || includes ext "mkv".

(** The [fileFilter] of [uploadMusic]. *)
Definition musicFilter (originalname : string) : bool :=
  let ext := slice1 (toLowerCase env (extname env originalname)) in
  includes ext "mp3" || includes ext "wav" || includes ext "ogg"
  || includes ext "aac" || includes ext "m4a" || includes ext "flac".

(** [config/s3.js], the [key] callback of [createS3Storage(folder)]. *)
Definition storageKey (folder originalname : string) : M string :=
  let ext := extname env originalname in
  id <- uuidv4 env ;;
  ret (folder ++ "/" ++ (id ++ ext))%string.

(** [POST /series/:seriesId/upload/thumbnail]. *)
Definition uploadSeriesThumbnail (seriesId : string)
           (file : option UploadedFile) : M Response :=
  match file with
  | None => status_json 400 "No file uploaded"
  | Some f =>
      data <- getData env ;;
      ss <- deref (series data) ;;
      match findIndex (has_id seriesId) ss with
      | None => status_json 404 "Series not found"
      | Some i =>
          s <- deref (nth_error ss i) ;;
          when (truthy_str (s_thumbnail s)) (deleteRef env (s_thumbnail s)) ;;;
          let s3Url := getS3Url env (f_key f) in
          saveData (set_series data
                      (set_nth i (set_s_thumbnail s (Some s3Url)) ss)) ;;;
          json (BFile (f_key f) s3Url)
      end
  end.

(** [GET /show]. *)
Definition getShow : M Response :=
  data <- getData env ;;
  ss <- deref (series data) ;;
  match ss with
  | s :: _ => json (BShow (s_title s) (s_episodeCount s) (s_episodes s))
  | [] => json (BShow defaultShowTitle 1 [newEpisode 1])
  end.

(** [POST /upload/thumbnail/:episodeIndex] (legacy, first series). *)
Definition legacyUploadThumbnail (episodeIndexParam : string)
           (file : option UploadedFile) : M Response :=
  let episodeIndex := parseInt episodeIndexParam in
  match file with
  | None => status_json 400 "No file uploaded"
  | Some f =>
      data <- getData env ;;
      ss <- deref (series data) ;;
      match ss with
      | [] => status_json 400 "No series found"
      | s :: _ =>
          if index_ge_length episodeIndex (List.length (s_episodes s))
          then status_json 400 "Invalid episode index"
          else
            e <- deref (episode_at episodeIndex (s_episodes s)) ;;
            when (truthy_str (e_thumbnail e)) (deleteRef env (e_thumbnail e)) ;;;
            let s3Url := getS3Url env (f_key f) in
            saveData (store_episode data ss 0 s episodeIndex
                        (set_e_thumbnail e (Some s3Url))) ;;;
            json (BFile (f_key f) s3Url)
      end
  end.

(** [POST /upload/media/:episodeIndex] (legacy). *)
Definition legacyUploadMedia (episodeIndexParam : string)
           (files : option (list UploadedFile)) : M Response :=
  let episodeIndex := parseInt episodeIndexParam in
  match files with
  | None | Some [] => status_json 400 "No files uploaded"
  | Some fs =>
      data <- getData env ;;
      ss <- deref (series data) ;;
      match ss with
      | [] => status_json 400 "No series found"
      | s :: _ =>
          if index_ge_length episodeIndex (List.length (s_episodes s))
          then status_json 400 "Invalid episode index"
          else
            newMedia <- map_M (mediaOfFile env) fs ;;
            e <- deref (episode_at episodeIndex (s_episodes s)) ;;
            saveData (store_episode data ss 0 s episodeIndex
                        (set_media e (e_media e ++ newMedia))) ;;;
            json (BFiles newMedia)
      end
  end.

(** [POST /upload/music/:episodeIndex] (legacy). *)
Definition legacyUploadMusic (episodeIndexParam : string)
           (file : option UploadedFile) : M Response :=
  let episodeIndex := parseInt episodeIndexParam in
  match file with
  | None => status_json 400 "No file uploaded"
  | Some f =>
      data <- getData env ;;
      ss <- deref (series data) ;;
      match ss with
      | [] => status_json 400 "No series found"
      | s :: _ =>
          if index_ge_length episodeIndex (List.length (s_episodes s))
          then status_json 400 "Invalid episode index"
          else
            e <- deref (episode_at episodeIndex (s_episodes s)) ;;
            when (truthy_str (e_music e)) (deleteRef env (e_music e)) ;;;
            let s3Url := getS3Url env (f_key f) in
            saveData (store_episode data ss 0 s episodeIndex
                        (set_e_music e (Some s3Url)
                                     (Some (f_originalname f)))) ;;;
            json (BMusic (f_key f) (f_originalname f) s3Url)
      end
  end.

(** [DELETE /music/:episodeIndex] (legacy). *)
Definition legacyDeleteMusic (episodeIndexParam : string) : M Response :=
  let episodeIndex := parseInt episodeIndexParam in
  data <- getData env ;;
  ss <- deref (series data) ;;
  match ss with
  | [] => status_json 400 "No series found"
  | s :: _ =>
      if index_ge_length episodeIndex (List.length (s_episodes s))
      then status_json 400 "Invalid episode index"
      else
        e <- deref (episode_at episodeIndex (s_episodes s)) ;;
        when (truthy_str (e_music e))
             (deleteRef env (e_music e) ;;;
              saveData (store_episode data ss 0 s episodeIndex
                          (set_e_music e None None))) ;;;
        json BSuccess
  end.

(** [DELETE /media/:episodeIndex/:mediaId] (legacy). *)
Definition legacyDeleteMedia (episodeIndexParam mediaId : string)
  : M Response :=
  let episodeIndex := parseInt episodeIndexParam in
  data <- getData env ;;
  ss <- deref (series data) ;;
  match ss with
  | [] => status_json 400 "No series found"
  | s :: _ =>
      if index_ge_length episodeIndex (List.length (s_episodes s))
      then status_json 400 "Invalid episode index"
      else
        e <- deref (episode_at episodeIndex (s_episodes s)) ;;
        match findIndex (fun m => String.eqb (m_id m) mediaId) (e_media e) with
        | None => status_json 404 "Media not found"
        | Some j =>
            mediaFile <- deref (nth_error (e_media e) j) ;;
            deleteRef env (Some (m_url mediaFile)) ;;;
            saveData (store_episode data ss 0 s episodeIndex
                        (set_media e (splice1 j (e_media e)))) ;;;
            json BSuccess
        end
  end.

(** [POST /media/:episodeIndex/reorder] (legacy). *)
Definition legacyReorder (episodeIndexParam : string)
           (mediaIds : option (list string)) : M Response :=
  let episodeIndex := parseInt episodeIndexParam in
  match mediaIds with
  | None => status_json 400 "mediaIds must be an array"
  | Some ids =>
      data <- getData env ;;
      ss <- deref (series data) ;;
      match ss with
      | [] => status_json 400 "No series found"
      | s :: _ =>
          if index_ge_length episodeIndex (List.length (s_episodes s))
          then status_json 400 "Invalid episode index"
          else
            e <- deref (episode_at episodeIndex (s_episodes s)) ;;
            let reorderedMedia := reorderMedia (e_media e) ids in
            saveData (store_episode data ss 0 s episodeIndex
                        (set_media e reorderedMedia)) ;;;
            json (BMedia reorderedMedia)
      end
  end.

End MoreHandlers.

(** *** Vocabulary of the further properties *)

(** No character of the string is a slash. *)
Fixpoint no_slash (s : string) : bool :=
  match s with
  | EmptyString => true
  | String c s' => negb (Ascii.eqb c "/"%char) && no_slash s'
  end.

(** The environment's bucket name and region carry no slash. *)
Definition plain_host (env : Env) : Prop :=
  no_slash (bucketName env) = true
  /\ no_slash (or_str (AWS_REGION env) "ap-south-1") = true.

(** The media items [uploadMedia] builds for [fs] when [n] ids have been
    generated before. *)
Fixpoint mediaFrom (env : Env) (n : nat) (fs : list UploadedFile)
  : list MediaItem :=
  match fs with
  | [] => []
  | f :: fs' =>
      mkMedia (uuid_gen env n) (f_key f) (f_originalname f)
              (if isVideo env (f_originalname f) then "video" else "image")
              (getS3Url env (f_key f))
      :: mediaFrom env (S n) fs'
  end.

(** What the episode routes never change of a series: its id, its count
    and the number of its episodes. *)
Definition series_shape (s : Series) : string * Z * nat :=
  (s_id s, s_episodeCount s, List.length (s_episodes s)).

(** The persisted document holds series of the shapes [shapes]. *)
Definition persisted_shapes (w : World) (shapes : list (string * Z * nat))
  : Prop :=
  exists d ss,
    w_file w = JsonDoc d /\ series d = Some ss
    /\ List.map series_shape ss = shapes.

(** Every id of the media list was generated before the [n]-th call of
    [uuidv4]. *)
Definition generated_before (env : Env) (n : nat) (media : list MediaItem)
  : Prop :=
  forall m, In m media -> exists k, (k < n)%nat /\ m_id m = uuid_gen env k.

(** An uploaded file of the sample documents. *)
Definition sample_file : UploadedFile := mkFile "media/n.png" "n.png".
Definition sample_file2 : UploadedFile := mkFile "media/o.mp4" "o.mp4".

(** A sample of [path.extname] for file names without a directory part:
    the name from its last dot on, and nothing when it has no dot or its
    only dot comes first. *)
Fixpoint last_dot_suffix (s : string) : option string :=
  match s with
  | EmptyString => None
  | String c s' =>
      match last_dot_suffix s' with
      | Some r => Some r
      | None => if Ascii.eqb c "." then Some s else None
      end
  end.

Definition sample_extname (name : string) : string :=
  match name with
  | EmptyString => EmptyString
  | String _ rest =>
      match last_dot_suffix rest with
      | Some ext => ext
      | None => EmptyString
      end
  end.

(** The sample environment with that extension function. *)
Definition photo_env : Env :=
  mkEnv (uuid_gen sample_env) (now sample_env) (s3_delete_ok sample_env)
        (bucketName sample_env) (AWS_REGION sample_env)
        sample_extname (toLowerCase sample_env).

(** A key with the line separator U+2028 (bytes E2 80 A8) in it. *)
Definition ls_key : string :=
  ("media/a" ++ String (ascii_of_nat 226) (String (ascii_of_nat 128)
     (String (ascii_of_nat 168) "b.png")))%string.


(** The sample document after the two files were uploaded to the second
    episode of the series [s2]: that episode holds two media items, with
    the first two ids of the generator. *)
Definition uploaded_episode : Episode :=
  set_media (newEpisode 2) (mediaFrom sample_env 0 [sample_file; sample_file2]).
Definition uploaded_series : Series :=
  set_episodes two_episode_series [newEpisode 1; uploaded_episode].
Definition uploaded_doc : Document :=
  doc_of_series [sample_series; uploaded_series].
Definition uploaded_world : World := mkWorld (JsonDoc uploaded_doc) [] 2.

(* ================================================================== *)
(** * Properties *)

(** ** White space *)

(** [skip_spaces] stops where no white space stands, and only there. *)
Lemma skip_spaces_stops (s : string) : is_space (skip_spaces s) = false.
Proof.
  assert (H : forall n s, (String.length s <= n)%nat ->
                          is_space (skip_spaces s) = false).
  { clear s. induction n as [|n IH]; intros s Hn.
    - destruct s; [reflexivity | simpl in Hn; lia].
    - destruct s as [|c1 s1]; [reflexivity|]. simpl in Hn.
      cbn [skip_spaces]. destruct (is_space1 c1) eqn:E1.
      + apply IH; lia.
      + destruct s1 as [|c2 s2]; [cbn [is_space]; now rewrite E1|].
        simpl in Hn. destruct (is_space2 c1 c2) eqn:E2.
        * apply IH; lia.
        * destruct s2 as [|c3 s3]; [cbn [is_space]; now rewrite E1, E2|].
          simpl in Hn. destruct (is_space3 c1 c2 c3) eqn:E3.
          -- apply IH; lia.
          -- cbn [is_space]. now rewrite E1, E2, E3. }
  apply (H (String.length s)). lia.
Qed.

Lemma skip_spaces_none (s : string) : is_space s = false -> skip_spaces s = s.
Proof.
  destruct s as [|c1 s1]; [reflexivity|]. cbn [is_space skip_spaces].
  destruct (is_space1 c1); [discriminate|].
  destruct s1 as [|c2 s2]; [reflexivity|].
  destruct (is_space2 c1 c2); [discriminate|].
  destruct s2 as [|c3 s3]; [reflexivity|].
  destruct (is_space3 c1 c2 c3); [discriminate | reflexivity].
Qed.

(** ** Loading the document *)

Section Loading.

Variable env : Env.

Lemma getData_current (w : World) (d : Document) (ss : list Series) :
  w_file w = JsonDoc d -> series d = Some ss -> getData env w = (Ok d, w).
Proof.
  intros Hf Hs.
  unfold getData, try_catch, bind, readFileSync.
  rewrite Hf. simpl. rewrite Hs. reflexivity.
Qed.

Lemma getData_legacy (w : World) (d : Document) (title : string) :
  w_file w = JsonDoc d -> series d = None -> showTitle d = Some title ->
  title <> EmptyString ->
  let migrated :=
    doc_of_series [migratedSeries env (uuid_gen env (w_uuids w)) title d] in
  getData env w =
  (Ok migrated, mkWorld (JsonDoc migrated) (w_deleted w) (S (w_uuids w))).
Proof.
  intros Hf Hs Ht Hne.
  unfold getData, try_catch, bind, readFileSync.
  rewrite Hf. simpl. rewrite Hs, Ht.
  destruct (String.eqb_spec title EmptyString) as [E | _]; [contradiction|].
  reflexivity.
Qed.

Lemma getData_total (w : World) :
  exists d w', getData env w = (Ok d, w').
Proof.
  unfold getData, try_catch.
  match goal with |- context [match ?c w with _ => _ end] => destruct (c w) as [[d | e] w'] end.
  - eauto.
  - unfold ret. eauto.
Qed.

End Loading.

(** C7.  [getData] never raises: whatever the file holds it returns a
    document, and when the file is missing or is not JSON that document is
    [{ series: [] }] (and nothing is written). *)
Theorem getData_fails_soft (env : Env) (w : World) :
  (exists d w', getData env w = (Ok d, w'))
  /\ (w_file w = Missing \/ w_file w = Unparsable ->
      getData env w = (Ok (doc_of_series []), w)).
Proof.
  split.
  - apply getData_total.
  - intros [H | H]; unfold getData, try_catch, bind, readFileSync;
      rewrite H; reflexivity.
Qed.

Lemma getData_fails_soft_witness :
  (exists d w', getData sample_env (world_of Missing) = (Ok d, w'))
  /\ getData sample_env (world_of Missing)
     = (Ok (doc_of_series []), world_of Missing)
  /\ getData sample_env (world_of Unparsable)
     = (Ok (doc_of_series []), world_of Unparsable).
Proof.
  destruct (getData_fails_soft sample_env (world_of Missing)) as [H1 H2].
  destruct (getData_fails_soft sample_env (world_of Unparsable)) as [_ H3].
  split; [exact H1|].
  split; [apply H2; left; reflexivity | apply H3; right; reflexivity].
Defined.

(** C8.  The file [{}] parses, is not in the legacy shape, and is returned
    as it is: the document [getData] answers has no [series] attribute, and
    the handlers that read [data.series] then fail with a [TypeError]. *)
Theorem getData_empty_object_has_no_series :
  getData sample_env (world_of (JsonDoc empty_object))
  = (Ok empty_object, world_of (JsonDoc empty_object))
  /\ series empty_object = None
  /\ fst (getSeries sample_env "s1" (world_of (JsonDoc empty_object)))
     = Throw TypeError
  /\ fst (listSeries sample_env (world_of (JsonDoc empty_object)))
     = Ok (mkResponse 200 (BSeriesList None)).
Proof. repeat split; reflexivity. Qed.

(** C6, as the claim states it, fails: a legacy document whose
    [episodeCount] is [0] is migrated to a series whose [episodeCount] is
    [1], not the legacy value; and a legacy document whose [showTitle] is
    the empty string is not migrated at all. *)
Lemma migration_does_not_copy_zero_count :
  (exists s w',
      getData sample_env (world_of (JsonDoc legacy_doc_zero))
      = (Ok (doc_of_series [s]), w')
      /\ episodeCount legacy_doc_zero = Some 0
      /\ s_episodeCount s <> 0)
  /\ getData sample_env (world_of (JsonDoc (mkDoc None (Some EmptyString) (Some 1) None)))
     = (Ok (mkDoc None (Some EmptyString) (Some 1) None),
        world_of (JsonDoc (mkDoc None (Some EmptyString) (Some 1) None))).
Proof.
  split; [|reflexivity].
  eexists; eexists. split; [reflexivity|]. split; [reflexivity|].
  simpl. discriminate.
Qed.

(** C6, amended.  A persisted document with no [series] and a non-empty
    [showTitle] is migrated by [getData] to a document with exactly one
    series: its id is the freshly generated one, its title the legacy
    [showTitle], its description "A personal documentary", its
    [episodeCount] the legacy one, or [1] when that is absent or [0], its
    episodes the legacy ones, or none when absent.  The migrated document is
    written at once, and a second [getData] returns the same document,
    writes nothing and generates no id. *)
Theorem getData_migrates_legacy (env : Env) (w : World) (d : Document)
        (title : string) :
  w_file w = JsonDoc d -> series d = None -> showTitle d = Some title ->
  title <> EmptyString ->
  exists s w',
    getData env w = (Ok (doc_of_series [s]), w')
    /\ s_id s = uuid_gen env (w_uuids w)
    /\ s_title s = title
    /\ s_description s = "A personal documentary"
    /\ s_episodeCount s
       = match episodeCount d with
         | Some n => if n =? 0 then 1 else n
         | None => 1
         end
    /\ s_episodes s
       = match episodes d with Some eps => eps | None => [] end
    /\ w_file w' = JsonDoc (doc_of_series [s])
    /\ getData env w' = (Ok (doc_of_series [s]), w').
Proof.
  intros Hf Hs Ht Hne.
  eexists; eexists.
  split; [apply (getData_legacy env w Hf Hs Ht Hne)|].
  repeat (split; [reflexivity|]).
  eapply getData_current; reflexivity.
Qed.

Lemma getData_migrates_legacy_witness :
  exists s w',
    getData sample_env (world_of (JsonDoc legacy_doc))
    = (Ok (doc_of_series [s]), w')
    /\ s_title s = "X"
    /\ s_episodeCount s = 2
    /\ s_episodes s = [newEpisode 1; newEpisode 2]
    /\ getData sample_env w' = (Ok (doc_of_series [s]), w').
Proof.
  destruct (@getData_migrates_legacy sample_env (world_of (JsonDoc legacy_doc))
              legacy_doc "X" eq_refl eq_refl eq_refl)
    as (s & w' & H1 & _ & H3 & _ & H5 & H6 & _ & H8).
  - discriminate.
  - exists s, w'. repeat split; assumption.
Defined.

(** ** Episode-count reconciliation *)

Lemma freshEpisodes_length (from : Z) (k : nat) :
  List.length (freshEpisodes from k) = k.
Proof.
  revert from; induction k as [|k IH]; intros from; simpl; [reflexivity|].
  now rewrite IH.
Qed.

Lemma freshEpisodes_nth (k : nat) :
  forall (from : Z) (j : nat),
    (j < k)%nat ->
    nth_error (freshEpisodes from k) j = Some (newEpisode (from + Z.of_nat j + 1)).
Proof.
  induction k as [|k IH]; intros from j Hj; [lia|].
  destruct j as [|j]; simpl.
  - f_equal. f_equal. lia.
  - rewrite IH by lia. f_equal. f_equal. lia.
Qed.

Lemma pad_loop_spec (fuel : nat) :
  forall (eps : list Episode) (count : Z),
    (Z.to_nat (count - Z.of_nat (List.length eps)) <= fuel)%nat ->
    pad_loop fuel eps count
    = eps ++ freshEpisodes (Z.of_nat (List.length eps))
                           (Z.to_nat (count - Z.of_nat (List.length eps))).
Proof.
  induction fuel as [|fuel IH]; intros eps count Hfuel; simpl.
  - replace (Z.to_nat (count - Z.of_nat (List.length eps))) with O by lia.
    simpl. now rewrite app_nil_r.
  - destruct (Z.ltb_spec (Z.of_nat (List.length eps)) count) as [Hlt | Hge].
    + rewrite IH; rewrite length_app; simpl.
      * replace (Z.to_nat (count - Z.of_nat (List.length eps)))
          with (S (Z.to_nat (count - Z.of_nat (List.length eps + 1)))) by lia.
        simpl. rewrite <- app_assoc. simpl.
        replace (Z.of_nat (List.length eps + 1))
          with (Z.of_nat (List.length eps) + 1) by lia.
        reflexivity.
      * lia.
    + replace (Z.to_nat (count - Z.of_nat (List.length eps))) with O by lia.
      simpl. now rewrite app_nil_r.
Qed.

Lemma padEpisodes_spec (eps : list Episode) (count : Z) :
  padEpisodes eps count
  = eps ++ freshEpisodes (Z.of_nat (List.length eps))
                         (Z.to_nat (count - Z.of_nat (List.length eps))).
Proof. unfold padEpisodes. apply pad_loop_spec. lia. Qed.

(** The [while] loop is left because its test fails, not for lack of fuel. *)
Lemma padEpisodes_exit (eps : list Episode) (count : Z) :
  (Z.of_nat (List.length (padEpisodes eps count)) <? count) = false.
Proof.
  rewrite padEpisodes_spec, length_app, freshEpisodes_length.
  apply Z.ltb_ge. lia.
Qed.

Lemma padEpisodes_length (eps : list Episode) (count : Z) :
  Z.of_nat (List.length (padEpisodes eps count))
  = Z.max (Z.of_nat (List.length eps)) count.
Proof.
  rewrite padEpisodes_spec, length_app, freshEpisodes_length. lia.
Qed.

Lemma init_loop_spec (fuel : nat) :
  forall (i : Z) (eps : list Episode) (count : Z),
    (Z.to_nat (count - i) <= fuel)%nat ->
    init_loop fuel i eps count = eps ++ freshEpisodes i (Z.to_nat (count - i)).
Proof.
  induction fuel as [|fuel IH]; intros i eps count Hfuel; simpl.
  - replace (Z.to_nat (count - i)) with O by lia. simpl. now rewrite app_nil_r.
  - destruct (Z.ltb_spec i count) as [Hlt | Hge].
    + rewrite IH by lia.
      replace (Z.to_nat (count - i)) with (S (Z.to_nat (count - (i + 1)))) by lia.
      simpl. now rewrite <- app_assoc.
    + replace (Z.to_nat (count - i)) with O by lia. simpl. now rewrite app_nil_r.
Qed.

Lemma initEpisodes_spec (count : Z) :
  initEpisodes count = freshEpisodes 0 (Z.to_nat count).
Proof.
  unfold initEpisodes. rewrite init_loop_spec by lia.
  simpl. now rewrite Z.sub_0_r.
Qed.

Lemma initEpisodes_length (count : Z) :
  0 <= count -> Z.of_nat (List.length (initEpisodes count)) = count.
Proof.
  intros H. rewrite initEpisodes_spec, freshEpisodes_length. lia.
Qed.

Lemma slice0_nonneg {A} (l : list A) (n : Z) :
  0 <= n -> slice0 l n = firstn (Z.to_nat n) l.
Proof.
  intros Hn. unfold slice0.
  destruct (Z.ltb_spec n 0) as [H | _]; [lia|].
  destruct (Z.le_ge_cases n (Z.of_nat (List.length l))) as [Hle | Hge].
  - now rewrite Z.min_l by exact Hle.
  - rewrite Z.min_r by exact Hge. rewrite Nat2Z.id.
    rewrite firstn_all. symmetry. apply firstn_all2. lia.
Qed.

Lemma reconcile_length (eps : list Episode) (n : Z) :
  0 <= n -> Z.of_nat (List.length (slice0 (padEpisodes eps n) n)) = n.
Proof.
  intros Hn. rewrite slice0_nonneg by exact Hn.
  rewrite length_firstn.
  pose proof (padEpisodes_length eps n). lia.
Qed.

Lemma reconcile_spec (eps : list Episode) (n : Z) :
  0 <= n ->
  slice0 (padEpisodes eps n) n
  = firstn (Z.to_nat n)
      (eps ++ freshEpisodes (Z.of_nat (List.length eps))
                            (Z.to_nat (n - Z.of_nat (List.length eps)))).
Proof.
  intros Hn. rewrite slice0_nonneg by exact Hn. now rewrite padEpisodes_spec.
Qed.

Lemma reconcile_keeps_prefix (eps : list Episode) (n : Z) :
  0 <= n ->
  firstn (Nat.min (Z.to_nat n) (List.length eps)) (slice0 (padEpisodes eps n) n)
  = firstn (Nat.min (Z.to_nat n) (List.length eps)) eps.
Proof.
  intros Hn. rewrite reconcile_spec by exact Hn.
  rewrite firstn_firstn.
  replace (Nat.min (Nat.min (Z.to_nat n) (List.length eps)) (Z.to_nat n))
    with (Nat.min (Z.to_nat n) (List.length eps)) by lia.
  rewrite firstn_app.
  replace (Nat.min (Z.to_nat n) (List.length eps) - List.length eps)%nat
    with O by lia.
  simpl. now rewrite app_nil_r.
Qed.

Lemma reconcile_new_episodes (eps : list Episode) (n k : Z) :
  0 <= n -> Z.of_nat (List.length eps) < k <= n ->
  nth_error (slice0 (padEpisodes eps n) n) (Z.to_nat (k - 1))
  = Some (newEpisode k).
Proof.
  intros Hn Hk. rewrite reconcile_spec by exact Hn.
  rewrite nth_error_firstn.
  destruct (Nat.ltb_spec (Z.to_nat (k - 1)) (Z.to_nat n)) as [_ | H]; [|lia].
  rewrite nth_error_app2 by lia.
  rewrite freshEpisodes_nth by lia.
  f_equal. f_equal. lia.
Qed.

(** ** Series routes on a document in the current shape *)

Lemma findIndex_Some {A} (p : A -> bool) (l : list A) :
  forall i, findIndex p l = Some i ->
            exists x, nth_error l i = Some x /\ p x = true
                      /\ forall j y, (j < i)%nat -> nth_error l j = Some y ->
                                     p y = false.
Proof.
  induction l as [|a l IH]; intros i H; simpl in H; [discriminate|].
  destruct (p a) eqn:Hp.
  - injection H as <-. exists a. repeat split; auto. intros j y Hj; lia.
  - destruct (findIndex p l) as [k|] eqn:Hk; [|discriminate].
    injection H as <-. destruct (IH k eq_refl) as (x & Hx & Hpx & Hlt).
    exists x. repeat split; auto.
    intros [|j] y Hj Hy; simpl in Hy.
    + now injection Hy as <-.
    + apply (Hlt j); [lia | exact Hy].
Qed.

Lemma findIndex_find {A} (p : A -> bool) (l : list A) :
  forall i x, findIndex p l = Some i -> nth_error l i = Some x ->
              List.find p l = Some x.
Proof.
  induction l as [|a l IH]; intros i x Hi Hx; simpl in *; [discriminate|].
  destruct (p a).
  - injection Hi as <-. exact Hx.
  - destruct (findIndex p l) as [k|]; [|discriminate].
    injection Hi as <-. now apply (IH k).
Qed.

Lemma findIndex_None {A} (p : A -> bool) (l : list A) :
  findIndex p l = None -> forall x, In x l -> p x = false.
Proof.
  induction l as [|a l IH]; intros H x Hx; simpl in *; [contradiction|].
  destruct (p a) eqn:Hp; [discriminate|].
  destruct (findIndex p l); [discriminate|].
  destruct Hx as [<- | Hx]; auto.
Qed.

Lemma findIndex_In {A} (p : A -> bool) (l : list A) (x : A) :
  In x l -> p x = true -> exists i, findIndex p l = Some i.
Proof.
  intros Hx Hp. destruct (findIndex p l) as [i|] eqn:E; [eauto|].
  rewrite (findIndex_None p l E x Hx) in Hp. discriminate.
Qed.

Lemma Forall_set_nth {A} (P : A -> Prop) (x : A) (l : list A) :
  forall i, Forall P l -> P x -> Forall P (set_nth i x l).
Proof.
  induction l as [|a l IH]; intros i Hl Hx; simpl; [constructor|].
  inversion Hl; subst.
  destruct i; constructor; auto.
Qed.

Section CurrentShape.

Variable env : Env.
Variables (w : World) (d : Document) (ss : list Series).
Hypothesis Hfile : w_file w = JsonDoc d.
Hypothesis Hseries : series d = Some ss.

Lemma createSeries_current (title description : option string)
      (count : option Z) :
  let s := mkSeries (uuid_gen env (w_uuids w)) (or_str title "Untitled Series")
                    (or_str description EmptyString) None (now env) (or_Z count 1)
                    (initEpisodes (or_Z count 1)) in
  createSeries env title description count w
  = (Ok (mkResponse 200 (BSeries s)),
     mkWorld (JsonDoc (set_series d (ss ++ [s]))) (w_deleted w) (S (w_uuids w))).
Proof.
  unfold createSeries, try_catch, bind.
  rewrite (getData_current env w Hfile Hseries). simpl.
  rewrite Hseries. reflexivity.
Qed.

Lemma updateSeries_current (seriesId : string) (b : UpdateBody) (i : nat)
      (s : Series) :
  findIndex (has_id seriesId) ss = Some i -> nth_error ss i = Some s ->
  updateSeries env seriesId b w
  = (Ok (mkResponse 200 (BSeriesUpdated (applyUpdate s b))),
     written w (set_series d (set_nth i (applyUpdate s b) ss))).
Proof.
  intros Hi Hs. unfold updateSeries, try_catch, bind.
  rewrite (getData_current env w Hfile Hseries). simpl.
  rewrite Hseries. simpl. rewrite Hi, Hs. reflexivity.
Qed.

Lemma updateSeries_not_found (seriesId : string) (b : UpdateBody) :
  findIndex (has_id seriesId) ss = None ->
  updateSeries env seriesId b w
  = (Ok (mkResponse 404 (BError "Series not found")), w).
Proof.
  intros Hi. unfold updateSeries, try_catch, bind.
  rewrite (getData_current env w Hfile Hseries). simpl.
  rewrite Hseries. simpl. rewrite Hi. reflexivity.
Qed.

Lemma saveShow_current (b : ShowBody) :
  let ss' :=
    match ss with
    | [] =>
        [mkSeries (uuid_gen env (w_uuids w))
                  (or_str (sh_showTitle b) "The Story of My Life") EmptyString None
                  (now env) (or_Z (sh_episodeCount b) 1)
                  (padEpisodes (or_list (sh_episodes b) [])
                               (or_Z (sh_episodeCount b) 1))]
    | s :: rest =>
        mkSeries (s_id s) (or_str (sh_showTitle b) (s_title s))
                 (s_description s) (s_thumbnail s) (s_createdAt s)
                 (or_Z (sh_episodeCount b) (s_episodeCount s))
                 (slice0 (padEpisodes (or_list (sh_episodes b) (s_episodes s))
                                      (or_Z (sh_episodeCount b) (s_episodeCount s)))
                         (or_Z (sh_episodeCount b) (s_episodeCount s)))
        :: rest
    end in
  w_file (snd (saveShow env b w)) = JsonDoc (set_series d ss').
Proof.
  unfold saveShow, try_catch, bind.
  rewrite (getData_current env w Hfile Hseries). simpl.
  rewrite Hseries. simpl.
  destruct ss as [|s rest]; reflexivity.
Qed.

End CurrentShape.

Lemma applyUpdate_consistent (s : Series) (b : UpdateBody) :
  consistent s -> update_reconciled s b -> consistent (applyUpdate s b).
Proof.
  unfold consistent, update_reconciled, applyUpdate. intros Hs Hb.
  destruct (u_episodeCount b) as [n|].
  - destruct (n =? s_episodeCount s); simpl.
    + now rewrite Hb.
    + now apply reconcile_length.
  - simpl. now rewrite Hb.
Qed.

(** ** [POST /series] *)

(** C10.  A requested [episodeCount] of [0] is treated as an omitted one, on
    every state of the file; whenever the series is created it has
    [episodeCount] [1] and the single episode [Episode 1]; and on a document
    in the current shape it is created and appended. *)
Theorem createSeries_zero_count (env : Env) (title description : option string)
        (w : World) :
  createSeries env title description (Some 0) w
  = createSeries env title description None w
  /\ (forall s w',
         createSeries env title description (Some 0) w
         = (Ok (mkResponse 200 (BSeries s)), w') ->
         s_episodeCount s = 1
         /\ s_episodes s = [mkEpisode "Episode 1" None None None []])
  /\ (forall d ss,
         w_file w = JsonDoc d -> series d = Some ss ->
         exists s w',
           createSeries env title description (Some 0) w
           = (Ok (mkResponse 200 (BSeries s)), w')
           /\ w_file w' = JsonDoc (set_series d (ss ++ [s]))).
Proof.
  split; [reflexivity|]. split.
  - intros s w' H.
    unfold createSeries, try_catch, bind in H.
    destruct (getData env w) as [[d | e] w1]; simpl in H.
    + destruct (series d) as [ss|]; simpl in H.
      * injection H as <- _. split; reflexivity.
      * discriminate.
    + discriminate.
  - intros d ss Hf Hs. eexists; eexists.
    split; [apply (createSeries_current env w Hf Hs)|reflexivity].
Qed.

Lemma createSeries_zero_count_witness :
  exists s w',
    createSeries sample_env (Some "Trip") None (Some 0)
                 (world_of (JsonDoc sample_doc))
    = (Ok (mkResponse 200 (BSeries s)), w')
    /\ s_episodeCount s = 1
    /\ List.map e_title (s_episodes s) = ["Episode 1"].
Proof.
  destruct (createSeries_zero_count sample_env (Some "Trip") None
              (world_of (JsonDoc sample_doc))) as (_ & H2 & H3).
  destruct (H3 sample_doc _ eq_refl eq_refl) as (s & w' & Hrun & _).
  destruct (H2 s w' Hrun) as [Hc He].
  exists s, w'. split; [exact Hrun|]. split; [exact Hc|].
  rewrite He. reflexivity.
Defined.

(** ** [PUT /series/:seriesId] *)

(** C3, as the claim states it, fails.  A series migrated from a legacy
    document that has [episodeCount] [2] and no episodes keeps no episodes
    when it is updated with [{episodeCount: 2}]; and when an update carries
    the current count together with a shorter [episodes] array, the array
    is stored as it is, without padding. *)
Lemma updateSeries_same_count_does_not_reconcile :
  (exists s w',
      updateSeries sample_env "uuid-0" (mkUpdate None None (Some 2) None)
                   (world_of (JsonDoc legacy_doc_short))
      = (Ok (mkResponse 200 (BSeriesUpdated s)), w')
      /\ List.length (s_episodes s) <> 2%nat)
  /\ (exists s w',
         updateSeries sample_env "s2"
                      (mkUpdate None None (Some 2) (Some [newEpisode 1]))
                      (world_of (JsonDoc sample_doc))
         = (Ok (mkResponse 200 (BSeriesUpdated s)), w')
         /\ List.length (s_episodes s) <> 2%nat).
Proof.
  split; eexists; eexists; (split; [reflexivity | simpl; lia]).
Qed.

(** C3, amended.  Let [S] be the series with the given id and let the
    update supply a non-negative [episodeCount] [n]; write [E] for the
    supplied [episodes] array, or the episodes of [S] when none is
    supplied.  The update succeeds and is written.  When [n] differs from
    the current [episodeCount] of [S], the series gets [episodeCount] [n]
    and exactly [n] episodes: the first [min(n, length E)] episodes of [E]
    unchanged, followed for every [k] from [length E + 1] to [n] by a new
    empty episode titled [Episode k].  When [n] equals the current
    [episodeCount], nothing is reconciled: the episodes are [E] as it is. *)
Theorem updateSeries_episodeCount (env : Env) (w : World) (d : Document)
        (ss : list Series) (seriesId : string) (i : nat) (s : Series)
        (b : UpdateBody) (n : Z) :
  w_file w = JsonDoc d -> series d = Some ss ->
  findIndex (has_id seriesId) ss = Some i -> nth_error ss i = Some s ->
  u_episodeCount b = Some n -> 0 <= n ->
  let E := or_list (u_episodes b) (s_episodes s) in
  exists s',
    updateSeries env seriesId b w
    = (Ok (mkResponse 200 (BSeriesUpdated s')),
       written w (set_series d (set_nth i s' ss)))
    /\ s_episodeCount s' = n
    /\ (n <> s_episodeCount s ->
        Z.of_nat (List.length (s_episodes s')) = n
        /\ firstn (Nat.min (Z.to_nat n) (List.length E)) (s_episodes s')
           = firstn (Nat.min (Z.to_nat n) (List.length E)) E
        /\ forall k, Z.of_nat (List.length E) < k <= n ->
                     nth_error (s_episodes s') (Z.to_nat (k - 1))
                     = Some (mkEpisode ("Episode " ++ string_of_Z k)%string
                                       None None None []))
    /\ (n = s_episodeCount s -> s_episodes s' = E).
Proof.
  intros Hf Hs Hi Hnth Hn Hpos E.
  exists (applyUpdate s b).
  split; [apply (updateSeries_current env w Hf Hs seriesId b Hi Hnth)|].
  unfold applyUpdate. rewrite Hn. fold E.
  replace (match u_episodes b with Some e => e | None => s_episodes s end)
    with E by reflexivity.
  destruct (Z.eqb_spec n (s_episodeCount s)) as [Heq | Hne]; simpl.
  - split; [now symmetry|]. split; [intros H; contradiction|]. reflexivity.
  - split; [reflexivity|]. split; [|intros H; contradiction].
    intros _. split; [now apply reconcile_length|].
    split; [now apply reconcile_keeps_prefix|].
    intros k Hk. now apply reconcile_new_episodes.
Qed.

Lemma updateSeries_episodeCount_witness :
  exists s',
    updateSeries sample_env "s2"
                 (mkUpdate None None (Some 4) (Some [sample_episode]))
                 (world_of (JsonDoc sample_doc))
    = (Ok (mkResponse 200 (BSeriesUpdated s')),
       written (world_of (JsonDoc sample_doc))
               (set_series sample_doc (set_nth 1 s' [sample_series; two_episode_series])))
    /\ s_episodeCount s' = 4
    /\ Z.of_nat (List.length (s_episodes s')) = 4
    /\ nth_error (s_episodes s') 0 = Some sample_episode
    /\ nth_error (s_episodes s') 1 = Some (newEpisode 2).
Proof.
  destruct (@updateSeries_episodeCount sample_env (world_of (JsonDoc sample_doc))
              sample_doc [sample_series; two_episode_series] "s2" 1%nat
              two_episode_series
              (mkUpdate None None (Some 4) (Some [sample_episode])) 4
              eq_refl eq_refl eq_refl eq_refl eq_refl)
    as (s' & Hrun & Hc & Hdiff & _).
  - lia.
  - destruct Hdiff as (Hlen & Hpre & Hnew); [simpl; lia|].
    exists s'. split; [exact Hrun|]. split; [exact Hc|]. split; [exact Hlen|].
    split.
    + simpl in Hpre.
      destruct (s_episodes s') as [|e0 rest]; [discriminate Hlen|].
      simpl in Hpre. injection Hpre as ->. reflexivity.
    + apply (Hnew 2). simpl. lia.
Defined.

(** ** The invariant [episodes.length == episodeCount] *)

Lemma persisted_consistent_inv (w : World) (d : Document) (ss : list Series) :
  w_file w = JsonDoc d -> series d = Some ss ->
  persisted_consistent w -> Forall consistent ss.
Proof.
  intros Hf Hs (d' & ss' & Hf' & Hs' & Hall).
  rewrite Hf in Hf'. injection Hf' as <-.
  rewrite Hs in Hs'. injection Hs' as <-. exact Hall.
Qed.

(** C2, as the claim states it, fails.  From a document whose series all
    satisfy the invariant, an update that supplies only an empty [episodes]
    array leaves the series [s2] with [episodeCount] [2] and no episodes;
    and the migration of a legacy document with [episodeCount] [2] and no
    [episodes] persists a series with [episodeCount] [2] and no episodes. *)
Lemma episodes_only_update_breaks_episode_count :
  persisted_consistent (world_of (JsonDoc sample_doc))
  /\ ~ persisted_consistent
       (snd (updateSeries sample_env "s2" (mkUpdate None None None (Some []))
                          (world_of (JsonDoc sample_doc))))
  /\ ~ persisted_consistent
       (snd (getData sample_env (world_of (JsonDoc legacy_doc_short)))).
Proof.
  split; [|split].
  - exists sample_doc, [sample_series; two_episode_series].
    repeat split. repeat constructor.
  - intros (d & ss & Hf & Hs & Hall).
    cbv in Hf. injection Hf as <-. cbv in Hs. injection Hs as <-.
    inversion Hall as [|? ? _ H2]; subst.
    inversion H2 as [|? ? H3 _]; subst.
    discriminate H3.
  - intros (d & ss & Hf & Hs & Hall).
    cbv in Hf. injection Hf as <-. cbv in Hs. injection Hs as <-.
    inversion Hall as [|? ? H1 _]; subst.
    discriminate H1.
Qed.

(** C2, amended.  On a persisted document in the current shape whose series
    all have as many episodes as their [episodeCount], the same holds of
    the document persisted
    - by [createSeries] when the requested count is omitted, [0] or
      positive;
    - by [updateSeries] when it supplies a non-negative [episodeCount] that
      differs from the current one (with or without an [episodes] array), or
      supplies no [episodes] array and no different [episodeCount];
    - by the legacy save on an existing first series when the resulting
      count is non-negative, and on an empty document when the supplied
      episodes do not outnumber the count.
    The migration of a legacy document persists a series with as many
    episodes as its [episodeCount] when the legacy [episodes] array has
    exactly the length of the migrated count. *)
Theorem committed_mutations_keep_episode_count (env : Env) :
  (forall w d ss,
      w_file w = JsonDoc d -> series d = Some ss -> Forall consistent ss ->
      (forall title description count,
          0 <= or_Z count 1 ->
          persisted_consistent
            (snd (createSeries env title description count w)))
      /\ (forall seriesId b,
             (forall s, List.find (has_id seriesId) ss = Some s ->
                        update_reconciled s b) ->
             persisted_consistent (snd (updateSeries env seriesId b w)))
      /\ (forall b,
             show_reconciled ss b ->
             persisted_consistent (snd (saveShow env b w))))
  /\ (forall w d title,
         w_file w = JsonDoc d -> series d = None ->
         showTitle d = Some title -> title <> EmptyString ->
         Z.of_nat (List.length (or_list (episodes d) []))
         = or_Z (episodeCount d) 1 ->
         persisted_consistent (snd (getData env w))).
Proof.
  split.
  - intros w d ss Hf Hs Hall. split; [|split].
    + intros title description count Hc.
      rewrite (createSeries_current env w Hf Hs). simpl.
      eexists; eexists. split; [reflexivity|]. split; [reflexivity|].
      apply Forall_app. split; [exact Hall|].
      constructor; [|constructor].
      unfold consistent; simpl. now apply initEpisodes_length.
    + intros seriesId b Hb.
      destruct (findIndex (has_id seriesId) ss) as [i|] eqn:Hi.
      * destruct (findIndex_Some _ _ Hi) as (s & Hnth & Hp & Hfirst).
        rewrite (updateSeries_current env w Hf Hs seriesId b Hi Hnth). simpl.
        eexists; eexists. split; [reflexivity|]. split; [reflexivity|].
        apply Forall_set_nth; [exact Hall|].
        apply applyUpdate_consistent.
        -- rewrite Forall_forall in Hall. apply Hall.
           eapply nth_error_In; exact Hnth.
        -- apply Hb. exact (findIndex_find _ _ Hi Hnth).
      * rewrite (updateSeries_not_found env w Hf Hs seriesId b Hi). simpl.
        exists d, ss. auto.
    + intros b Hb.
      pose proof (saveShow_current env w Hf Hs b) as Hw. simpl in Hw.
      eexists; eexists. split; [exact Hw|]. split; [reflexivity|].
      destruct ss as [|s rest]; simpl in Hb.
      * constructor; [|constructor]. unfold consistent; simpl.
        rewrite padEpisodes_length. lia.
      * inversion Hall; subst. constructor; [|assumption].
        unfold consistent; simpl. now apply reconcile_length.
  - intros w d title Hf Hs Ht Hne Hlen.
    rewrite (getData_legacy env w Hf Hs Ht Hne). simpl.
    eexists; eexists. split; [reflexivity|]. split; [reflexivity|].
    constructor; [|constructor]. exact Hlen.
Qed.

Lemma committed_mutations_keep_episode_count_witness :
  persisted_consistent
    (snd (createSeries sample_env (Some "Trip") None (Some 2)
                       (world_of (JsonDoc sample_doc))))
  /\ persisted_consistent
       (snd (updateSeries sample_env "s2" (mkUpdate None None (Some 3) (Some []))
                          (world_of (JsonDoc sample_doc))))
  /\ persisted_consistent
       (snd (saveShow sample_env (mkShow None (Some 3) None)
                      (world_of (JsonDoc sample_doc))))
  /\ persisted_consistent
       (snd (getData sample_env (world_of (JsonDoc legacy_doc)))).
Proof.
  destruct (committed_mutations_keep_episode_count sample_env) as [Hcur Hmig].
  assert (Hall : Forall consistent [sample_series; two_episode_series])
    by (repeat constructor).
  destruct (Hcur (world_of (JsonDoc sample_doc)) sample_doc _ eq_refl eq_refl Hall)
    as (Hcreate & Hupdate & Hshow).
  split; [apply Hcreate; simpl; lia|].
  split.
  - apply Hupdate. intros s Hs. simpl in Hs. injection Hs as <-.
    unfold update_reconciled; simpl. lia.
  - split; [apply Hshow; simpl; lia|].
    apply (Hmig (world_of (JsonDoc legacy_doc)) legacy_doc "X");
      try reflexivity. discriminate.
Defined.

(** ** [DELETE /series/:seriesId] *)

Lemma logged_nil (w : World) : logged w [] = w.
Proof. destruct w; unfold logged; simpl. now rewrite app_nil_r. Qed.

Lemma logged_app (w : World) (ks ks' : list string) :
  logged (logged w ks) ks' = logged w (ks ++ ks').
Proof. unfold logged; simpl. now rewrite app_assoc. Qed.

Lemma match_amazonaws_eq (url : string) :
  match_amazonaws url
  = match
      match strip_prefix ".amazonaws.com/" url with
      | Some rest => if dot_plus_to_end rest then Some rest else None
      | None => None
      end
    with
    | Some k => Some k
    | None =>
        match url with
        | EmptyString => None
        | String _ url' => match_amazonaws url'
        end
    end.
Proof. destruct url; reflexivity. Qed.

Lemma match_amazonaws_truthy (url key : string) :
  match_amazonaws url = Some key -> truthy_str (Some key) = true.
Proof.
  induction url as [|c url IH]; rewrite match_amazonaws_eq.
  - simpl. discriminate.
  - destruct (strip_prefix ".amazonaws.com/" (String c url)) as [rest|].
    + destruct (dot_plus_to_end rest) eqn:Hd.
      * intros H; injection H as <-.
        destruct rest; [discriminate Hd | reflexivity].
      * exact IH.
    + exact IH.
Qed.

Lemma getKeyFromUrl_truthy (ref : option string) (key : string) :
  getKeyFromUrl ref = Some key -> truthy_str (Some key) = true.
Proof.
  destruct ref as [u|]; simpl; [|discriminate].
  destruct (String.eqb u EmptyString); [discriminate|].
  destruct (includes u ".s3." && includes u ".amazonaws.com/").
  - apply match_amazonaws_truthy.
  - destruct (startsWith u "/uploads/"); discriminate.
Qed.

Section Deleting.

Variable env : Env.

Lemma deleteRef_run (ref : option string) (w : World) :
  deleteRef env ref w = (Ok tt, logged w (ref_list (getKeyFromUrl ref))).
Proof.
  unfold deleteRef.
  destruct (getKeyFromUrl ref) as [k|] eqn:E.
  - rewrite (getKeyFromUrl_truthy ref E). reflexivity.
  - simpl. now rewrite logged_nil.
Qed.

Lemma when_deleteRef_run (ref : option string) (w : World) :
  when (truthy_str ref) (deleteRef env ref) w = (Ok tt, logged w (refKeys ref)).
Proof.
  unfold when, refKeys. destruct (truthy_str ref).
  - apply deleteRef_run.
  - unfold ret. now rewrite logged_nil.
Qed.

Lemma media_refs_run (ms : list MediaItem) :
  forall w,
    for_of ms (fun m => deleteRef env (Some (m_url m))) w
    = (Ok tt, logged w (flat_map (fun m => refKeys (Some (m_url m))) ms)).
Proof.
  induction ms as [|m ms IH]; intros w; simpl.
  - unfold ret. now rewrite logged_nil.
  - unfold bind. rewrite deleteRef_run, IH, logged_app.
    do 3 f_equal. unfold refKeys, getKeyFromUrl, truthy_str.
    destruct (String.eqb (m_url m) EmptyString); reflexivity.
Qed.

Lemma deleteEpisodeAssets_run (e : Episode) (w : World) :
  deleteEpisodeAssets env e w = (Ok tt, logged w (episodeKeys e)).
Proof.
  unfold deleteEpisodeAssets, bind.
  rewrite !when_deleteRef_run, media_refs_run, !logged_app.
  reflexivity.
Qed.

Lemma episodes_assets_run (eps : list Episode) :
  forall w,
    for_of eps (deleteEpisodeAssets env) w
    = (Ok tt, logged w (flat_map episodeKeys eps)).
Proof.
  induction eps as [|e eps IH]; intros w; simpl.
  - unfold ret. now rewrite logged_nil.
  - unfold bind. rewrite deleteEpisodeAssets_run, IH, logged_app. reflexivity.
Qed.

Lemma deleteSeries_current (w : World) (d : Document) (ss : list Series)
      (seriesId : string) (i : nat) (s : Series) :
  w_file w = JsonDoc d -> series d = Some ss ->
  findIndex (has_id seriesId) ss = Some i -> nth_error ss i = Some s ->
  deleteSeries env seriesId w
  = (Ok (mkResponse 200 BSuccess),
     mkWorld (JsonDoc (set_series d (splice1 i ss)))
             (w_deleted w ++ seriesKeys s) (w_uuids w)).
Proof.
  intros Hf Hs Hi Hnth. unfold deleteSeries, try_catch, bind.
  rewrite (getData_current env w Hf Hs). simpl.
  rewrite Hs. simpl. rewrite Hi, Hnth. simpl.
  rewrite when_deleteRef_run, episodes_assets_run, logged_app.
  reflexivity.
Qed.

Lemma deleteSeries_disk_current (w : World) (d : Document) (ss : list Series)
      (seriesId : string) (i : nat) :
  w_file w = JsonDoc d -> series d = Some ss ->
  findIndex (has_id seriesId) ss = Some i ->
  deleteSeries_disk env seriesId w
  = (Ok (mkResponse 200 BSuccess),
     mkWorld (JsonDoc (set_series d (splice1 i ss))) (w_deleted w) (w_uuids w)).
Proof.
  intros Hf Hs Hi. unfold deleteSeries_disk, try_catch, bind.
  rewrite (getData_current env w Hf Hs). simpl.
  rewrite Hs. simpl. rewrite Hi. reflexivity.
Qed.

End Deleting.

Lemma t_logged_nil (t : Traced) : t_logged t [] = t.
Proof.
  destruct t as [[f dl u] ev]; unfold t_logged, deletions; simpl.
  now rewrite !app_nil_r.
Qed.

Lemma t_logged_app (t : Traced) (ks ks' : list string) :
  t_logged (t_logged t ks) ks' = t_logged t (ks ++ ks').
Proof.
  unfold t_logged, deletions; simpl. now rewrite map_app, !app_assoc.
Qed.

Section JournalledDeleting.

Variable env : Env.

Lemma getData_traced_current (t : Traced) (d : Document) (ss : list Series) :
  w_file (t_world t) = JsonDoc d -> series d = Some ss ->
  getData_traced env t = (Ok d, t).
Proof.
  intros Hf Hs.
  unfold getData_traced, t_try_catch, t_bind, lift, readFileSync.
  rewrite Hf. simpl. rewrite Hs. destruct t; reflexivity.
Qed.

Lemma deleteRef_traced_run (ref : option string) (t : Traced) :
  deleteRef_traced env ref t = (Ok tt, t_logged t (ref_list (getKeyFromUrl ref))).
Proof.
  unfold deleteRef_traced.
  destruct (getKeyFromUrl ref) as [k|] eqn:E.
  - rewrite (getKeyFromUrl_truthy ref E). reflexivity.
  - simpl. now rewrite t_logged_nil.
Qed.

Lemma when_deleteRef_traced_run (ref : option string) (t : Traced) :
  t_when (truthy_str ref) (deleteRef_traced env ref) t
  = (Ok tt, t_logged t (refKeys ref)).
Proof.
  unfold t_when, refKeys. destruct (truthy_str ref).
  - apply deleteRef_traced_run.
  - unfold t_ret. now rewrite t_logged_nil.
Qed.

Lemma media_refs_traced_run (ms : list MediaItem) :
  forall t,
    t_for_of ms (fun m => deleteRef_traced env (Some (m_url m))) t
    = (Ok tt, t_logged t (flat_map (fun m => refKeys (Some (m_url m))) ms)).
Proof.
  induction ms as [|m ms IH]; intros t; simpl.
  - unfold t_ret. now rewrite t_logged_nil.
  - unfold t_bind. rewrite deleteRef_traced_run, IH, t_logged_app.
    do 3 f_equal. unfold refKeys, getKeyFromUrl, truthy_str.
    destruct (String.eqb (m_url m) EmptyString); reflexivity.
Qed.

Lemma deleteEpisodeAssets_traced_run (e : Episode) (t : Traced) :
  deleteEpisodeAssets_traced env e t = (Ok tt, t_logged t (episodeKeys e)).
Proof.
  unfold deleteEpisodeAssets_traced, t_bind.
  rewrite !when_deleteRef_traced_run, media_refs_traced_run, !t_logged_app.
  reflexivity.
Qed.

Lemma episodes_assets_traced_run (eps : list Episode) :
  forall t,
    t_for_of eps (deleteEpisodeAssets_traced env) t
    = (Ok tt, t_logged t (flat_map episodeKeys eps)).
Proof.
  induction eps as [|e eps IH]; intros t; simpl.
  - unfold t_ret. now rewrite t_logged_nil.
  - unfold t_bind.
    rewrite deleteEpisodeAssets_traced_run, IH, t_logged_app. reflexivity.
Qed.

Lemma deleteSeries_traced_current (w : World) (tr : list Event) (d : Document)
      (ss : list Series) (seriesId : string) (i : nat) (s : Series) :
  w_file w = JsonDoc d -> series d = Some ss ->
  findIndex (has_id seriesId) ss = Some i -> nth_error ss i = Some s ->
  deleteSeries_traced env seriesId (mkTraced w tr)
  = (Ok (mkResponse 200 BSuccess),
     mkTraced (mkWorld (JsonDoc (set_series d (splice1 i ss)))
                       (w_deleted w ++ seriesKeys s) (w_uuids w))
              (tr ++ deletions (seriesKeys s)
                  ++ [Saved (set_series d (splice1 i ss))])).
Proof.
  intros Hf Hs Hi Hnth. unfold deleteSeries_traced, t_try_catch, t_bind.
  rewrite (@getData_traced_current (mkTraced w tr) d ss Hf Hs). simpl.
  rewrite Hs. simpl. rewrite Hi. simpl. rewrite Hnth. simpl.
  rewrite when_deleteRef_traced_run, episodes_assets_traced_run, t_logged_app.
  unfold t_logged, seriesKeys. simpl. now rewrite <- app_assoc.
Qed.

Lemma deleteSeries_disk_traced_current (w : World) (tr : list Event)
      (d : Document) (ss : list Series) (seriesId : string) (i : nat) :
  w_file w = JsonDoc d -> series d = Some ss ->
  findIndex (has_id seriesId) ss = Some i ->
  deleteSeries_disk_traced env seriesId (mkTraced w tr)
  = (Ok (mkResponse 200 BSuccess),
     mkTraced (mkWorld (JsonDoc (set_series d (splice1 i ss)))
                       (w_deleted w) (w_uuids w))
              (tr ++ [Saved (set_series d (splice1 i ss))])).
Proof.
  intros Hf Hs Hi. unfold deleteSeries_disk_traced, t_try_catch, t_bind.
  rewrite (@getData_traced_current (mkTraced w tr) d ss Hf Hs). simpl.
  rewrite Hs. simpl. rewrite Hi. reflexivity.
Qed.

End JournalledDeleting.

(** The journalled handlers are the handlers, with a journal. *)

Lemma erases_lift {A} (c : M A) : erases (lift c) c.
Proof. intros t. unfold lift. destruct (c (t_world t)); reflexivity. Qed.

Lemma erases_ret {A} (a : A) : erases (t_ret a) (ret a).
Proof. intros t. reflexivity. Qed.

Lemma erases_bind {A B} (ct : T A) (c : M A) (kt : A -> T B) (k : A -> M B) :
  erases ct c -> (forall a, erases (kt a) (k a)) ->
  erases (t_bind ct kt) (bind c k).
Proof.
  intros H Hk t. unfold t_bind, bind. rewrite (H t).
  destruct (ct t) as [[a | e] t']; simpl; [apply Hk | reflexivity].
Qed.

Lemma erases_try {A} (ct : T A) (c : M A) (ht : exn -> T A) (h : exn -> M A) :
  erases ct c -> (forall e, erases (ht e) (h e)) ->
  erases (t_try_catch ct ht) (try_catch c h).
Proof.
  intros H Hh t. unfold t_try_catch, try_catch. rewrite (H t).
  destruct (ct t) as [[a | e] t']; simpl; [reflexivity | apply Hh].
Qed.

Lemma erases_emit {A} (ev : Event) (ct : T A) (c : M A) :
  erases ct c -> erases (t_bind (emit ev) (fun _ => ct)) c.
Proof. intros H t. unfold t_bind, emit. apply (H (mkTraced _ _)). Qed.

Lemma erases_when (b : bool) ct c :
  erases ct c -> erases (t_when b ct) (when b c).
Proof. intros H. destruct b; [exact H | apply erases_ret]. Qed.

Lemma erases_for_of {A} (l : list A) ft f :
  (forall a, erases (ft a) (f a)) -> erases (t_for_of l ft) (for_of l f).
Proof.
  intros H. induction l as [|a l IH]; simpl.
  - apply erases_ret.
  - apply erases_bind; [apply H | intros _; exact IH].
Qed.

Section JournalErasure.

Variable env : Env.

Lemma erases_saveData d : erases (saveData_traced d) (saveData d).
Proof. apply erases_emit, erases_lift. Qed.

Lemma erases_deleteFromS3 k : erases (deleteFromS3_traced env k) (deleteFromS3 env k).
Proof. apply erases_emit, erases_lift. Qed.

Lemma erases_getData : erases (getData_traced env) (getData env).
Proof.
  apply erases_try; [|intros _; apply erases_ret].
  apply erases_bind; [apply erases_lift|]. intros c.
  apply erases_bind; [apply erases_lift|]. intros p0.
  apply erases_bind; [apply erases_lift|]. intros p.
  destruct (series p); [apply erases_ret|].
  destruct (showTitle p); [|apply erases_ret].
  destruct (negb _); [|apply erases_ret].
  apply erases_bind; [apply erases_lift|]. intros id.
  apply erases_bind; [apply erases_saveData|]. intros _. apply erases_ret.
Qed.

Lemma erases_deleteRef r : erases (deleteRef_traced env r) (deleteRef env r).
Proof.
  unfold deleteRef_traced, deleteRef.
  destruct (getKeyFromUrl r) as [k|]; [|apply erases_ret].
  destruct (truthy_str _); [|apply erases_ret].
  apply erases_bind; [apply erases_deleteFromS3 | intros _; apply erases_ret].
Qed.

Lemma erases_deleteEpisodeAssets e :
  erases (deleteEpisodeAssets_traced env e) (deleteEpisodeAssets env e).
Proof.
  apply erases_bind; [apply erases_when, erases_deleteRef|]. intros _.
  apply erases_bind; [apply erases_when, erases_deleteRef|]. intros _.
  apply erases_for_of. intros m. apply erases_deleteRef.
Qed.

Lemma erases_deleteSeries id :
  erases (deleteSeries_traced env id) (deleteSeries env id).
Proof.
  apply erases_try; [|intros _; apply erases_lift].
  apply erases_bind; [apply erases_getData|]. intros d.
  apply erases_bind; [apply erases_lift|]. intros ss.
  destruct (findIndex _ ss); [|apply erases_lift].
  apply erases_bind; [apply erases_lift|]. intros s.
  apply erases_bind; [apply erases_when, erases_deleteRef|]. intros _.
  apply erases_bind; [apply erases_for_of, erases_deleteEpisodeAssets|]. intros _.
  apply erases_bind; [apply erases_saveData|]. intros _. apply erases_lift.
Qed.

Lemma erases_deleteSeries_disk id :
  erases (deleteSeries_disk_traced env id) (deleteSeries_disk env id).
Proof.
  apply erases_try; [|intros _; apply erases_lift].
  apply erases_bind; [apply erases_getData|]. intros d.
  apply erases_bind; [apply erases_lift|]. intros ss.
  destruct (findIndex _ ss); [|apply erases_lift].
  apply erases_bind; [apply erases_saveData|]. intros _. apply erases_lift.
Qed.
End JournalErasure.

Lemma splice1_app {A} (l1 l2 : list A) (x : A) :
  splice1 (List.length l1) (l1 ++ x :: l2) = l1 ++ l2.
Proof.
  unfold splice1. induction l1 as [|a l1 IH]; [reflexivity|].
  cbn [List.length firstn skipn app]. f_equal. exact IH.
Qed.

Lemma splice1_removes_id (ss : list Series) (i : nat) (s : Series) :
  nth_error ss i = Some s -> NoDup (List.map s_id ss) ->
  ~ In (s_id s) (List.map s_id (splice1 i ss)).
Proof.
  intros Hnth Hnd.
  destruct (nth_error_split ss i Hnth) as (l1 & l2 & Hss & Hlen).
  subst ss i. rewrite splice1_app.
  rewrite map_app in *. simpl in Hnd.
  now apply NoDup_remove_2 in Hnd.
Qed.

(** C1, as the claim states it, fails.  A series whose thumbnail is a local
    path has one reachable asset reference, yet deleting it issues no delete
    call; of the six references reachable from [sample_series] only the
    three object-store URLs are deleted; and the disk variant of the route issues
    no delete call at all. *)
Lemma deleteSeries_skips_unresolved_references :
  reachableRefs local_only_series = [local_thumb]
  /\ deleteSeries sample_env "s3"
                  (world_of (JsonDoc (doc_of_series [local_only_series])))
     = (Ok (mkResponse 200 BSuccess), world_of (JsonDoc (doc_of_series [])))
  /\ List.length (reachableRefs sample_series) = 6%nat
  /\ w_deleted (snd (deleteSeries sample_env "s1" (world_of (JsonDoc sample_doc))))
     = ["thumbnails/t.png"; "media/a.png"; "media/c.mp4"]
  /\ w_deleted (snd (deleteSeries_disk sample_env "s1"
                                       (world_of (JsonDoc sample_doc))))
     = [].
Proof. repeat split; reflexivity. Qed.

(** C1, amended.  For a document in the current shape and a series id
    present in it, [deleteSeries] answers success and persists the document
    without the first series [s] carrying that id (so that, ids being
    unique, no series with that id is listed any more).  Before that the
    object-storage variant calls [deleteFromS3] once for each reference
    reachable from [s] that is truthy and that [getKeyFromUrl] resolves to
    a key, in the order series thumbnail, then per episode its thumbnail,
    its music and its media items; references it does not resolve (such as
    local paths) get no call, and the disk variant makes no call.  The
    journal of the run says the order: whatever came before, it is extended
    by the delete calls, in that order, and then by the one write of the
    file, which is the last event; in the disk variant by the write alone.
    What the delete calls answer has no influence on the result. *)
Theorem deleteSeries_removes_series (env : Env) (w : World) (d : Document)
        (ss : list Series) (seriesId : string) :
  w_file w = JsonDoc d -> series d = Some ss ->
  In seriesId (List.map s_id ss) ->
  exists i s,
    findIndex (has_id seriesId) ss = Some i
    /\ nth_error ss i = Some s
    /\ s_id s = seriesId
    /\ deleteSeries env seriesId w
       = (Ok (mkResponse 200 BSuccess),
          mkWorld (JsonDoc (set_series d (splice1 i ss)))
                  (w_deleted w ++ seriesKeys s) (w_uuids w))
    /\ deleteSeries_disk env seriesId w
       = (Ok (mkResponse 200 BSuccess),
          mkWorld (JsonDoc (set_series d (splice1 i ss)))
                  (w_deleted w) (w_uuids w))
    /\ (forall tr : list Event,
          deleteSeries_traced env seriesId (mkTraced w tr)
          = (Ok (mkResponse 200 BSuccess),
             mkTraced (mkWorld (JsonDoc (set_series d (splice1 i ss)))
                               (w_deleted w ++ seriesKeys s) (w_uuids w))
                      (tr ++ deletions (seriesKeys s)
                          ++ [Saved (set_series d (splice1 i ss))])))
    /\ (forall tr : list Event,
          deleteSeries_disk_traced env seriesId (mkTraced w tr)
          = (Ok (mkResponse 200 BSuccess),
             mkTraced (mkWorld (JsonDoc (set_series d (splice1 i ss)))
                               (w_deleted w) (w_uuids w))
                      (tr ++ [Saved (set_series d (splice1 i ss))])))
    /\ fst (listSeries env (snd (deleteSeries env seriesId w)))
       = Ok (mkResponse 200 (BSeriesList (Some (splice1 i ss))))
    /\ (NoDup (List.map s_id ss) ->
        ~ In seriesId (List.map s_id (splice1 i ss))).
Proof.
  intros Hf Hs Hin.
  apply in_map_iff in Hin. destruct Hin as (x & Hx & Hxin).
  destruct (findIndex_In (has_id seriesId) ss x Hxin) as [i Hi].
  { unfold has_id. rewrite Hx. apply String.eqb_refl. }
  destruct (findIndex_Some _ _ Hi) as (s & Hnth & Hp & _).
  unfold has_id in Hp. apply String.eqb_eq in Hp.
  exists i, s.
  split; [exact Hi|]. split; [exact Hnth|]. split; [exact Hp|].
  rewrite (deleteSeries_current env w seriesId Hf Hs Hi Hnth).
  rewrite (deleteSeries_disk_current env w seriesId Hf Hs Hi).
  split; [reflexivity|]. split; [reflexivity|].
  split.
  { intros tr. exact (@deleteSeries_traced_current env w tr d ss seriesId i s
                        Hf Hs Hi Hnth). }
  split.
  { intros tr. exact (@deleteSeries_disk_traced_current env w tr d ss seriesId i
                        Hf Hs Hi). }
  split; [reflexivity|].
  intros Hnd. rewrite <- Hp. now apply splice1_removes_id.
Qed.

Lemma deleteSeries_removes_series_witness :
  deleteSeries sample_env "s1" (world_of (JsonDoc sample_doc))
  = (Ok (mkResponse 200 BSuccess),
     mkWorld (JsonDoc (doc_of_series [two_episode_series]))
             ["thumbnails/t.png"; "media/a.png"; "media/c.mp4"] O)
  /\ t_events (snd (deleteSeries_traced sample_env "s1"
                      (mkTraced (world_of (JsonDoc sample_doc)) [])))
     = [Deleted "thumbnails/t.png"; Deleted "media/a.png";
        Deleted "media/c.mp4"; Saved (doc_of_series [two_episode_series])]
  /\ t_events (snd (deleteSeries_disk_traced sample_env "s1"
                      (mkTraced (world_of (JsonDoc sample_doc)) [])))
     = [Saved (doc_of_series [two_episode_series])]
  /\ ~ In "s1" (List.map s_id [two_episode_series]).
Proof.
  destruct (@deleteSeries_removes_series sample_env
              (world_of (JsonDoc sample_doc)) sample_doc
              [sample_series; two_episode_series] "s1" eq_refl eq_refl)
    as (i & s & Hi & Hnth & _ & Hrun & _ & Htr & Hdisk & _ & Hgone).
  - simpl. left. reflexivity.
  - injection Hi as <-. injection Hnth as <-.
    split; [exact Hrun|].
    split; [rewrite (Htr []); reflexivity|].
    split; [rewrite (Hdisk []); reflexivity|].
    apply Hgone. repeat constructor; simpl; intuition discriminate.
Defined.

(** ** Media reordering *)

Lemma mem_str_In (x : string) (l : list string) :
  mem_str x l = true <-> In x l.
Proof.
  unfold mem_str. rewrite existsb_exists. split.
  - intros (y & Hy & E). apply String.eqb_eq in E. now subst.
  - intros H. exists x. split; [exact H | apply String.eqb_refl].
Qed.

Lemma map_values_entries (l : list MediaItem) : map_values (entries l) = l.
Proof.
  unfold map_values, entries. rewrite map_map. simpl. apply map_id.
Qed.

Lemma map_keys_entries (l : list MediaItem) :
  List.map fst (entries l) = List.map m_id l.
Proof. unfold entries. rewrite map_map. reflexivity. Qed.

Lemma map_set_fresh (k : string) (v : MediaItem) (m : JsMap) :
  ~ In k (List.map fst m) -> map_set k v m = m ++ [(k, v)].
Proof.
  induction m as [|[k' v'] m IH]; intros H; simpl; [reflexivity|].
  simpl in H.
  destruct (String.eqb_spec k' k) as [E | _]; [tauto|].
  rewrite IH by tauto. reflexivity.
Qed.

Lemma buildMediaMap_from (media : list MediaItem) :
  forall acc,
    NoDup (List.map fst acc ++ List.map m_id media) ->
    fold_left (fun mp x => map_set (m_id x) x mp) media acc
    = acc ++ entries media.
Proof.
  induction media as [|x media IH]; intros acc Hnd; simpl.
  - now rewrite app_nil_r.
  - simpl in Hnd.
    rewrite map_set_fresh.
    + rewrite IH.
      * now rewrite <- app_assoc.
      * rewrite map_app. simpl. rewrite <- app_assoc. simpl.
        apply NoDup_remove_1 in Hnd as Hnd'.
        apply NoDup_remove_2 in Hnd.
        apply NoDup_app_remove_l in Hnd' as Hm.
        clear IH. revert Hnd Hnd'.
        generalize (List.map fst acc) (List.map m_id media) (m_id x).
        intros l1 l2 a Hnot Hnd.
        apply (Permutation_NoDup (l := a :: l1 ++ l2)).
        -- apply Permutation_middle.
        -- constructor; assumption.
    + apply NoDup_remove_2 in Hnd. intros Hin. apply Hnd.
      apply in_or_app. now left.
Qed.

Lemma buildMediaMap_entries (media : list MediaItem) :
  NoDup (List.map m_id media) -> buildMediaMap media = entries media.
Proof.
  intros H. unfold buildMediaMap. now rewrite buildMediaMap_from.
Qed.

Lemma map_get_entries (id : string) (l : list MediaItem) :
  map_get id (entries l) = List.find (is_id id) l.
Proof.
  induction l as [|a l IH]; simpl; [reflexivity|].
  unfold is_id at 1. destruct (String.eqb (m_id a) id); [reflexivity | exact IH].
Qed.

Lemma filter_none_id (id : string) (l : list MediaItem) :
  ~ In id (List.map m_id l) -> List.filter (fun m => negb (is_id id m)) l = l.
Proof.
  induction l as [|a l IH]; intros H; simpl; [reflexivity|].
  simpl in H. unfold is_id at 1.
  destruct (String.eqb_spec (m_id a) id) as [E | _]; [tauto|].
  simpl. rewrite IH by tauto. reflexivity.
Qed.

Lemma map_delete_entries (id : string) (l : list MediaItem) :
  NoDup (List.map m_id l) ->
  map_delete id (entries l)
  = entries (List.filter (fun m => negb (is_id id m)) l).
Proof.
  induction l as [|a l IH]; intros Hnd; simpl; [reflexivity|].
  inversion Hnd as [|? ? Hnot Hnd']; subst.
  unfold is_id at 1.
  destruct (String.eqb_spec (m_id a) id) as [E | _]; simpl.
  - subst id. now rewrite filter_none_id.
  - now rewrite IH.
Qed.

Lemma NoDup_map_filter (q : MediaItem -> bool) (l : list MediaItem) :
  NoDup (List.map m_id l) -> NoDup (List.map m_id (List.filter q l)).
Proof.
  induction l as [|a l IH]; intros Hnd; simpl; [constructor|].
  inversion Hnd as [|? ? Hnot Hnd']; subst.
  destruct (q a); simpl; [constructor|]; auto.
  intros Hin. apply Hnot.
  apply in_map_iff in Hin. destruct Hin as (y & Hy & Hyin).
  apply filter_In in Hyin. apply in_map_iff. exists y. tauto.
Qed.

Lemma find_filter (p q : MediaItem -> bool) (l : list MediaItem) :
  (forall m, p m = true -> q m = true) ->
  List.find p (List.filter q l) = List.find p l.
Proof.
  intros Hpq. induction l as [|a l IH]; simpl; [reflexivity|].
  destruct (q a) eqn:Hq; simpl.
  - destruct (p a); [reflexivity | exact IH].
  - destruct (p a) eqn:Hp; [|exact IH].
    rewrite (Hpq a Hp) in Hq. discriminate.
Qed.

Lemma filter_filter (p q : MediaItem -> bool) (l : list MediaItem) :
  List.filter p (List.filter q l) = List.filter (fun m => q m && p m) l.
Proof.
  induction l as [|a l IH]; simpl; [reflexivity|].
  destruct (q a); simpl; [destruct (p a); simpl; now rewrite IH | exact IH].
Qed.

(** One turn of the loop over [mediaIds], on a map that holds the media
    whose ids have not been met yet. *)
Lemma reorder_step_entries (media : list MediaItem) (seen : list string)
      (out : list MediaItem) (id : string) :
  NoDup (List.map m_id media) ->
  reorder_step (out, entries (List.filter (not_in seen) media)) id
  = (out ++ (if mem_str id seen then [] else pick media id),
     entries (List.filter (not_in (id :: seen)) media)).
Proof.
  intros Hnd. unfold reorder_step. rewrite map_get_entries.
  assert (Hsplit : forall m, not_in (id :: seen) m
                             = not_in seen m && negb (is_id id m)).
  { intros m. unfold not_in, mem_str, is_id. simpl.
    rewrite negb_orb. apply andb_comm. }
  destruct (mem_str id seen) eqn:Hseen.
  - assert (Hnone : List.find (is_id id) (List.filter (not_in seen) media) = None).
    { destruct (List.find _ _) as [x|] eqn:E; [|reflexivity].
      apply find_some in E. destruct E as [Hin Hid].
      apply filter_In in Hin. destruct Hin as [_ Hq].
      unfold is_id in Hid. apply String.eqb_eq in Hid.
      unfold not_in in Hq. rewrite Hid, Hseen in Hq. discriminate. }
    rewrite Hnone, app_nil_r. do 2 f_equal.
    apply filter_ext_in. intros m _. rewrite Hsplit.
    unfold not_in, is_id.
    destruct (String.eqb_spec (m_id m) id) as [E | _].
    + rewrite E, Hseen. reflexivity.
    + now rewrite andb_true_r.
  - rewrite find_filter.
    2:{ intros m Hm. unfold is_id in Hm. apply String.eqb_eq in Hm.
        unfold not_in. now rewrite Hm, Hseen. }
    unfold pick. fold (is_id id).
    destruct (List.find (is_id id) media) as [x|] eqn:E.
    + f_equal. rewrite map_delete_entries by now apply NoDup_map_filter.
      rewrite filter_filter. f_equal.
      apply filter_ext. intros m. now rewrite Hsplit.
    + rewrite app_nil_r. do 2 f_equal.
      apply filter_ext_in. intros m Hin. rewrite Hsplit.
      pose proof (find_none _ _ E m Hin) as Hm. rewrite Hm.
      now rewrite andb_true_r.
Qed.

Lemma dedup_ext (l : list string) :
  forall s1 s2,
    (forall x, mem_str x s1 = mem_str x s2) -> dedup s1 l = dedup s2 l.
Proof.
  induction l as [|b l IH]; intros s1 s2 H; simpl; [reflexivity|].
  rewrite (H b). destruct (mem_str b s2); [now apply IH|].
  f_equal. apply IH. intros x. unfold mem_str; simpl.
  fold (mem_str x s1) (mem_str x s2). now rewrite H.
Qed.

Lemma mem_str_cons (x id : string) (l : list string) :
  mem_str x (id :: l) = String.eqb x id || mem_str x l.
Proof. reflexivity. Qed.

Lemma reorder_loop_entries (media : list MediaItem) :
  NoDup (List.map m_id media) ->
  forall (ids seen : list string) (out : list MediaItem),
    fold_left reorder_step ids (out, entries (List.filter (not_in seen) media))
    = (out ++ flat_map (pick media) (dedup seen ids),
       entries (List.filter
                  (fun m => negb (mem_str (m_id m) ids || mem_str (m_id m) seen))
                  media)).
Proof.
  intros Hnd. induction ids as [|id ids IH]; intros seen out.
  - simpl. now rewrite app_nil_r.
  - cbn [fold_left]. rewrite reorder_step_entries by exact Hnd. rewrite IH.
    cbn [dedup].
    assert (Hpred : List.filter
                      (fun m => negb (mem_str (m_id m) ids
                                      || mem_str (m_id m) (id :: seen))) media
                    = List.filter
                        (fun m => negb (mem_str (m_id m) (id :: ids)
                                        || mem_str (m_id m) seen)) media).
    { apply filter_ext. intros m. rewrite !mem_str_cons.
      destruct (String.eqb (m_id m) id), (mem_str (m_id m) ids),
        (mem_str (m_id m) seen); reflexivity. }
    rewrite Hpred.
    destruct (mem_str id seen) eqn:Hseen.
    + rewrite app_nil_r. do 3 f_equal.
      apply dedup_ext. intros x. rewrite mem_str_cons.
      destruct (String.eqb_spec x id) as [-> | _]; [now rewrite Hseen|reflexivity].
    + cbn [flat_map]. now rewrite <- app_assoc.
Qed.

Lemma reorderMedia_spec (media : list MediaItem) (ids : list string) :
  NoDup (List.map m_id media) ->
  reorderMedia media ids = mentioned media ids ++ unmentioned media ids.
Proof.
  intros Hnd. unfold reorderMedia.
  rewrite buildMediaMap_entries by exact Hnd.
  replace (entries media) with (entries (List.filter (not_in []) media)).
  - rewrite reorder_loop_entries by exact Hnd. simpl. rewrite map_values_entries.
    unfold mentioned, unmentioned. f_equal.
    apply filter_ext. intros m. now rewrite orb_false_r.
  - f_equal. clear. induction media as [|a l IH]; simpl; [reflexivity|].
    now rewrite IH.
Qed.

Lemma map_delete_values (id : string) (x : MediaItem) (mp : JsMap) :
  map_get id mp = Some x ->
  Permutation (x :: map_values (map_delete id mp)) (map_values mp).
Proof.
  induction mp as [|[k v] mp IH]; simpl; [discriminate|].
  destruct (String.eqb k id).
  - intros H; injection H as <-. reflexivity.
  - intros H. simpl. rewrite perm_swap. constructor. now apply IH.
Qed.

(** Whatever the map holds, a turn of the loop moves one value from the
    map to the output or changes nothing. *)
Lemma reorder_loop_perm (ids : list string) :
  forall (out : list MediaItem) (mp : JsMap),
    Permutation
      (fst (fold_left reorder_step ids (out, mp))
       ++ map_values (snd (fold_left reorder_step ids (out, mp))))
      (out ++ map_values mp).
Proof.
  induction ids as [|id ids IH]; intros out mp; [reflexivity|].
  cbn [fold_left]. unfold reorder_step at 2 4.
  destruct (map_get id mp) as [x|] eqn:E.
  - rewrite IH. rewrite <- app_assoc. apply Permutation_app_head.
    simpl. now apply map_delete_values.
  - apply IH.
Qed.

(** The result always holds exactly what the [Map] held. *)
Lemma reorderMedia_map_values (media : list MediaItem) (ids : list string) :
  Permutation (reorderMedia media ids) (map_values (buildMediaMap media)).
Proof.
  unfold reorderMedia.
  pose proof (reorder_loop_perm ids [] (buildMediaMap media)) as H.
  destruct (fold_left reorder_step ids ([], buildMediaMap media)) as [out mp].
  exact H.
Qed.

Lemma reorderMedia_perm (media : list MediaItem) (ids : list string) :
  NoDup (List.map m_id media) -> Permutation (reorderMedia media ids) media.
Proof.
  intros Hnd. rewrite reorderMedia_map_values.
  rewrite buildMediaMap_entries by exact Hnd.
  now rewrite map_values_entries.
Qed.

Lemma dedup_NoDup (ids : list string) :
  forall seen,
    NoDup ids -> (forall x, In x ids -> ~ In x seen) -> dedup seen ids = ids.
Proof.
  induction ids as [|id ids IH]; intros seen Hnd Hdis; simpl; [reflexivity|].
  inversion Hnd as [|? ? Hnot Hnd']; subst.
  destruct (mem_str id seen) eqn:E.
  - apply mem_str_In in E. exfalso. apply (Hdis id); [now left | exact E].
  - f_equal. apply IH; [exact Hnd'|].
    intros x Hx [<- | Hin]; [contradiction|].
    apply (Hdis x); [now right | exact Hin].
Qed.

Lemma pick_present (media : list MediaItem) (id : string) :
  In id (List.map m_id media) ->
  List.map m_id (pick media id) = [id].
Proof.
  intros Hin. unfold pick. fold (is_id id).
  destruct (List.find (is_id id) media) as [x|] eqn:E.
  - apply find_some in E. destruct E as [_ Hid].
    unfold is_id in Hid. apply String.eqb_eq in Hid. simpl. now rewrite Hid.
  - apply in_map_iff in Hin. destruct Hin as (y & Hy & Hyin).
    pose proof (find_none _ _ E y Hyin) as Hn.
    unfold is_id in Hn. rewrite Hy, String.eqb_refl in Hn. discriminate.
Qed.

Lemma mentioned_ids (media : list MediaItem) (ids : list string) :
  (forall x, In x ids -> In x (List.map m_id media)) ->
  List.map m_id (flat_map (pick media) ids) = ids.
Proof.
  induction ids as [|id ids IH]; intros H; simpl; [reflexivity|].
  rewrite map_app, pick_present by (apply H; now left).
  simpl. f_equal. apply IH. intros x Hx. apply H. now right.
Qed.

Lemma unmentioned_nil (media : list MediaItem) (ids : list string) :
  (forall m, In m media -> In (m_id m) ids) -> unmentioned media ids = [].
Proof.
  intros H. unfold unmentioned.
  induction media as [|a l IH]; simpl; [reflexivity|].
  assert (Ha : mem_str (m_id a) ids = true)
    by (apply mem_str_In, H; now left).
  rewrite Ha. simpl. apply IH. intros m Hm. apply H. now right.
Qed.

Lemma reorderMedia_permutation_ids (media : list MediaItem) (ids : list string) :
  NoDup (List.map m_id media) -> Permutation ids (List.map m_id media) ->
  List.map m_id (reorderMedia media ids) = ids.
Proof.
  intros Hnd Hperm.
  rewrite reorderMedia_spec by exact Hnd.
  rewrite unmentioned_nil, app_nil_r.
  - unfold mentioned. rewrite dedup_NoDup.
    + apply mentioned_ids. intros x Hx.
      eapply Permutation_in; [exact Hperm | exact Hx].
    + eapply Permutation_NoDup; [symmetry; exact Hperm | exact Hnd].
    + intros x _ [].
  - intros m Hm. eapply Permutation_in; [symmetry; exact Hperm|].
    now apply in_map.
Qed.

(** ** Episode routes on a document in the current shape *)

Section EpisodeRoutes.

Variable env : Env.
Variables (w : World) (d : Document) (ss : list Series).
Variables (seriesId : string) (i : nat) (s : Series).
Hypothesis Hfile : w_file w = JsonDoc d.
Hypothesis Hseries : series d = Some ss.
Hypothesis Hindex : findIndex (has_id seriesId) ss = Some i.
Hypothesis Hnth : nth_error ss i = Some s.

Lemma episode_at_valid (z : Z) (e : Episode) :
  0 <= z -> nth_error (s_episodes s) (Z.to_nat z) = Some e ->
  index_ge_length (Some z) (List.length (s_episodes s)) = false
  /\ episode_at (Some z) (s_episodes s) = Some e.
Proof.
  intros Hz He. split.
  - simpl. apply Z.leb_gt.
    assert (Z.to_nat z < List.length (s_episodes s))%nat
      by (apply nth_error_Some; congruence).
    lia.
  - simpl. destruct (Z.ltb_spec z 0); [lia | exact He].
Qed.

Lemma reorder_current (param : string) (z : Z) (e : Episode)
      (ids : list string) :
  parseInt param = Some z -> 0 <= z ->
  nth_error (s_episodes s) (Z.to_nat z) = Some e ->
  reorder env seriesId param (Some ids) w
  = (Ok (mkResponse 200 (BMedia (reorderMedia (e_media e) ids))),
     written w (store_episode d ss i s (Some z)
                  (set_media e (reorderMedia (e_media e) ids)))).
Proof.
  intros Hp Hz He.
  destruct (episode_at_valid Hz He) as [Hge Hat].
  unfold reorder, bind. rewrite Hp.
  rewrite (getData_current env w Hfile Hseries). simpl deref.
  rewrite Hseries. cbn [deref ret]. rewrite Hindex, Hnth. cbn [deref ret].
  rewrite Hge, Hat. reflexivity.
Qed.


End EpisodeRoutes.

(** A series id that matches no series is answered 404 by the id-taking
    routes. *)
Lemma unknown_series_not_found (env : Env) (w : World) (d : Document)
      (ss : list Series) (seriesId : string) :
  w_file w = JsonDoc d -> series d = Some ss ->
  findIndex (has_id seriesId) ss = None ->
  let missing := (Ok (mkResponse 404 (BError "Series not found")), w) in
  getSeries env seriesId w = missing
  /\ (forall b, updateSeries env seriesId b w = missing)
  /\ deleteSeries env seriesId w = missing
  /\ (forall param, deleteMusic env seriesId param w = missing)
  /\ (forall param mediaId, deleteMedia env seriesId param mediaId w = missing)
  /\ (forall param ids, reorder env seriesId param (Some ids) w = missing).
Proof.
  intros Hf Hs Hi missing.
  assert (Hfind : List.find (has_id seriesId) ss = None).
  { clear - Hi. induction ss as [|a l IH]; simpl in *; [reflexivity|].
    destruct (has_id seriesId a); [discriminate|].
    destruct (findIndex (has_id seriesId) l); [discriminate | now apply IH]. }
  unfold getSeries, findSeries, updateSeries, deleteSeries, deleteMusic,
    deleteMedia, reorder, try_catch, bind.
  rewrite (getData_current env w Hf Hs). simpl deref.
  rewrite Hs. cbn [deref ret]. rewrite Hi, Hfind. repeat split.
Qed.




(** C5, as the claim states it ("for every episode"), fails.  On an
    episode holding two media items under the id [a], stored through
    [PUT /series/s2], the list [a, a] is a permutation of the ids of the
    episode's media; the reorder route answers and stores the one item
    [media_a_twin], whose ids are not that list, and the first item is
    lost. *)
Lemma reorder_permutation_with_shared_id :
  let w1 := snd (updateSeries sample_env "s2" twin_update
                              (world_of (JsonDoc sample_doc))) in
  w_file w1
  = JsonDoc (doc_of_series
      [sample_series;
       set_episodes two_episode_series [twin_episode; newEpisode 2]])
  /\ Permutation ["a"; "a"] (List.map m_id (e_media twin_episode))
  /\ reorder sample_env "s2" "0" (Some ["a"; "a"]) w1
     = (Ok (mkResponse 200 (BMedia [media_a_twin])),
        world_of (JsonDoc (doc_of_series
          [sample_series;
           set_episodes two_episode_series
             [set_media twin_episode [media_a_twin]; newEpisode 2]])))
  /\ List.map m_id [media_a_twin] <> ["a"; "a"]
  /\ ~ Permutation [media_a_twin] (e_media twin_episode).
Proof.
  cbv zeta.
  split; [reflexivity|]. split; [apply Permutation_refl|].
  split; [reflexivity|].
  split; [simpl; discriminate|].
  intros H. apply Permutation_length in H. simpl in H. discriminate H.
Qed.

(** C5, amended.  For an episode whose media items carry pairwise distinct
    ids and an input list that is a permutation of those ids, the reorder
    route stores and answers the same media items with their ids exactly in
    the order of the input list. *)
Theorem reorder_permutation_order (env : Env) (w : World) (d : Document)
        (ss : list Series) (seriesId : string) (i : nat) (s : Series)
        (param : string) (z : Z) (e : Episode) (ids : list string) :
  w_file w = JsonDoc d -> series d = Some ss ->
  findIndex (has_id seriesId) ss = Some i -> nth_error ss i = Some s ->
  parseInt param = Some z -> 0 <= z ->
  nth_error (s_episodes s) (Z.to_nat z) = Some e ->
  NoDup (List.map m_id (e_media e)) ->
  Permutation ids (List.map m_id (e_media e)) ->
  exists r,
    reorder env seriesId param (Some ids) w
    = (Ok (mkResponse 200 (BMedia r)),
       written w (store_episode d ss i s (Some z) (set_media e r)))
    /\ List.map m_id r = ids
    /\ Permutation r (e_media e).
Proof.
  intros Hf Hs Hi Hnth Hp Hz He Hnd Hperm.
  exists (reorderMedia (e_media e) ids).
  split; [apply (reorder_current env w seriesId Hf Hs Hi Hnth param ids Hp Hz He)|].
  split; [now apply reorderMedia_permutation_ids | now apply reorderMedia_perm].
Qed.

Lemma reorder_permutation_order_witness :
  exists r,
    fst (reorder sample_env "s1" "0" (Some ["b"; "c"; "a"])
                 (world_of (JsonDoc sample_doc)))
    = Ok (mkResponse 200 (BMedia r))
    /\ List.map m_id r = ["b"; "c"; "a"].
Proof.
  destruct (@reorder_permutation_order sample_env
              (world_of (JsonDoc sample_doc)) sample_doc
              [sample_series; two_episode_series] "s1" 0%nat sample_series
              "0" 0 sample_episode ["b"; "c"; "a"]
              eq_refl eq_refl eq_refl eq_refl eq_refl)
    as (r & Hrun & Hids & _).
  - lia.
  - reflexivity.
  - repeat constructor; simpl; intuition discriminate.
  - simpl. apply (perm_trans (l' := ["b"; "a"; "c"])).
    + apply perm_skip, perm_swap.
    + apply perm_swap.
  - exists r. split; [now rewrite Hrun | exact Hids].
Defined.


(** C9.  The index check [episodeIndex >= series.episodes.length] lets a
    negative index and [NaN] through: with the parameter [-1] or [abc] each
    of the six routes goes on to read a property of the [undefined]
    episode and fails with an uncaught [TypeError] instead of answering 400
    "Invalid episode index".  (The file is left as it was; the media upload
    has by then drawn an id.)  An index at or beyond the number of episodes
    is answered 400. *)
Theorem index_check_misses_negative_and_NaN :
  parseInt "-1" = Some (-1) /\ parseInt "abc" = None
  /\ throws_on_index sample_env (world_of (JsonDoc sample_doc)) "s1" "-1"
  /\ throws_on_index sample_env (world_of (JsonDoc sample_doc)) "s1" "abc"
  /\ deleteMusic sample_env "s1" "1" (world_of (JsonDoc sample_doc))
     = (Ok (mkResponse 400 (BError "Invalid episode index")),
        world_of (JsonDoc sample_doc)).
Proof. repeat split; reflexivity. Qed.

(* ================================================================== *)
(** * Further properties of the code *)

(** ** [config/s3.js]: keys and URLs *)

Lemma strip_prefix_app (p : string) :
  forall x r, strip_prefix p x = Some r -> x = (p ++ r)%string.
Proof.
  induction p as [|a p IH]; intros x r H; simpl in H.
  - now injection H as ->.
  - destruct x as [|b x]; [discriminate|].
    destruct (Ascii.eqb_spec a b) as [<- | _]; [|discriminate].
    simpl. f_equal. now apply IH.
Qed.

Lemma strip_prefix_self (p r : string) :
  strip_prefix p (p ++ r) = Some r.
Proof.
  induction p as [|a p IH]; simpl; [reflexivity|].
  now rewrite Ascii.eqb_refl.
Qed.

Lemma includes_eq (s sub : string) :
  includes s sub
  = if startsWith s sub then true
    else match s with
         | EmptyString => false
         | String _ s' => includes s' sub
         end.
Proof. destruct s; reflexivity. Qed.

Lemma includes_app (pre sub post : string) :
  includes (pre ++ sub ++ post) sub = true.
Proof.
  induction pre as [|c pre IH]; rewrite includes_eq.
  - unfold startsWith.
    change (EmptyString ++ sub ++ post)%string with (sub ++ post)%string.
    now rewrite strip_prefix_self.
  - destruct (startsWith _ sub); [reflexivity|]. exact IH.
Qed.

(** Up to position [13 + length s] a slash-free [s] followed by
    [.amazonaws.com/] shows no slash. *)
Lemma no_slash_before_host_end (key : string) (s : string) :
  forall n,
    no_slash s = true -> (n <= 13 + String.length s)%nat ->
    String.get n (s ++ ".amazonaws.com/" ++ key) <> Some "/"%char.
Proof.
  induction s as [|c s IH]; intros n Hs Hn.
  - simpl in Hn. simpl append.
    do 14 (destruct n as [|n]; [simpl; discriminate|]). lia.
  - simpl in Hs. apply andb_true_iff in Hs. destruct Hs as [Hc Hs].
    destruct n as [|n]; simpl.
    + intros H. injection H as ->. discriminate Hc.
    + apply IH; [exact Hs | simpl in Hn; lia].
Qed.

Lemma no_early_host (key : string) (c : ascii) (s : string) :
  no_slash (String c s) = true ->
  strip_prefix ".amazonaws.com/" (String c s ++ ".amazonaws.com/" ++ key)
  = None.
Proof.
  intros Hs.
  destruct (strip_prefix _ _) as [r|] eqn:E; [|reflexivity].
  apply strip_prefix_app in E.
  exfalso.
  apply (@no_slash_before_host_end key (String c s) 14%nat Hs);
    [simpl; lia|].
  rewrite E. reflexivity.
Qed.

Lemma match_amazonaws_after_plain (key : string) (s : string) :
  no_slash s = true -> dot_plus_to_end key = true ->
  match_amazonaws (s ++ ".amazonaws.com/" ++ key) = Some key.
Proof.
  intros Hs Hk. induction s as [|c s IH]; rewrite match_amazonaws_eq.
  - change (EmptyString ++ ".amazonaws.com/" ++ key)%string
      with (".amazonaws.com/" ++ key)%string.
    rewrite strip_prefix_self, Hk. reflexivity.
  - rewrite no_early_host by exact Hs.
    simpl in Hs. apply andb_true_iff in Hs. now apply IH.
Qed.

Lemma no_slash_app (a b : string) :
  no_slash a = true -> no_slash b = true -> no_slash (a ++ b) = true.
Proof.
  intros Ha Hb. induction a as [|c a IH]; simpl; [exact Hb|].
  simpl in Ha. apply andb_true_iff in Ha. destruct Ha as [Hc Ha].
  rewrite Hc. simpl. now apply IH.
Qed.

Lemma append_assoc (a b c : string) :
  ((a ++ b) ++ c = a ++ (b ++ c))%string.
Proof. induction a as [|x a IH]; simpl; [reflexivity | now rewrite IH]. Qed.

Lemma match_amazonaws_skip (c : ascii) (s : string) :
  Ascii.eqb "."%char c = false ->
  match_amazonaws (String c s) = match_amazonaws s.
Proof.
  intros Hc. rewrite match_amazonaws_eq.
  cbn [strip_prefix]. now rewrite Hc.
Qed.

Lemma getKeyFromUrl_https (rest : string) :
  includes ("https://" ++ rest) ".s3." = true ->
  includes ("https://" ++ rest) ".amazonaws.com/" = true ->
  getKeyFromUrl (Some ("https://" ++ rest)%string) = match_amazonaws rest.
Proof.
  intros H1 H2. unfold getKeyFromUrl. rewrite H1, H2.
  cbn [append String.eqb andb].
  now rewrite !match_amazonaws_skip by reflexivity.
Qed.

Lemma key_of_stored_url (env : Env) (key : string) :
  plain_host env -> dot_plus_to_end key = true ->
  getKeyFromUrl (Some (getS3Url env key)) = Some key.
Proof.
  intros [Hb Hr] Hk. unfold getS3Url.
  set (region := or_str (AWS_REGION env) "ap-south-1") in *.
  rewrite getKeyFromUrl_https.
  - replace (bucketName env ++ ".s3." ++ region ++ ".amazonaws.com/" ++ key)%string
      with ((bucketName env ++ ".s3." ++ region) ++ ".amazonaws.com/" ++ key)%string
      by now rewrite !append_assoc.
    apply match_amazonaws_after_plain; [|exact Hk].
    apply no_slash_app; [exact Hb|].
    apply (no_slash_app ".s3." region); [reflexivity | exact Hr].
  - replace ("https://" ++ bucketName env ++ ".s3." ++ region
             ++ ".amazonaws.com/" ++ key)%string
      with (("https://" ++ bucketName env) ++ ".s3."
            ++ (region ++ ".amazonaws.com/" ++ key))%string
      by now rewrite !append_assoc.
    apply includes_app.
  - replace ("https://" ++ bucketName env ++ ".s3." ++ region
             ++ ".amazonaws.com/" ++ key)%string
      with (("https://" ++ bucketName env ++ ".s3." ++ region)
            ++ ".amazonaws.com/" ++ key)%string
      by now rewrite !append_assoc.
    apply includes_app.
Qed.

(** The [.] of the regular expression refuses the line separator: the
    URL of a key that holds one is not read back. *)
Lemma getKeyFromUrl_refuses_line_separator :
  dot_plus_to_end ls_key = false
  /\ getKeyFromUrl (Some (getS3Url sample_env ls_key)) = None.
Proof. split; reflexivity. Qed.

(** X1.  The URL stored for an uploaded object leads back to its key: when
    the bucket name and the region carry no slash and the key is not empty
    and holds none of the line terminators LF, CR, U+2028 and U+2029 (which
    the [.] of the regular expression refuses),
    [getKeyFromUrl(getS3Url(key))] is [key]. *)
Theorem getKeyFromUrl_getS3Url (env : Env) (key : string) :
  plain_host env -> dot_plus_to_end key = true ->
  getKeyFromUrl (Some (getS3Url env key)) = Some key.
Proof. intros Hhost Hkey. now apply key_of_stored_url. Qed.

Lemma sample_env_plain : plain_host sample_env.
Proof. split; reflexivity. Qed.

Lemma getKeyFromUrl_getS3Url_witness :
  getKeyFromUrl (Some (getS3Url sample_env "media/n.png")) = Some "media/n.png".
Proof.
  apply (@getKeyFromUrl_getS3Url sample_env "media/n.png").
  - split; reflexivity.
  - reflexivity.
Defined.

Lemma match_amazonaws_sound (u : string) :
  forall k, match_amazonaws u = Some k ->
            dot_plus_to_end k = true
            /\ exists pre, u = (pre ++ ".amazonaws.com/" ++ k)%string.
Proof.
  induction u as [|c u IH]; intros k; rewrite match_amazonaws_eq.
  - cbn. discriminate.
  - destruct (strip_prefix ".amazonaws.com/" (String c u)) as [rest|] eqn:E.
    + destruct (dot_plus_to_end rest) eqn:Hd.
      * intros H. injection H as <-. split; [exact Hd|].
        exists EmptyString. now apply strip_prefix_app in E.
      * intros H. destruct (IH k H) as [Hk [pre ->]].
        split; [exact Hk|]. now exists (String c pre).
    + intros H. destruct (IH k H) as [Hk [pre ->]].
      split; [exact Hk|]. now exists (String c pre).
Qed.

(** X2.  A key is only ever read out of a reference that mentions [.s3.]
    and ends in [.amazonaws.com/] followed by that key, which is then not
    empty and free of the line terminators LF, CR, U+2028 and U+2029; the
    bucket and region named in the reference play no part. *)
Theorem getKeyFromUrl_sound (ref : option string) (key : string) :
  getKeyFromUrl ref = Some key ->
  exists u pre,
    ref = Some u
    /\ u = (pre ++ ".amazonaws.com/" ++ key)%string
    /\ includes u ".s3." = true
    /\ dot_plus_to_end key = true.
Proof.
  destruct ref as [u|]; [|discriminate]. unfold getKeyFromUrl.
  destruct (String.eqb u EmptyString); [discriminate|].
  destruct (includes u ".s3.") eqn:H1; cbn [andb].
  - destruct (includes u ".amazonaws.com/") eqn:H2.
    + intros H. destruct (match_amazonaws_sound _ H) as [Hk [pre Hu]].
      exists u, pre. auto.
    + destruct (startsWith u "/uploads/"); discriminate.
  - destruct (startsWith u "/uploads/"); discriminate.
Qed.

Lemma getKeyFromUrl_sound_witness :
  exists u pre,
    Some s3_media = Some u
    /\ u = (pre ++ ".amazonaws.com/" ++ "media/a.png")%string
    /\ includes u ".s3." = true
    /\ dot_plus_to_end "media/a.png" = true.
Proof.
  apply (@getKeyFromUrl_sound (Some s3_media) "media/a.png"). reflexivity.
Defined.

(** ** Loading twice *)

(** X3.  Loading is idempotent on every state of the file: whatever
    [getData] returns, a second [getData] returns the same document and
    changes nothing further (no second migration, write or id). *)
Theorem getData_idempotent (env : Env) (w w1 : World) (d : Document) :
  getData env w = (Ok d, w1) -> getData env w1 = (Ok d, w1).
Proof.
  unfold getData, try_catch, bind, readFileSync.
  destruct (w_file w) as [| | |d0] eqn:Hf; simpl.
  - intros H. injection H as <- <-. now rewrite Hf.
  - intros H. injection H as <- <-. now rewrite Hf.
  - intros H. injection H as <- <-. now rewrite Hf.
  - destruct (series d0) as [ss|] eqn:Hs.
    + intros H. injection H as <- <-. rewrite Hf. simpl. now rewrite Hs.
    + destruct (showTitle d0) as [title|] eqn:Ht.
      * destruct (String.eqb title EmptyString) eqn:He; simpl.
        -- intros H. injection H as <- <-. rewrite Hf. simpl.
           now rewrite Hs, Ht, He.
        -- intros H. injection H as <- <-. reflexivity.
      * intros H. injection H as <- <-. rewrite Hf. simpl.
        now rewrite Hs, Ht.
Qed.

Lemma getData_idempotent_witness :
  exists d w1,
    getData sample_env (world_of (JsonDoc legacy_doc)) = (Ok d, w1)
    /\ getData sample_env w1 = (Ok d, w1).
Proof.
  eexists; eexists. split; [reflexivity|].
  apply (@getData_idempotent sample_env (world_of (JsonDoc legacy_doc))).
  reflexivity.
Defined.

(** ** Updating a list in place *)

Lemma length_set_nth {A} (x : A) (l : list A) :
  forall i, List.length (set_nth i x l) = List.length l.
Proof.
  induction l as [|a l IH]; intros i; simpl; [reflexivity|].
  destruct i; simpl; [reflexivity | now rewrite IH].
Qed.

Lemma nth_error_set_nth_eq {A} (x y : A) (l : list A) :
  forall i, nth_error l i = Some y -> nth_error (set_nth i x l) i = Some x.
Proof.
  induction l as [|a l IH]; intros i H; destruct i; simpl in *;
    try discriminate; [reflexivity | now apply IH].
Qed.

Lemma nth_error_set_nth_neq {A} (x : A) (l : list A) :
  forall i j, i <> j -> nth_error (set_nth i x l) j = nth_error l j.
Proof.
  induction l as [|a l IH]; intros i j H; simpl; [reflexivity|].
  destruct i, j; simpl; try reflexivity; [contradiction|].
  apply IH. congruence.
Qed.

Lemma set_nth_same {A} (x : A) (l : list A) :
  forall i, nth_error l i = Some x -> set_nth i x l = l.
Proof.
  induction l as [|a l IH]; intros i H; destruct i; simpl in *;
    try discriminate.
  - now injection H as ->.
  - f_equal. now apply IH.
Qed.

Lemma set_nth_twice {A} (x y : A) (l : list A) :
  forall i, set_nth i x (set_nth i y l) = set_nth i x l.
Proof.
  induction l as [|a l IH]; intros i; simpl; [reflexivity|].
  destruct i; simpl; [reflexivity | now rewrite IH].
Qed.

Lemma findIndex_set_nth {A} (p : A -> bool) (x : A) (l : list A) :
  forall i, findIndex p l = Some i -> p x = true ->
            findIndex p (set_nth i x l) = Some i.
Proof.
  induction l as [|a l IH]; intros i H Hx; simpl in *; [discriminate|].
  destruct (p a) eqn:Hp.
  - injection H as <-. simpl. now rewrite Hx.
  - destruct (findIndex p l) as [k|] eqn:Hk; [|discriminate].
    injection H as <-. simpl. rewrite Hp, (IH k eq_refl Hx). reflexivity.
Qed.

Lemma set_series_same (d : Document) (ss : list Series) :
  series d = Some ss -> set_series d ss = d.
Proof. destruct d; simpl; intros ->; reflexivity. Qed.

Lemma map_shape_set_nth (ss : list Series) (s' : Series) :
  forall i s, nth_error ss i = Some s -> series_shape s' = series_shape s ->
              List.map series_shape (set_nth i s' ss) = List.map series_shape ss.
Proof.
  induction ss as [|a l IH]; intros i s H Hs; destruct i; simpl in *;
    try discriminate.
  - injection H as ->. now rewrite Hs.
  - f_equal. now apply (IH i s).
Qed.

(** ** The episode routes on a valid series id and episode index *)

Section EpisodeRuns.

Variable env : Env.
Variables (w : World) (d : Document) (ss : list Series).
Variables (seriesId : string) (i : nat) (s : Series).
Variables (param : string) (z : Z) (e : Episode).
Hypothesis Hfile : w_file w = JsonDoc d.
Hypothesis Hseries : series d = Some ss.
Hypothesis Hindex : findIndex (has_id seriesId) ss = Some i.
Hypothesis Hnth : nth_error ss i = Some s.
Hypothesis Hparam : parseInt param = Some z.
Hypothesis Hz : 0 <= z.
Hypothesis Hepisode : nth_error (s_episodes s) (Z.to_nat z) = Some e.

Ltac enter_route :=
  unfold bind; rewrite Hparam;
  rewrite (getData_current env w Hfile Hseries); simpl deref;
  rewrite Hseries; cbn [deref ret]; rewrite Hindex, Hnth; cbn [deref ret];
  destruct (episode_at_valid s Hz Hepisode) as [Hge Hat];
  rewrite Hge, Hat; cbn [deref ret].

Lemma uploadEpisodeThumbnail_run (f : UploadedFile) :
  uploadEpisodeThumbnail env seriesId param (Some f) w
  = (Ok (mkResponse 200 (BFile (f_key f) (getS3Url env (f_key f)))),
     mkWorld (JsonDoc (store_episode d ss i s (Some z)
                         (set_e_thumbnail e (Some (getS3Url env (f_key f))))))
             (w_deleted w ++ refKeys (e_thumbnail e)) (w_uuids w)).
Proof.
  unfold uploadEpisodeThumbnail. enter_route.
  rewrite when_deleteRef_run. reflexivity.
Qed.

Lemma uploadMusic_run (f : UploadedFile) :
  uploadMusic env seriesId param (Some f) w
  = (Ok (mkResponse 200 (BMusic (f_key f) (f_originalname f)
                                (getS3Url env (f_key f)))),
     mkWorld (JsonDoc (store_episode d ss i s (Some z)
                         (set_e_music e (Some (getS3Url env (f_key f)))
                                      (Some (f_originalname f)))))
             (w_deleted w ++ refKeys (e_music e)) (w_uuids w)).
Proof.
  unfold uploadMusic. enter_route.
  rewrite when_deleteRef_run. reflexivity.
Qed.

Lemma deleteMusic_run :
  deleteMusic env seriesId param w
  = (Ok (mkResponse 200 BSuccess),
     if truthy_str (e_music e)
     then mkWorld (JsonDoc (store_episode d ss i s (Some z)
                              (set_e_music e None None)))
                  (w_deleted w ++ refKeys (e_music e)) (w_uuids w)
     else w).
Proof.
  unfold deleteMusic. enter_route.
  unfold when, refKeys. destruct (truthy_str (e_music e)).
  - unfold bind. rewrite deleteRef_run. reflexivity.
  - reflexivity.
Qed.

Lemma map_M_mediaOfFile (fs : list UploadedFile) :
  forall w0,
    map_M (mediaOfFile env) fs w0
    = (Ok (mediaFrom env (w_uuids w0) fs),
       mkWorld (w_file w0) (w_deleted w0) (w_uuids w0 + List.length fs)).
Proof.
  induction fs as [|f fs IH]; intros w0; simpl.
  - unfold ret. destruct w0; simpl. now rewrite Nat.add_0_r.
  - unfold bind, mediaOfFile, bind, uuidv4, ret. rewrite IH. simpl.
    do 2 f_equal. lia.
Qed.

Lemma uploadMedia_run (f : UploadedFile) (fs : list UploadedFile) :
  uploadMedia env seriesId param (Some (f :: fs)) w
  = (Ok (mkResponse 200 (BFiles (mediaFrom env (w_uuids w) (f :: fs)))),
     mkWorld (JsonDoc (store_episode d ss i s (Some z)
                         (set_media e (e_media e
                                       ++ mediaFrom env (w_uuids w) (f :: fs)))))
             (w_deleted w) (w_uuids w + List.length (f :: fs))).
Proof.
  unfold uploadMedia, bind. rewrite Hparam.
  rewrite (getData_current env w Hfile Hseries). simpl deref.
  rewrite Hseries. cbn [deref ret]. rewrite Hindex, Hnth. cbn [deref ret].
  destruct (episode_at_valid s Hz Hepisode) as [Hge Hat].
  rewrite Hge, map_M_mediaOfFile, Hat. reflexivity.
Qed.

Lemma deleteMedia_run (mediaId : string) (j : nat) (m : MediaItem) :
  findIndex (is_id mediaId) (e_media e) = Some j ->
  nth_error (e_media e) j = Some m ->
  deleteMedia env seriesId param mediaId w
  = (Ok (mkResponse 200 BSuccess),
     mkWorld (JsonDoc (store_episode d ss i s (Some z)
                         (set_media e (splice1 j (e_media e)))))
             (w_deleted w ++ ref_list (getKeyFromUrl (Some (m_url m))))
             (w_uuids w)).
Proof.
  intros Hj Hm. unfold deleteMedia. enter_route.
  fold (is_id mediaId). rewrite Hj, Hm. cbn [deref ret].
  unfold bind. rewrite deleteRef_run. reflexivity.
Qed.

Lemma deleteMedia_not_found (mediaId : string) :
  findIndex (is_id mediaId) (e_media e) = None ->
  deleteMedia env seriesId param mediaId w
  = (Ok (mkResponse 404 (BError "Media not found")), w).
Proof.
  intros Hj. unfold deleteMedia. enter_route.
  fold (is_id mediaId). rewrite Hj. reflexivity.
Qed.

End EpisodeRuns.

(** The document after an episode has been stored, seen by the next
    request. *)
Lemma after_store (d : Document) (ss : list Series) (seriesId : string)
      (i : nat) (s : Series) (z : Z) (e e1 : Episode) :
  findIndex (has_id seriesId) ss = Some i -> nth_error ss i = Some s ->
  nth_error (s_episodes s) (Z.to_nat z) = Some e ->
  let s1 := set_episodes s (set_nth (Z.to_nat z) e1 (s_episodes s)) in
  series (store_episode d ss i s (Some z) e1) = Some (set_nth i s1 ss)
  /\ findIndex (has_id seriesId) (set_nth i s1 ss) = Some i
  /\ nth_error (set_nth i s1 ss) i = Some s1
  /\ nth_error (s_episodes s1) (Z.to_nat z) = Some e1.
Proof.
  intros Hi Hnth He s1. split; [reflexivity|]. split; [|split].
  - apply findIndex_set_nth; [exact Hi|].
    destruct (findIndex_Some _ _ Hi) as (x & Hx & Hp & _).
    rewrite Hnth in Hx. injection Hx as <-. exact Hp.
  - now apply nth_error_set_nth_eq with (y := s).
  - simpl. now apply nth_error_set_nth_eq with (y := e).
Qed.

Lemma store_episode_twice (d : Document) (ss : list Series) (i : nat)
      (s : Series) (z : Z) (e1 e2 : Episode) :
  let s1 := set_episodes s (set_nth (Z.to_nat z) e1 (s_episodes s)) in
  store_episode (store_episode d ss i s (Some z) e1) (set_nth i s1 ss) i s1
                (Some z) e2
  = store_episode d ss i s (Some z) e2.
Proof.
  unfold store_episode, set_series, set_episodes. simpl.
  now rewrite !set_nth_twice.
Qed.

Lemma store_episode_same (d : Document) (ss : list Series) (i : nat)
      (s : Series) (z : Z) (e : Episode) :
  series d = Some ss -> nth_error ss i = Some s ->
  nth_error (s_episodes s) (Z.to_nat z) = Some e ->
  store_episode d ss i s (Some z) e = d.
Proof.
  intros Hs Hnth He. unfold store_episode. simpl.
  rewrite (set_nth_same _ _ He).
  replace (set_episodes s (s_episodes s)) with s by (now destruct s).
  rewrite (set_nth_same _ _ Hnth). now apply set_series_same.
Qed.

Lemma refKeys_getS3Url (env : Env) (key : string) :
  plain_host env -> dot_plus_to_end key = true ->
  refKeys (Some (getS3Url env key)) = [key].
Proof.
  intros Hp Hk. unfold refKeys.
  rewrite key_of_stored_url by assumption.
  unfold getS3Url. reflexivity.
Qed.

(** ** [POST /series/:seriesId/upload/thumbnail] *)

Lemma uploadSeriesThumbnail_run (env : Env) (w : World) (d : Document)
      (ss : list Series) (seriesId : string) (i : nat) (s : Series)
      (f : UploadedFile) :
  w_file w = JsonDoc d -> series d = Some ss ->
  findIndex (has_id seriesId) ss = Some i -> nth_error ss i = Some s ->
  uploadSeriesThumbnail env seriesId (Some f) w
  = (Ok (mkResponse 200 (BFile (f_key f) (getS3Url env (f_key f)))),
     mkWorld (JsonDoc (set_series d
                         (set_nth i (set_s_thumbnail s
                                       (Some (getS3Url env (f_key f)))) ss)))
             (w_deleted w ++ refKeys (s_thumbnail s)) (w_uuids w)).
Proof.
  intros Hf Hs Hi Hnth. unfold uploadSeriesThumbnail, bind.
  rewrite (getData_current env w Hf Hs). simpl deref.
  rewrite Hs. cbn [deref ret]. rewrite Hi, Hnth. cbn [deref ret].
  rewrite when_deleteRef_run. reflexivity.
Qed.

(** X4.  Replacing a series thumbnail deletes the object uploaded before:
    after an upload of [f1], an upload of [f2] for the same series answers
    the URL of [f2], persists it as the only thumbnail of the series (every
    other series untouched), and has called [deleteFromS3] on the key of
    [f1], after whatever the first upload deleted.  (Bucket and region
    without slash; key of [f1] non-empty and without the line terminators
    LF, CR, U+2028 and U+2029.) *)
Theorem series_thumbnail_replacement (env : Env) (w : World) (d : Document)
        (ss : list Series) (seriesId : string) (i : nat) (s : Series)
        (f1 f2 : UploadedFile) :
  w_file w = JsonDoc d -> series d = Some ss ->
  findIndex (has_id seriesId) ss = Some i -> nth_error ss i = Some s ->
  plain_host env -> dot_plus_to_end (f_key f1) = true ->
  uploadSeriesThumbnail env seriesId (Some f2)
    (snd (uploadSeriesThumbnail env seriesId (Some f1) w))
  = (Ok (mkResponse 200 (BFile (f_key f2) (getS3Url env (f_key f2)))),
     mkWorld (JsonDoc (set_series d
                         (set_nth i (set_s_thumbnail s
                                       (Some (getS3Url env (f_key f2)))) ss)))
             (w_deleted w ++ refKeys (s_thumbnail s) ++ [f_key f1])
             (w_uuids w)).
Proof.
  intros Hf Hs Hi Hnth Hp Hk.
  rewrite (uploadSeriesThumbnail_run env w seriesId f1 Hf Hs Hi Hnth).
  cbn [snd].
  set (s1 := set_s_thumbnail s (Some (getS3Url env (f_key f1)))).
  assert (Hi1 : findIndex (has_id seriesId) (set_nth i s1 ss) = Some i).
  { apply findIndex_set_nth; [exact Hi|].
    destruct (findIndex_Some _ _ Hi) as (x & Hx & Hpx & _).
    rewrite Hnth in Hx. injection Hx as <-. exact Hpx. }
  assert (Hnth1 : nth_error (set_nth i s1 ss) i = Some s1)
    by (now apply nth_error_set_nth_eq with (y := s)).
  erewrite uploadSeriesThumbnail_run;
    [| reflexivity | reflexivity | exact Hi1 | exact Hnth1].
  cbn [w_deleted w_uuids].
  replace (refKeys (s_thumbnail s1)) with [f_key f1]
    by (symmetry; apply refKeys_getS3Url; assumption).
  rewrite <- app_assoc.
  f_equal. f_equal. f_equal. unfold set_series. cbn [series showTitle episodeCount episodes].
  now rewrite set_nth_twice.
Qed.

Lemma series_thumbnail_replacement_witness :
  w_deleted
    (snd (uploadSeriesThumbnail sample_env "s2" (Some sample_file2)
            (snd (uploadSeriesThumbnail sample_env "s2" (Some sample_file)
                    (world_of (JsonDoc sample_doc))))))
  = ["media/n.png"].
Proof.
  rewrite (@series_thumbnail_replacement sample_env
             (world_of (JsonDoc sample_doc)) sample_doc
             [sample_series; two_episode_series] "s2" 1%nat two_episode_series
             sample_file sample_file2 eq_refl eq_refl eq_refl eq_refl
             sample_env_plain eq_refl).
  reflexivity.
Defined.

(** ** [POST /series/:seriesId/upload/media/:episodeIndex] *)

Lemma mediaFrom_facts (env : Env) (fs : list UploadedFile) :
  forall n,
    List.length (mediaFrom env n fs) = List.length fs
    /\ List.map m_filename (mediaFrom env n fs) = List.map f_key fs
    /\ List.map m_originalName (mediaFrom env n fs)
       = List.map f_originalname fs
    /\ List.map m_url (mediaFrom env n fs)
       = List.map (fun f => getS3Url env (f_key f)) fs
    /\ List.map m_type (mediaFrom env n fs)
       = List.map (fun f => if isVideo env (f_originalname f)
                            then "video" else "image") fs
    /\ List.map m_id (mediaFrom env n fs)
       = List.map (uuid_gen env) (seq n (List.length fs)).
Proof.
  induction fs as [|f fs IH]; intros n; simpl.
  - repeat split.
  - destruct (IH (S n)) as (H1 & H2 & H3 & H4 & H5 & H6).
    now rewrite H1, H2, H3, H4, H5, H6.
Qed.

(** X5.  A media upload on a valid series id and episode index appends one
    item per uploaded file, in the order of the upload, after the media the
    episode already has: the items carry the files' keys and names, the
    URL of each key, the type by [isVideo], and the next ids of the
    generator.  Nothing is deleted. *)
Theorem uploadMedia_appends (env : Env) (w : World) (d : Document)
        (ss : list Series) (seriesId : string) (i : nat) (s : Series)
        (param : string) (z : Z) (e : Episode) (f : UploadedFile)
        (fs : list UploadedFile) :
  w_file w = JsonDoc d -> series d = Some ss ->
  findIndex (has_id seriesId) ss = Some i -> nth_error ss i = Some s ->
  parseInt param = Some z -> 0 <= z ->
  nth_error (s_episodes s) (Z.to_nat z) = Some e ->
  exists newMedia,
    uploadMedia env seriesId param (Some (f :: fs)) w
    = (Ok (mkResponse 200 (BFiles newMedia)),
       mkWorld (JsonDoc (store_episode d ss i s (Some z)
                           (set_media e (e_media e ++ newMedia))))
               (w_deleted w) (w_uuids w + List.length (f :: fs)))
    /\ List.map m_filename newMedia = List.map f_key (f :: fs)
    /\ List.map m_originalName newMedia = List.map f_originalname (f :: fs)
    /\ List.map m_url newMedia
       = List.map (fun f => getS3Url env (f_key f)) (f :: fs)
    /\ List.map m_type newMedia
       = List.map (fun f => if isVideo env (f_originalname f)
                            then "video" else "image") (f :: fs)
    /\ List.map m_id newMedia
       = List.map (uuid_gen env) (seq (w_uuids w) (List.length (f :: fs))).
Proof.
  intros Hf Hs Hi Hnth Hp Hz He.
  exists (mediaFrom env (w_uuids w) (f :: fs)).
  split; [eapply uploadMedia_run; eassumption|].
  destruct (mediaFrom_facts env (f :: fs) (w_uuids w))
    as (_ & H2 & H3 & H4 & H5 & H6).
  auto.
Qed.

Lemma uploadMedia_appends_witness :
  exists newMedia,
    fst (uploadMedia sample_env "s1" "0" (Some [sample_file; sample_file2])
                     (world_of (JsonDoc sample_doc)))
    = Ok (mkResponse 200 (BFiles newMedia))
    /\ List.map m_filename newMedia = ["media/n.png"; "media/o.mp4"]
    /\ List.map m_id newMedia = ["uuid-0"; "uuid-1"].
Proof.
  destruct (@uploadMedia_appends sample_env (world_of (JsonDoc sample_doc))
              sample_doc [sample_series; two_episode_series] "s1" 0%nat
              sample_series "0" 0 sample_episode sample_file [sample_file2]
              eq_refl eq_refl eq_refl eq_refl eq_refl (Z.le_refl 0) eq_refl)
    as (newMedia & Hrun & Hk & _ & _ & _ & Hid).
  exists newMedia. rewrite Hrun. auto.
Defined.

(** *** Distinct media ids *)

Lemma string_of_Z_injective (a b : Z) : string_of_Z a = string_of_Z b -> a = b.
Proof.
  unfold string_of_Z. intros H.
  assert (Hnz : forall z, Z.to_int z <> Decimal.Pos Decimal.Nil
                          /\ Z.to_int z <> Decimal.Neg Decimal.Nil).
  { intros z. split; intros E;
      pose proof (DecimalZ.of_to z) as Hz; rewrite E in Hz;
      simpl in Hz; subst z; discriminate E. }
  apply (f_equal NilZero.int_of_string) in H.
  rewrite !NilZero.isi in H by apply Hnz.
  injection H as H.
  rewrite <- (DecimalZ.of_to a), <- (DecimalZ.of_to b). now rewrite H.
Qed.

Lemma sample_uuid_injective (a b : nat) :
  uuid_gen sample_env a = uuid_gen sample_env b -> a = b.
Proof.
  simpl. intros H. injection H as H.
  apply string_of_Z_injective in H. lia.
Qed.

Lemma NoDup_map_injective {A B} (f : A -> B) (l : list A) :
  (forall a b, f a = f b -> a = b) -> NoDup l -> NoDup (List.map f l).
Proof.
  intros Hinj Hnd. induction Hnd as [|x l Hx Hnd IH]; simpl; constructor.
  - intros Hin. apply in_map_iff in Hin. destruct Hin as (y & Hy & Hyin).
    apply Hinj in Hy. now subst.
  - exact IH.
Qed.

(** X6.  Uploads keep the media ids of an episode distinct: when the id
    generator never repeats itself and the ids of the episode's media are
    distinct and were all generated earlier, the same holds of the media
    the upload persists. *)
Theorem uploadMedia_keeps_ids_distinct (env : Env) (w : World) (d : Document)
        (ss : list Series) (seriesId : string) (i : nat) (s : Series)
        (param : string) (z : Z) (e : Episode) (f : UploadedFile)
        (fs : list UploadedFile) :
  w_file w = JsonDoc d -> series d = Some ss ->
  findIndex (has_id seriesId) ss = Some i -> nth_error ss i = Some s ->
  parseInt param = Some z -> 0 <= z ->
  nth_error (s_episodes s) (Z.to_nat z) = Some e ->
  (forall a b, uuid_gen env a = uuid_gen env b -> a = b) ->
  NoDup (List.map m_id (e_media e)) ->
  generated_before env (w_uuids w) (e_media e) ->
  exists media' resp,
    uploadMedia env seriesId param (Some (f :: fs)) w
    = (Ok resp,
       mkWorld (JsonDoc (store_episode d ss i s (Some z) (set_media e media')))
               (w_deleted w) (w_uuids w + List.length (f :: fs)))
    /\ NoDup (List.map m_id media')
    /\ generated_before env (w_uuids w + List.length (f :: fs)) media'.
Proof.
  intros Hf Hs Hi Hnth Hp Hz He Hinj Hnd Hgen.
  eexists; eexists.
  split; [eapply uploadMedia_run; eassumption|].
  destruct (mediaFrom_facts env (f :: fs) (w_uuids w))
    as (_ & _ & _ & _ & _ & Hids).
  split.
  - rewrite map_app. apply NoDup_app; [exact Hnd | |].
    + rewrite Hids. apply NoDup_map_injective; [exact Hinj | apply seq_NoDup].
    + intros a Hold Hnew. rewrite Hids in Hnew.
      apply in_map_iff in Hold. destruct Hold as (m & <- & Hm).
      destruct (Hgen m Hm) as (k & Hk & Hmk).
      apply in_map_iff in Hnew. destruct Hnew as (k' & Hk' & Hin).
      apply in_seq in Hin. rewrite Hmk in Hk'. apply Hinj in Hk'. lia.
  - intros m Hm. apply in_app_or in Hm. destruct Hm as [Hm | Hm].
    + destruct (Hgen m Hm) as (k & Hk & Hmk). exists k. split; [lia|exact Hmk].
    + assert (Hin : In (m_id m) (List.map m_id (mediaFrom env (w_uuids w) (f :: fs))))
        by (now apply in_map).
      rewrite Hids in Hin. apply in_map_iff in Hin.
      destruct Hin as (k & Hk & Hkin). apply in_seq in Hkin.
      exists k. split; [lia | now symmetry].
Qed.

Lemma uploadMedia_keeps_ids_distinct_witness :
  snd (uploadMedia sample_env "s2" "1" (Some [sample_file; sample_file2])
                   (world_of (JsonDoc sample_doc)))
  = uploaded_world
  /\ List.map m_id (e_media uploaded_episode) = ["uuid-0"; "uuid-1"]
  /\ exists media' resp,
       uploadMedia sample_env "s2" "1" (Some [sample_file2; sample_file])
                   uploaded_world
       = (Ok resp,
          mkWorld (JsonDoc (store_episode uploaded_doc
                              [sample_series; uploaded_series]
                              1 uploaded_series (Some 1)
                              (set_media uploaded_episode media')))
                  [] 4)
       /\ List.length media' = 4%nat
       /\ NoDup (List.map m_id media').
Proof.
  split; [reflexivity|]. split; [reflexivity|].
  destruct (@uploadMedia_keeps_ids_distinct sample_env uploaded_world
              uploaded_doc [sample_series; uploaded_series] "s2" 1%nat
              uploaded_series "1" 1 uploaded_episode sample_file2
              [sample_file] eq_refl eq_refl eq_refl eq_refl eq_refl)
    as (media' & resp & Hrun & Hnd & _).
  - lia.
  - reflexivity.
  - exact sample_uuid_injective.
  - repeat constructor; simpl; intuition discriminate.
  - intros m [<- | [<- | []]]; [exists 0%nat | exists 1%nat];
      (split; [simpl; lia | reflexivity]).
  - exists media', resp. split; [exact Hrun|].
    assert (Hw := Hrun).
    unfold uploadMedia in Hw. vm_compute in Hw.
    split; [|exact Hnd].
    injection Hw as _ Hw.
    apply (f_equal (@List.length MediaItem)) in Hw. simpl in Hw.
    symmetry. exact Hw.
Defined.

(** ** [DELETE /series/:seriesId/media/:episodeIndex/:mediaId] *)

Lemma splice1_filter (media : list MediaItem) (mediaId : string) (j : nat) :
  NoDup (List.map m_id media) ->
  findIndex (is_id mediaId) media = Some j ->
  splice1 j media = List.filter (fun m => negb (is_id mediaId m)) media.
Proof.
  intros Hnd Hj.
  destruct (findIndex_Some _ _ Hj) as (m & Hm & Hid & _).
  unfold is_id in Hid. apply String.eqb_eq in Hid.
  destruct (nth_error_split media j Hm) as (l1 & l2 & -> & <-).
  rewrite splice1_app, filter_app. simpl.
  unfold is_id at 2. rewrite Hid, String.eqb_refl. simpl.
  rewrite map_app in Hnd. simpl in Hnd. rewrite Hid in Hnd.
  apply NoDup_remove_2 in Hnd.
  rewrite !filter_none_id; [reflexivity | |];
    intros Hin; apply Hnd; apply in_or_app; auto.
Qed.

(** X7.  Deleting a media item on a valid series id and episode index,
    the media ids of the episode being distinct: when the id is among
    them, the route persists the episode's media without that item, the
    others in their order (one item fewer, ids still distinct), and calls
    [deleteFromS3] for the key of that item's URL only, if it resolves to
    one; when the id is not among them it answers 404 and changes
    nothing. *)
Theorem deleteMedia_removes_one (env : Env) (w : World) (d : Document)
        (ss : list Series) (seriesId : string) (i : nat) (s : Series)
        (param : string) (z : Z) (e : Episode) (mediaId : string) :
  w_file w = JsonDoc d -> series d = Some ss ->
  findIndex (has_id seriesId) ss = Some i -> nth_error ss i = Some s ->
  parseInt param = Some z -> 0 <= z ->
  nth_error (s_episodes s) (Z.to_nat z) = Some e ->
  NoDup (List.map m_id (e_media e)) ->
  (In mediaId (List.map m_id (e_media e)) ->
   exists m media',
     List.find (is_id mediaId) (e_media e) = Some m
     /\ media' = List.filter (fun x => negb (is_id mediaId x)) (e_media e)
     /\ deleteMedia env seriesId param mediaId w
        = (Ok (mkResponse 200 BSuccess),
           mkWorld (JsonDoc (store_episode d ss i s (Some z)
                               (set_media e media')))
                   (w_deleted w ++ ref_list (getKeyFromUrl (Some (m_url m))))
                   (w_uuids w))
     /\ S (List.length media') = List.length (e_media e)
     /\ ~ In mediaId (List.map m_id media')
     /\ NoDup (List.map m_id media'))
  /\ (~ In mediaId (List.map m_id (e_media e)) ->
      deleteMedia env seriesId param mediaId w
      = (Ok (mkResponse 404 (BError "Media not found")), w)).
Proof.
  intros Hf Hs Hi Hnth Hp Hz He Hnd. split.
  - intros Hin.
    apply in_map_iff in Hin. destruct Hin as (x & Hx & Hxin).
    destruct (findIndex_In (is_id mediaId) (e_media e) x Hxin) as [j Hj].
    { unfold is_id. rewrite Hx. apply String.eqb_refl. }
    destruct (findIndex_Some _ _ Hj) as (m & Hm & Hid & _).
    exists m, (List.filter (fun x => negb (is_id mediaId x)) (e_media e)).
    split; [exact (findIndex_find _ _ Hj Hm)|]. split; [reflexivity|].
    assert (Hsp : splice1 j (e_media e)
                  = List.filter (fun x => negb (is_id mediaId x)) (e_media e))
      by (apply splice1_filter; assumption).
    rewrite <- Hsp.
    split; [eapply deleteMedia_run; eassumption|].
    destruct (nth_error_split (e_media e) j Hm) as (l1 & l2 & Hl & Hlen).
    split; [|rewrite Hsp; split].
    + subst j. rewrite Hl, splice1_app.
      rewrite !length_app. simpl. lia.
    + intros Hin. apply in_map_iff in Hin. destruct Hin as (y & Hy & Hyin).
      apply filter_In in Hyin. destruct Hyin as [_ Hneg].
      unfold is_id in Hneg. rewrite Hy, String.eqb_refl in Hneg. discriminate.
    + now apply NoDup_map_filter.
  - intros Hnot. eapply deleteMedia_not_found; try eassumption.
    destruct (findIndex (is_id mediaId) (e_media e)) as [j|] eqn:Hj;
      [|reflexivity].
    destruct (findIndex_Some _ _ Hj) as (m & Hm & Hid & _).
    exfalso. apply Hnot. apply in_map_iff. exists m.
    unfold is_id in Hid. apply String.eqb_eq in Hid.
    split; [exact Hid | eapply nth_error_In; exact Hm].
Qed.

Lemma deleteMedia_removes_one_witness :
  deleteMedia sample_env "s1" "0" "b" (world_of (JsonDoc sample_doc))
  = (Ok (mkResponse 200 BSuccess),
     world_of (JsonDoc (doc_of_series
        [set_episodes sample_series
           [set_media sample_episode [media_a; media_c]];
         two_episode_series])))
  /\ deleteMedia sample_env "s1" "0" "zz" (world_of (JsonDoc sample_doc))
     = (Ok (mkResponse 404 (BError "Media not found")),
        world_of (JsonDoc sample_doc)).
Proof.
  destruct (@deleteMedia_removes_one sample_env (world_of (JsonDoc sample_doc))
              sample_doc [sample_series; two_episode_series] "s1" 0%nat
              sample_series "0" 0 sample_episode "b"
              eq_refl eq_refl eq_refl eq_refl eq_refl (Z.le_refl 0) eq_refl)
    as [Hin _].
  { repeat constructor; simpl; intuition discriminate. }
  destruct (@deleteMedia_removes_one sample_env (world_of (JsonDoc sample_doc))
              sample_doc [sample_series; two_episode_series] "s1" 0%nat
              sample_series "0" 0 sample_episode "zz"
              eq_refl eq_refl eq_refl eq_refl eq_refl (Z.le_refl 0) eq_refl)
    as [_ Hout].
  { repeat constructor; simpl; intuition discriminate. }
  split.
  - destruct Hin as (m & media' & Hfind & Hmedia & Hrun & _).
    { simpl. right. left. reflexivity. }
    injection Hfind as <-. subst media'. exact Hrun.
  - apply Hout. simpl. intuition discriminate.
Defined.

(** ** Episode music *)

(** X8.  Deleting the music of an episode is idempotent: on a valid series
    id and episode index the route answers success, and a second call
    answers success again without writing or deleting anything.  After the
    first call the episode has no music (if it had a truthy one, its key,
    when the reference resolves, was deleted once). *)
Theorem deleteMusic_idempotent (env : Env) (w : World) (d : Document)
        (ss : list Series) (seriesId : string) (i : nat) (s : Series)
        (param : string) (z : Z) (e : Episode) :
  w_file w = JsonDoc d -> series d = Some ss ->
  findIndex (has_id seriesId) ss = Some i -> nth_error ss i = Some s ->
  parseInt param = Some z -> 0 <= z ->
  nth_error (s_episodes s) (Z.to_nat z) = Some e ->
  exists w1,
    deleteMusic env seriesId param w = (Ok (mkResponse 200 BSuccess), w1)
    /\ deleteMusic env seriesId param w1 = (Ok (mkResponse 200 BSuccess), w1)
    /\ w_deleted w1
       = w_deleted w ++ (if truthy_str (e_music e) then refKeys (e_music e)
                         else []).
Proof.
  intros Hf Hs Hi Hnth Hp Hz He.
  eexists. split; [eapply deleteMusic_run; eassumption|].
  destruct (truthy_str (e_music e)) eqn:Ht.
  - destruct (after_store d ss seriesId z (set_e_music e None None) Hi Hnth He)
      as (Hs1 & Hi1 & Hnth1 & He1).
    split; [|reflexivity].
    erewrite deleteMusic_run;
      [| reflexivity | exact Hs1 | exact Hi1 | exact Hnth1 | exact Hp
       | exact Hz | exact He1].
    reflexivity.
  - split; [|now rewrite app_nil_r].
    erewrite deleteMusic_run; try eassumption. now rewrite Ht.
Qed.

Lemma deleteMusic_idempotent_witness :
  exists w1,
    deleteMusic sample_env "s1" "0" (world_of (JsonDoc sample_doc))
    = (Ok (mkResponse 200 BSuccess), w1)
    /\ deleteMusic sample_env "s1" "0" w1 = (Ok (mkResponse 200 BSuccess), w1).
Proof.
  destruct (@deleteMusic_idempotent sample_env (world_of (JsonDoc sample_doc))
              sample_doc [sample_series; two_episode_series] "s1" 0%nat
              sample_series "0" 0 sample_episode
              eq_refl eq_refl eq_refl eq_refl eq_refl (Z.le_refl 0) eq_refl)
    as (w1 & H1 & H2 & _).
  exists w1. split; assumption.
Defined.

(** X9.  Uploading music to an episode that has none and deleting it again
    deletes exactly the uploaded object and persists the document in which
    that episode's [music] and [musicOriginalName] are [null] and all else
    is as before the upload.  An attribute that is absent and one that is
    [null] are the same [None] here, and in that reading (not byte for
    byte: the two attributes may have been absent from the file before and
    are written as [null] now) this is the document as it was.  (Bucket and
    region without slash; key non-empty and without the line terminators
    LF, CR, U+2028 and U+2029.) *)
Theorem uploadMusic_then_deleteMusic (env : Env) (w : World) (d : Document)
        (ss : list Series) (seriesId : string) (i : nat) (s : Series)
        (param : string) (z : Z) (e : Episode) (f : UploadedFile) :
  w_file w = JsonDoc d -> series d = Some ss ->
  findIndex (has_id seriesId) ss = Some i -> nth_error ss i = Some s ->
  parseInt param = Some z -> 0 <= z ->
  nth_error (s_episodes s) (Z.to_nat z) = Some e ->
  e_music e = None -> e_musicOriginalName e = None ->
  plain_host env -> dot_plus_to_end (f_key f) = true ->
  deleteMusic env seriesId param (snd (uploadMusic env seriesId param (Some f) w))
  = (Ok (mkResponse 200 BSuccess),
     mkWorld (JsonDoc (store_episode d ss i s (Some z) (set_e_music e None None)))
             (w_deleted w ++ [f_key f]) (w_uuids w))
  /\ store_episode d ss i s (Some z) (set_e_music e None None) = d.
Proof.
  intros Hf Hs Hi Hnth Hp Hz He Hmu Hor Hhost Hk.
  assert (Hsame : store_episode d ss i s (Some z) (set_e_music e None None) = d).
  { replace (set_e_music e None None) with e
      by (destruct e; simpl in *; subst; reflexivity).
    apply (store_episode_same d i z Hs Hnth He). }
  split; [|exact Hsame].
  erewrite uploadMusic_run by eassumption. cbn [snd].
  set (e1 := set_e_music e (Some (getS3Url env (f_key f)))
                         (Some (f_originalname f))).
  destruct (after_store d ss seriesId z e1 Hi Hnth He)
    as (Hs1 & Hi1 & Hnth1 & He1).
  erewrite deleteMusic_run;
    [| reflexivity | exact Hs1 | exact Hi1 | exact Hnth1 | exact Hp
     | exact Hz | exact He1].
  assert (Hkeys : refKeys (e_music e1) = [f_key f])
    by (apply refKeys_getS3Url; assumption).
  assert (Htruthy : truthy_str (e_music e1) = true) by reflexivity.
  rewrite Htruthy, Hkeys. cbn [w_deleted w_uuids].
  rewrite store_episode_twice.
  change (set_e_music e1 None None) with (set_e_music e None None).
  unfold refKeys. rewrite Hmu. simpl. now rewrite app_nil_r.
Qed.

Lemma uploadMusic_then_deleteMusic_witness :
  deleteMusic sample_env "s2" "0"
    (snd (uploadMusic sample_env "s2" "0" (Some (mkFile "music/x.mp3" "x.mp3"))
                      (world_of (JsonDoc sample_doc))))
  = (Ok (mkResponse 200 BSuccess),
     mkWorld (JsonDoc sample_doc) ["music/x.mp3"] O).
Proof.
  destruct (@uploadMusic_then_deleteMusic sample_env
              (world_of (JsonDoc sample_doc)) sample_doc
              [sample_series; two_episode_series] "s2" 1%nat two_episode_series
              "0" 0 (newEpisode 1) (mkFile "music/x.mp3" "x.mp3")
              eq_refl eq_refl eq_refl eq_refl eq_refl (Z.le_refl 0)
              eq_refl eq_refl eq_refl sample_env_plain eq_refl)
    as [Hrun Hsame].
  rewrite Hrun. reflexivity.
Defined.

(** ** What the episode routes never change *)

Lemma same_shapes_consistent (l : list Series) :
  forall ss, List.map series_shape l = List.map series_shape ss ->
             Forall consistent ss -> Forall consistent l.
Proof.
  induction l as [|a l IH]; intros ss Hshape Hall; [constructor|].
  destruct ss as [|b ss]; [discriminate|].
  simpl in Hshape. unfold series_shape at 1 3 in Hshape.
  injection Hshape as _ Hc Hl Hrest.
  inversion Hall as [|? ? Hb Hall']; subst.
  constructor; [|now apply (IH ss)].
  unfold consistent in *. now rewrite Hc, Hl.
Qed.

Lemma shapes_consistent (w' : World) (ss : list Series) :
  Forall consistent ss ->
  persisted_shapes w' (List.map series_shape ss) -> persisted_consistent w'.
Proof.
  intros Hall (d' & ss' & Hf & Hs & Hshape).
  exists d', ss'. split; [exact Hf|]. split; [exact Hs|].
  now apply same_shapes_consistent with (ss := ss).
Qed.

Section Shapes.

Variable env : Env.
Variables (w : World) (d : Document) (ss : list Series).
Hypothesis Hfile : w_file w = JsonDoc d.
Hypothesis Hseries : series d = Some ss.

Lemma shapes_same_file (w' : World) :
  w_file w' = JsonDoc d -> persisted_shapes w' (List.map series_shape ss).
Proof. intros H. exists d, ss. auto. Qed.

Lemma shapes_store (w' : World) (i : nat) (s : Series) (idx : option Z)
      (e' : Episode) :
  nth_error ss i = Some s ->
  w_file w' = JsonDoc (store_episode d ss i s idx e') ->
  persisted_shapes w' (List.map series_shape ss).
Proof.
  intros Hnth H. eexists; eexists. split; [exact H|]. split; [reflexivity|].
  apply map_shape_set_nth with (s := s); [exact Hnth|].
  unfold series_shape. simpl. now rewrite length_set_nth.
Qed.

Lemma shapes_thumbnail (w' : World) (i : nat) (s : Series)
      (t : option string) :
  nth_error ss i = Some s ->
  w_file w' = JsonDoc (set_series d (set_nth i (set_s_thumbnail s t) ss)) ->
  persisted_shapes w' (List.map series_shape ss).
Proof.
  intros Hnth H. eexists; eexists. split; [exact H|]. split; [reflexivity|].
  now apply map_shape_set_nth with (s := s).
Qed.

Ltac enter_any :=
  unfold bind; rewrite (getData_current env w Hfile Hseries); simpl deref;
  rewrite Hseries; cbn [deref ret].

Ltac same_file := apply shapes_same_file; simpl; exact Hfile.

Ltac find_series seriesId i s Hnth :=
  destruct (findIndex (has_id seriesId) ss) as [i|] eqn:Hi; [|same_file];
  destruct (findIndex_Some _ _ Hi) as (s & Hnth & _);
  rewrite Hnth; cbn [deref ret].

Ltac check_index param s e :=
  destruct (index_ge_length (parseInt param) (List.length (s_episodes s)));
  [same_file|];
  destruct (episode_at (parseInt param) (s_episodes s)) as [e|];
  cbn [deref ret throw]; [|same_file].

Lemma uploadSeriesThumbnail_shapes (seriesId : string)
      (file : option UploadedFile) :
  persisted_shapes (snd (uploadSeriesThumbnail env seriesId file w))
                   (List.map series_shape ss).
Proof.
  unfold uploadSeriesThumbnail. destruct file as [f|]; [|same_file].
  enter_any. find_series seriesId i s Hnth.
  rewrite when_deleteRef_run.
  eapply shapes_thumbnail; [exact Hnth | reflexivity].
Qed.

Lemma uploadEpisodeThumbnail_shapes (seriesId param : string)
      (file : option UploadedFile) :
  persisted_shapes (snd (uploadEpisodeThumbnail env seriesId param file w))
                   (List.map series_shape ss).
Proof.
  unfold uploadEpisodeThumbnail. destruct file as [f|]; [|same_file].
  enter_any. find_series seriesId i s Hnth. check_index param s e.
  rewrite when_deleteRef_run.
  eapply shapes_store; [exact Hnth | reflexivity].
Qed.

Lemma uploadMedia_shapes (seriesId param : string)
      (files : option (list UploadedFile)) :
  persisted_shapes (snd (uploadMedia env seriesId param files w))
                   (List.map series_shape ss).
Proof.
  unfold uploadMedia. destruct files as [[|f fs]|]; try same_file.
  enter_any. find_series seriesId i s Hnth.
  destruct (index_ge_length (parseInt param) (List.length (s_episodes s)));
    [same_file|].
  rewrite map_M_mediaOfFile.
  destruct (episode_at (parseInt param) (s_episodes s)) as [e|];
    cbn [deref ret throw]; [|same_file].
  eapply shapes_store; [exact Hnth | reflexivity].
Qed.

Lemma uploadMusic_shapes (seriesId param : string)
      (file : option UploadedFile) :
  persisted_shapes (snd (uploadMusic env seriesId param file w))
                   (List.map series_shape ss).
Proof.
  unfold uploadMusic. destruct file as [f|]; [|same_file].
  enter_any. find_series seriesId i s Hnth. check_index param s e.
  rewrite when_deleteRef_run.
  eapply shapes_store; [exact Hnth | reflexivity].
Qed.

Lemma deleteMusic_shapes (seriesId param : string) :
  persisted_shapes (snd (deleteMusic env seriesId param w))
                   (List.map series_shape ss).
Proof.
  unfold deleteMusic.
  enter_any. find_series seriesId i s Hnth. check_index param s e.
  unfold when. destruct (truthy_str (e_music e)); [|same_file].
  unfold bind. rewrite deleteRef_run.
  eapply shapes_store; [exact Hnth | reflexivity].
Qed.

Lemma deleteMedia_shapes (seriesId param mediaId : string) :
  persisted_shapes (snd (deleteMedia env seriesId param mediaId w))
                   (List.map series_shape ss).
Proof.
  unfold deleteMedia.
  enter_any. find_series seriesId i s Hnth. check_index param s e.
  destruct (findIndex _ (e_media e)) as [j|]; [|same_file].
  destruct (nth_error (e_media e) j) as [m|]; cbn [deref ret throw];
    [|same_file].
  unfold bind. rewrite deleteRef_run.
  eapply shapes_store; [exact Hnth | reflexivity].
Qed.

Lemma reorder_shapes (seriesId param : string)
      (mediaIds : option (list string)) :
  persisted_shapes (snd (reorder env seriesId param mediaIds w))
                   (List.map series_shape ss).
Proof.
  unfold reorder. destruct mediaIds as [ids|]; [|same_file].
  enter_any. find_series seriesId i s Hnth. check_index param s e.
  eapply shapes_store; [exact Hnth | reflexivity].
Qed.

End Shapes.

(** X10.  On a document in the current shape, the thumbnail, media and
    music uploads, the music and media deletions and the reorder route
    never add, remove or renumber anything above the episode they address:
    whatever their parameters and whatever their outcome (success, 400,
    404 or an uncaught exception), the persisted document afterwards holds
    the same series, by id and in the same order, each with the same
    [episodeCount] and the same number of episodes; so if every series had
    as many episodes as its [episodeCount], it still has. *)
Theorem episode_routes_keep_shapes (env : Env) (w : World) (d : Document)
        (ss : list Series) :
  w_file w = JsonDoc d -> series d = Some ss ->
  forall w',
    (exists seriesId file,
        w' = snd (uploadSeriesThumbnail env seriesId file w))
    \/ (exists seriesId param file,
           w' = snd (uploadEpisodeThumbnail env seriesId param file w))
    \/ (exists seriesId param files,
           w' = snd (uploadMedia env seriesId param files w))
    \/ (exists seriesId param file,
           w' = snd (uploadMusic env seriesId param file w))
    \/ (exists seriesId param, w' = snd (deleteMusic env seriesId param w))
    \/ (exists seriesId param mediaId,
           w' = snd (deleteMedia env seriesId param mediaId w))
    \/ (exists seriesId param mediaIds,
           w' = snd (reorder env seriesId param mediaIds w)) ->
    persisted_shapes w' (List.map series_shape ss)
    /\ (Forall consistent ss -> persisted_consistent w').
Proof.
  intros Hf Hs w' Hw'.
  assert (H : persisted_shapes w' (List.map series_shape ss)).
  { destruct Hw' as [(a & b & ->) | [(a & b & c & ->) | [(a & b & c & ->)
      | [(a & b & c & ->) | [(a & b & ->) | [(a & b & c & ->)
      | (a & b & c & ->)]]]]]].
    - eapply uploadSeriesThumbnail_shapes; eassumption.
    - eapply uploadEpisodeThumbnail_shapes; eassumption.
    - eapply uploadMedia_shapes; eassumption.
    - eapply uploadMusic_shapes; eassumption.
    - eapply deleteMusic_shapes; eassumption.
    - eapply deleteMedia_shapes; eassumption.
    - eapply reorder_shapes; eassumption. }
  split; [exact H|]. intros Hall. now apply shapes_consistent with (ss := ss).
Qed.

Lemma episode_routes_keep_shapes_witness :
  persisted_shapes
    (snd (deleteMedia sample_env "s1" "0" "a" (world_of (JsonDoc sample_doc))))
    [("s1", 1, 1%nat); ("s2", 2, 2%nat)]
  /\ persisted_consistent
       (snd (reorder sample_env "s1" "-1" (Some ["a"])
                     (world_of (JsonDoc sample_doc)))).
Proof.
  split.
  - apply (@episode_routes_keep_shapes sample_env
             (world_of (JsonDoc sample_doc)) sample_doc
             [sample_series; two_episode_series] eq_refl eq_refl).
    do 5 right. left. exists "s1", "0", "a". reflexivity.
  - apply (@episode_routes_keep_shapes sample_env
             (world_of (JsonDoc sample_doc)) sample_doc
             [sample_series; two_episode_series] eq_refl eq_refl).
    + do 6 right. exists "s1", "-1", (Some ["a"]). reflexivity.
    + repeat constructor.
Defined.

(** ** Reordering twice *)

Lemma NoDup_map_eq {A B} (f : A -> B) (l : list A) :
  NoDup (List.map f l) ->
  forall x y, In x l -> In y l -> f x = f y -> x = y.
Proof.
  induction l as [|a l IH]; intros Hnd x y Hx Hy Hxy; [contradiction|].
  simpl in Hnd. inversion Hnd as [|? ? Hnot Hnd']; subst.
  destruct Hx as [<- | Hx], Hy as [<- | Hy]; auto.
  - exfalso. apply Hnot. rewrite Hxy. now apply in_map.
  - exfalso. apply Hnot. rewrite <- Hxy. now apply in_map.
Qed.

Lemma find_permutation (media r : list MediaItem) (id : string) :
  NoDup (List.map m_id media) -> Permutation r media ->
  List.find (is_id id) r = List.find (is_id id) media.
Proof.
  intros Hnd Hperm.
  destruct (List.find (is_id id) media) as [x|] eqn:Ex;
    destruct (List.find (is_id id) r) as [y|] eqn:Ey; try reflexivity.
  - apply find_some in Ex. apply find_some in Ey.
    destruct Ex as [Hx Hidx], Ey as [Hy Hidy].
    f_equal. apply (NoDup_map_eq m_id media Hnd).
    + eapply Permutation_in; eassumption.
    + exact Hx.
    + unfold is_id in *. apply String.eqb_eq in Hidx, Hidy. congruence.
  - apply find_some in Ex. destruct Ex as [Hx Hidx].
    apply (Permutation_in _ (Permutation_sym Hperm)) in Hx.
    rewrite (find_none _ _ Ey x Hx) in Hidx. discriminate.
  - apply find_some in Ey. destruct Ey as [Hy Hidy].
    apply (Permutation_in _ Hperm) in Hy.
    rewrite (find_none _ _ Ex y Hy) in Hidy. discriminate.
Qed.

Lemma dedup_subset (ids : list string) :
  forall seen x, In x (dedup seen ids) -> In x ids.
Proof.
  induction ids as [|id ids IH]; intros seen x H; simpl in *; [exact H|].
  destruct (mem_str id seen).
  - right. now apply (IH seen).
  - destruct H as [<- | H]; [now left | right; now apply (IH (id :: seen))].
Qed.

Lemma mentioned_in_ids (media : list MediaItem) (ids : list string)
      (m : MediaItem) :
  In m (mentioned media ids) -> In (m_id m) ids.
Proof.
  unfold mentioned. intros H. apply in_flat_map in H.
  destruct H as (id & Hid & Hm).
  apply dedup_subset in Hid. unfold pick in Hm.
  destruct (List.find _ media) as [x|] eqn:E; [|contradiction].
  destruct Hm as [<- | []].
  apply find_some in E. destruct E as [_ E].
  apply String.eqb_eq in E. now rewrite E.
Qed.

(** X11.  On media with distinct ids, reordering is stable: applying the
    same id list a second time changes nothing, an empty id list leaves the
    media as they are, and the ids stay distinct. *)
Theorem reorderMedia_idempotent (media : list MediaItem) (ids : list string) :
  NoDup (List.map m_id media) ->
  reorderMedia (reorderMedia media ids) ids = reorderMedia media ids
  /\ reorderMedia media [] = media
  /\ NoDup (List.map m_id (reorderMedia media ids)).
Proof.
  intros Hnd.
  assert (Hperm : Permutation (reorderMedia media ids) media)
    by (now apply reorderMedia_perm).
  assert (Hnd' : NoDup (List.map m_id (reorderMedia media ids))).
  { eapply Permutation_NoDup; [|exact Hnd].
    apply Permutation_map. now symmetry. }
  split; [|split; [|exact Hnd']].
  - pose proof (@reorderMedia_spec media ids Hnd) as HR.
    rewrite (@reorderMedia_spec (reorderMedia media ids) ids Hnd').
    transitivity (mentioned media ids ++ unmentioned media ids);
      [|symmetry; exact HR].
    f_equal.
    + unfold mentioned. apply flat_map_ext. intros id. unfold pick.
      fold (is_id id).
      now rewrite (@find_permutation media (reorderMedia media ids) id Hnd Hperm).
    + rewrite HR. unfold unmentioned at 1. rewrite filter_app.
      fold (unmentioned (mentioned media ids) ids).
      rewrite unmentioned_nil by (intros m; apply mentioned_in_ids).
      simpl. unfold unmentioned. rewrite filter_filter.
      apply filter_ext. intros m. now rewrite andb_diag.
  - rewrite reorderMedia_spec by exact Hnd.
    unfold mentioned, unmentioned. simpl.
    clear. induction media as [|a l IH]; simpl; [reflexivity|].
    now rewrite IH.
Qed.

Lemma reorderMedia_idempotent_witness :
  reorderMedia (reorderMedia [media_a; media_b; media_c] ["c"; "zz"; "a"])
               ["c"; "zz"; "a"]
  = [media_c; media_a; media_b].
Proof.
  destruct (@reorderMedia_idempotent [media_a; media_b; media_c]
              ["c"; "zz"; "a"]) as (H & _ & _).
  - repeat constructor; simpl; intuition discriminate.
  - rewrite H. reflexivity.
Defined.

(** ** Creating, looking up and deleting a series *)

Lemma find_app_fresh (p : Series -> bool) (ss : list Series) (s : Series) :
  (forall x, In x ss -> p x = false) -> p s = true ->
  List.find p (ss ++ [s]) = Some s
  /\ findIndex p (ss ++ [s]) = Some (List.length ss).
Proof.
  intros Hfresh Hs. induction ss as [|a l IH]; simpl.
  - now rewrite Hs.
  - rewrite (Hfresh a) by now left.
    destruct IH as [H1 H2]; [intros x Hx; apply Hfresh; now right|].
    now rewrite H1, H2.
Qed.

Lemma freshEpisodes_no_keys (k : nat) :
  forall from, flat_map episodeKeys (freshEpisodes from k) = [].
Proof. induction k as [|k IH]; intros from; simpl; [reflexivity | apply IH]. Qed.

(** X12.  A series created while its generated id is not yet in the
    document can be looked up by that id, and deleting it straight away
    restores the persisted document and calls no asset delete. *)
Theorem createSeries_lookup_delete (env : Env) (w : World) (d : Document)
        (ss : list Series) (title description : option string)
        (count : option Z) :
  w_file w = JsonDoc d -> series d = Some ss ->
  ~ In (uuid_gen env (w_uuids w)) (List.map s_id ss) ->
  exists s w1,
    createSeries env title description count w
    = (Ok (mkResponse 200 (BSeries s)), w1)
    /\ s_id s = uuid_gen env (w_uuids w)
    /\ getSeries env (s_id s) w1 = (Ok (mkResponse 200 (BSeries s)), w1)
    /\ deleteSeries env (s_id s) w1
       = (Ok (mkResponse 200 BSuccess),
          mkWorld (JsonDoc d) (w_deleted w) (S (w_uuids w))).
Proof.
  intros Hf Hs Hfresh.
  eexists; eexists.
  split; [apply (createSeries_current env w Hf Hs)|].
  set (s := mkSeries (uuid_gen env (w_uuids w)) _ _ None _ _ _).
  assert (Hp : has_id (s_id s) s = true) by apply String.eqb_refl.
  assert (Hnone : forall x, In x ss -> has_id (s_id s) x = false).
  { intros x Hx. unfold has_id. apply String.eqb_neq. intros E.
    apply Hfresh. change (uuid_gen env (w_uuids w)) with (s_id s).
    rewrite <- E. now apply in_map. }
  destruct (find_app_fresh (has_id (s_id s)) ss s Hnone Hp) as [Hfind Hidx].
  split; [reflexivity|]. split.
  - unfold getSeries, findSeries, bind.
    erewrite getData_current by reflexivity.
    cbn [deref ret series set_series]. now rewrite Hfind.
  - erewrite deleteSeries_current;
      [| reflexivity | reflexivity | exact Hidx
       | rewrite nth_error_app2, Nat.sub_diag by lia; reflexivity].
    rewrite splice1_app, app_nil_r. cbn [w_deleted w_uuids].
    unfold seriesKeys. cbn [s_thumbnail s_episodes s refKeys truthy_str].
    rewrite initEpisodes_spec, freshEpisodes_no_keys, app_nil_r.
    f_equal. f_equal. f_equal.
    unfold set_series. simpl. now apply set_series_same.
Qed.

Lemma createSeries_lookup_delete_witness :
  exists s w1,
    createSeries sample_env (Some "Trip") None (Some 3)
                 (world_of (JsonDoc sample_doc))
    = (Ok (mkResponse 200 (BSeries s)), w1)
    /\ getSeries sample_env (s_id s) w1 = (Ok (mkResponse 200 (BSeries s)), w1)
    /\ deleteSeries sample_env (s_id s) w1
       = (Ok (mkResponse 200 BSuccess), mkWorld (JsonDoc sample_doc) [] 1).
Proof.
  destruct (@createSeries_lookup_delete sample_env
              (world_of (JsonDoc sample_doc)) sample_doc
              [sample_series; two_episode_series] (Some "Trip") None (Some 3)
              eq_refl eq_refl)
    as (s & w1 & H1 & _ & H3 & H4).
  - simpl. intuition discriminate.
  - exists s, w1. auto.
Defined.

(** ** [PUT /series/:seriesId]: what an update leaves alone *)

(** X13.  An update of a series found by its id never changes the id, the
    thumbnail or the creation time of that series, nor any other series of
    the document; and when every field it supplies equals the current value
    (or nothing is supplied), the document is persisted exactly as it
    was. *)
Theorem updateSeries_frame (env : Env) (w : World) (d : Document)
        (ss : list Series) (seriesId : string) (i : nat) (s : Series)
        (b : UpdateBody) :
  w_file w = JsonDoc d -> series d = Some ss ->
  findIndex (has_id seriesId) ss = Some i -> nth_error ss i = Some s ->
  exists s' ss',
    updateSeries env seriesId b w
    = (Ok (mkResponse 200 (BSeriesUpdated s')), written w (set_series d ss'))
    /\ nth_error ss' i = Some s'
    /\ (forall j, j <> i -> nth_error ss' j = nth_error ss j)
    /\ List.length ss' = List.length ss
    /\ s_id s' = s_id s
    /\ s_thumbnail s' = s_thumbnail s
    /\ s_createdAt s' = s_createdAt s
    /\ ((forall t, u_title b = Some t -> t = s_title s) ->
        (forall t, u_description b = Some t -> t = s_description s) ->
        (forall n, u_episodeCount b = Some n -> n = s_episodeCount s) ->
        (forall eps, u_episodes b = Some eps -> eps = s_episodes s) ->
        written w (set_series d ss') = written w d).
Proof.
  intros Hf Hs Hi Hnth.
  exists (applyUpdate s b), (set_nth i (applyUpdate s b) ss).
  split; [apply (updateSeries_current env w Hf Hs seriesId b Hi Hnth)|].
  split; [now apply nth_error_set_nth_eq with (y := s)|].
  split; [intros j Hj; apply nth_error_set_nth_neq; congruence|].
  split; [apply length_set_nth|].
  assert (Hsame : s_id (applyUpdate s b) = s_id s
                  /\ s_thumbnail (applyUpdate s b) = s_thumbnail s
                  /\ s_createdAt (applyUpdate s b) = s_createdAt s).
  { unfold applyUpdate. destruct (u_episodeCount b) as [n|];
      [destruct (negb (n =? s_episodeCount s))|]; repeat split. }
  destruct Hsame as (H1 & H2 & H3).
  split; [exact H1|]. split; [exact H2|]. split; [exact H3|].
  intros Ht Hd Hn He.
  assert (Hid : applyUpdate s b = s).
  { unfold applyUpdate.
    assert (Et : match u_title b with Some t => t | None => s_title s end
                 = s_title s)
      by (destruct (u_title b) as [t|]; [now apply Ht | reflexivity]).
    assert (Ed : match u_description b with
                 | Some t => t | None => s_description s end
                 = s_description s)
      by (destruct (u_description b) as [t|]; [now apply Hd | reflexivity]).
    assert (Ee : match u_episodes b with
                 | Some eps => eps | None => s_episodes s end
                 = s_episodes s)
      by (destruct (u_episodes b) as [eps|]; [now apply He | reflexivity]).
    rewrite Et, Ed, Ee.
    destruct (u_episodeCount b) as [n|].
    - rewrite (Hn n eq_refl), Z.eqb_refl. simpl. now destruct s.
    - now destruct s. }
  rewrite Hid, (set_nth_same _ _ Hnth). now rewrite (set_series_same _ Hs).
Qed.

Lemma updateSeries_frame_witness :
  snd (updateSeries sample_env "s2" (mkUpdate (Some "Home") None (Some 2) None)
                    (world_of (JsonDoc sample_doc)))
  = world_of (JsonDoc sample_doc).
Proof.
  destruct (@updateSeries_frame sample_env (world_of (JsonDoc sample_doc))
              sample_doc [sample_series; two_episode_series] "s2" 1%nat
              two_episode_series (mkUpdate (Some "Home") None (Some 2) None)
              eq_refl eq_refl eq_refl eq_refl)
    as (s' & ss' & Hrun & _ & _ & _ & _ & _ & _ & Hsame).
  rewrite Hrun. cbn [snd].
  rewrite Hsame; [reflexivity | | | |]; simpl; intros x H;
    try discriminate; now injection H as <-.
Defined.

(** ** The legacy show: [GET /show] and [POST /show] *)

Lemma reconcile_same (eps : list Episode) (n : Z) :
  Z.of_nat (List.length eps) = n -> slice0 (padEpisodes eps n) n = eps.
Proof.
  intros H. rewrite reconcile_spec by lia.
  replace (Z.to_nat (n - Z.of_nat (List.length eps))) with O by lia.
  simpl. rewrite app_nil_r. apply firstn_all2. lia.
Qed.

(** X14.  [GET /show] reads back what [POST /show] answered: on a document
    in the current shape, whatever the body, the legacy save succeeds and a
    following [GET /show] answers the same title, count and episodes,
    without writing. *)
Theorem getShow_after_saveShow (env : Env) (w : World) (d : Document)
        (ss : list Series) (b : ShowBody) :
  w_file w = JsonDoc d -> series d = Some ss ->
  exists show w1,
    saveShow env b w = (Ok (mkResponse 200 show), w1)
    /\ getShow env w1 = (Ok (mkResponse 200 show), w1).
Proof.
  intros Hf Hs.
  unfold saveShow, try_catch, bind.
  rewrite (getData_current env w Hf Hs). simpl deref. rewrite Hs.
  cbn [deref ret].
  destruct ss as [|s rest]; eexists; eexists; (split; [reflexivity|]);
    unfold getShow, bind; erewrite getData_current by reflexivity;
    reflexivity.
Qed.

Lemma getShow_after_saveShow_witness :
  exists show w1,
    saveShow sample_env (mkShow (Some "Life") (Some 3) None)
             (world_of (JsonDoc (doc_of_series [])))
    = (Ok (mkResponse 200 show), w1)
    /\ getShow sample_env w1 = (Ok (mkResponse 200 show), w1).
Proof.
  apply (@getShow_after_saveShow sample_env
           (world_of (JsonDoc (doc_of_series []))) (doc_of_series []) []
           (mkShow (Some "Life") (Some 3) None) eq_refl eq_refl).
Defined.

(** X15.  Posting back what [GET /show] answers changes nothing: when the
    first series has as many episodes as its [episodeCount], a legacy save
    whose fields are each absent or equal to that series' title, count and
    episodes persists the document exactly as it was. *)
Theorem saveShow_same_is_identity (env : Env) (w : World) (d : Document)
        (s : Series) (rest : list Series) (b : ShowBody) :
  w_file w = JsonDoc d -> series d = Some (s :: rest) -> consistent s ->
  (forall t, sh_showTitle b = Some t -> t = s_title s) ->
  (forall n, sh_episodeCount b = Some n -> n = s_episodeCount s) ->
  (forall eps, sh_episodes b = Some eps -> eps = s_episodes s) ->
  saveShow env b w
  = (Ok (mkResponse 200 (BShow (s_title s) (s_episodeCount s) (s_episodes s))),
     written w d).
Proof.
  intros Hf Hs Hc Ht Hn He.
  unfold saveShow, try_catch, bind.
  rewrite (getData_current env w Hf Hs). simpl deref. rewrite Hs.
  cbn [deref ret].
  assert (Et : or_str (sh_showTitle b) (s_title s) = s_title s).
  { unfold or_str. destruct (sh_showTitle b) as [t|]; [|reflexivity].
    rewrite (Ht t eq_refl). now destruct (String.eqb _ _). }
  assert (En : or_Z (sh_episodeCount b) (s_episodeCount s) = s_episodeCount s).
  { unfold or_Z. destruct (sh_episodeCount b) as [n|]; [|reflexivity].
    rewrite (Hn n eq_refl). now destruct (_ =? 0). }
  assert (Ee : or_list (sh_episodes b) (s_episodes s) = s_episodes s).
  { unfold or_list. destruct (sh_episodes b) as [eps|]; [|reflexivity].
    now apply He. }
  rewrite Et, En, Ee, (reconcile_same _ Hc).
  replace (mkSeries (s_id s) (s_title s) (s_description s) (s_thumbnail s)
                    (s_createdAt s) (s_episodeCount s) (s_episodes s))
    with s by (now destruct s).
  unfold saveData. cbn [nth_error deref ret].
  now rewrite (set_series_same _ Hs).
Qed.

Lemma saveShow_same_is_identity_witness :
  saveShow sample_env (mkShow (Some "Trip") (Some 1) (Some [sample_episode]))
           (world_of (JsonDoc sample_doc))
  = (Ok (mkResponse 200 (BShow "Trip" 1 [sample_episode])),
     world_of (JsonDoc sample_doc)).
Proof.
  apply (@saveShow_same_is_identity sample_env (world_of (JsonDoc sample_doc))
           sample_doc sample_series [two_episode_series]
           (mkShow (Some "Trip") (Some 1) (Some [sample_episode]))
           eq_refl eq_refl eq_refl);
    simpl; intros x H; now injection H as <-.
Defined.

(** ** The legacy routes *)

(** X16.  On a document whose first series is [s], each legacy episode
    route behaves exactly as the corresponding series route called with the
    id of [s]; on a document without series each answers 400 "No series
    found" and changes nothing. *)
Theorem legacy_routes_address_first_series (env : Env) (w : World)
        (d : Document) :
  w_file w = JsonDoc d ->
  (forall s rest,
      series d = Some (s :: rest) ->
      (forall param file,
          legacyUploadThumbnail env param file w
          = uploadEpisodeThumbnail env (s_id s) param file w)
      /\ (forall param files,
             legacyUploadMedia env param files w
             = uploadMedia env (s_id s) param files w)
      /\ (forall param file,
             legacyUploadMusic env param file w
             = uploadMusic env (s_id s) param file w)
      /\ (forall param,
             legacyDeleteMusic env param w = deleteMusic env (s_id s) param w)
      /\ (forall param mediaId,
             legacyDeleteMedia env param mediaId w
             = deleteMedia env (s_id s) param mediaId w)
      /\ (forall param mediaIds,
             legacyReorder env param mediaIds w
             = reorder env (s_id s) param mediaIds w))
  /\ (series d = Some [] ->
      let none := (Ok (mkResponse 400 (BError "No series found")), w) in
      (forall param f, legacyUploadThumbnail env param (Some f) w = none)
      /\ (forall param f fs,
             legacyUploadMedia env param (Some (f :: fs)) w = none)
      /\ (forall param f, legacyUploadMusic env param (Some f) w = none)
      /\ (forall param, legacyDeleteMusic env param w = none)
      /\ (forall param mediaId, legacyDeleteMedia env param mediaId w = none)
      /\ (forall param ids, legacyReorder env param (Some ids) w = none)).
Proof.
  intros Hf. split.
  - intros s rest Hs.
    assert (Hi : findIndex (has_id (s_id s)) (s :: rest) = Some O).
    { simpl. unfold has_id. now rewrite String.eqb_refl. }
    assert (Hdata := getData_current env w Hf Hs).
    split; [intros param [f|]; [|reflexivity]|].
    { unfold legacyUploadThumbnail, uploadEpisodeThumbnail, bind.
      rewrite Hdata. simpl deref. rewrite Hs. cbn [deref ret].
      now rewrite Hi. }
    split; [intros param [[|f fs]|]; try reflexivity|].
    { unfold legacyUploadMedia, uploadMedia, bind.
      rewrite Hdata. simpl deref. rewrite Hs. cbn [deref ret].
      now rewrite Hi. }
    split; [intros param [f|]; [|reflexivity]|].
    { unfold legacyUploadMusic, uploadMusic, bind.
      rewrite Hdata. simpl deref. rewrite Hs. cbn [deref ret].
      now rewrite Hi. }
    split; [intros param|].
    { unfold legacyDeleteMusic, deleteMusic, bind.
      rewrite Hdata. simpl deref. rewrite Hs. cbn [deref ret].
      now rewrite Hi. }
    split; [intros param mediaId|].
    { unfold legacyDeleteMedia, deleteMedia, bind.
      rewrite Hdata. simpl deref. rewrite Hs. cbn [deref ret].
      now rewrite Hi. }
    intros param [ids|]; [|reflexivity].
    unfold legacyReorder, reorder, bind.
    rewrite Hdata. simpl deref. rewrite Hs. cbn [deref ret].
    now rewrite Hi.
  - intros Hs none.
    assert (Hdata := getData_current env w Hf Hs).
    unfold legacyUploadThumbnail, legacyUploadMedia, legacyUploadMusic,
      legacyDeleteMusic, legacyDeleteMedia, legacyReorder, bind.
    rewrite Hdata. simpl deref. rewrite Hs.
    split; [intros; reflexivity|]. split; [intros; reflexivity|].
    split; [intros; reflexivity|]. split; [intros; reflexivity|].
    split; intros; reflexivity.
Qed.

Lemma legacy_routes_address_first_series_witness :
  legacyReorder sample_env "0" (Some ["c"]) (world_of (JsonDoc sample_doc))
  = reorder sample_env "s1" "0" (Some ["c"]) (world_of (JsonDoc sample_doc))
  /\ legacyDeleteMusic sample_env "0" (world_of (JsonDoc (doc_of_series [])))
     = (Ok (mkResponse 400 (BError "No series found")),
        world_of (JsonDoc (doc_of_series []))).
Proof.
  split.
  - destruct (@legacy_routes_address_first_series sample_env
                (world_of (JsonDoc sample_doc)) sample_doc eq_refl)
      as [Hfirst _].
    destruct (Hfirst sample_series [two_episode_series] eq_refl)
      as (_ & _ & _ & _ & _ & H).
    apply H.
  - destruct (@legacy_routes_address_first_series sample_env
                (world_of (JsonDoc (doc_of_series []))) (doc_of_series [])
                eq_refl) as [_ Hnone].
    destruct (Hnone eq_refl) as (_ & _ & _ & H & _).
    apply H.
Defined.

(** ** [index.js]: the first start *)

(** X17.  On a first start (no data file) the bootstrap writes the default
    legacy show, and the first load migrates it to a single series titled
    "The Story of My Life" with [episodeCount] [1] and the one episode
    [Episode 1], so the persisted document satisfies
    [episodes.length == episodeCount]; [GET /show] then answers that
    default show.  A data file that exists is left as it is. *)
Theorem first_start_is_consistent (env : Env) (w : World) :
  (w_file w = Missing ->
   exists s w1,
     getData env (snd (initShowData w)) = (Ok (doc_of_series [s]), w1)
     /\ s_id s = uuid_gen env (w_uuids w)
     /\ s_title s = defaultShowTitle
     /\ s_episodeCount s = 1
     /\ s_episodes s = [newEpisode 1]
     /\ persisted_consistent w1
     /\ getShow env w1
        = (Ok (mkResponse 200 (BShow defaultShowTitle 1 [newEpisode 1])), w1))
  /\ (w_file w <> Missing -> initShowData w = (Ok tt, w)).
Proof.
  split.
  - intros Hf. unfold initShowData. rewrite Hf. cbn [snd].
    eexists; eexists. split; [reflexivity|].
    repeat (split; [reflexivity|]). split.
    + eexists; eexists. split; [reflexivity|]. split; [reflexivity|].
      repeat constructor.
    + reflexivity.
  - intros Hf. unfold initShowData. destruct (w_file w); congruence.
Qed.

Lemma first_start_is_consistent_witness :
  exists s w1,
    getData sample_env (snd (initShowData (world_of Missing)))
    = (Ok (doc_of_series [s]), w1)
    /\ s_title s = "The Story of My Life"
    /\ persisted_consistent w1.
Proof.
  destruct (first_start_is_consistent sample_env (world_of Missing))
    as [H _].
  destruct (H eq_refl) as (s & w1 & H1 & _ & H3 & _ & _ & H6 & _).
  exists s, w1. auto.
Defined.

(** ** Upload filters *)

(** X18.  Whatever the thumbnail filter accepts the media filter accepts
    too, and so does it accept every name [isVideo] classifies as a video,
    provided the extension of the name starts with its dot. *)
Theorem filters_nest (env : Env) (originalname : string) :
  (imageFilter env originalname = true -> mediaFilter env originalname = true)
  /\ (forall ext,
         toLowerCase env (extname env originalname) = String "."%char ext ->
         isVideo env originalname = true ->
         mediaFilter env originalname = true).
Proof.
  split.
  - unfold imageFilter, mediaFilter. intros H. now rewrite H.
  - intros ext Hext. unfold isVideo, mediaFilter. rewrite Hext.
    cbn [slice1].
    assert (Hdot : forall sub c rest,
               sub = String c rest -> Ascii.eqb c "."%char = false ->
               includes (String "."%char ext) sub = includes ext sub).
    { intros sub c rest -> Hc. rewrite includes_eq.
      unfold startsWith. cbn [strip_prefix].
      now rewrite Hc. }
    rewrite (Hdot "mp4" _ _ eq_refl eq_refl), (Hdot "webm" _ _ eq_refl eq_refl),
      (Hdot "mov" _ _ eq_refl eq_refl), (Hdot "avi" _ _ eq_refl eq_refl),
      (Hdot "mkv" _ _ eq_refl eq_refl).
    intros H.
    repeat (apply orb_true_iff in H; destruct H as [H | H]);
      rewrite H; repeat rewrite orb_true_r; reflexivity.
Qed.

Lemma filters_nest_witness :
  mediaFilter sample_env ".mp4" = true.
Proof.
  destruct (filters_nest sample_env ".mp4") as [_ H].
  apply (H "mp4"); reflexivity.
Defined.

(** ** Replacing an episode asset *)

(** X19.  Replacing an episode thumbnail or an episode's music deletes the
    object uploaded before: after an upload of [f1], an upload of [f2] to
    the same episode persists the URL of [f2] (and, for music, its
    original name) and has called [deleteFromS3] on the key of [f1], after
    whatever the first upload deleted.  (Bucket and region without slash;
    key of [f1] non-empty and without the line terminators LF, CR, U+2028
    and U+2029.) *)
Theorem episode_asset_replacement (env : Env) (w : World) (d : Document)
        (ss : list Series) (seriesId : string) (i : nat) (s : Series)
        (param : string) (z : Z) (e : Episode) (f1 f2 : UploadedFile) :
  w_file w = JsonDoc d -> series d = Some ss ->
  findIndex (has_id seriesId) ss = Some i -> nth_error ss i = Some s ->
  parseInt param = Some z -> 0 <= z ->
  nth_error (s_episodes s) (Z.to_nat z) = Some e ->
  plain_host env -> dot_plus_to_end (f_key f1) = true ->
  uploadEpisodeThumbnail env seriesId param (Some f2)
    (snd (uploadEpisodeThumbnail env seriesId param (Some f1) w))
  = (Ok (mkResponse 200 (BFile (f_key f2) (getS3Url env (f_key f2)))),
     mkWorld (JsonDoc (store_episode d ss i s (Some z)
                         (set_e_thumbnail e (Some (getS3Url env (f_key f2))))))
             (w_deleted w ++ refKeys (e_thumbnail e) ++ [f_key f1])
             (w_uuids w))
  /\ uploadMusic env seriesId param (Some f2)
       (snd (uploadMusic env seriesId param (Some f1) w))
     = (Ok (mkResponse 200 (BMusic (f_key f2) (f_originalname f2)
                                   (getS3Url env (f_key f2)))),
        mkWorld (JsonDoc (store_episode d ss i s (Some z)
                            (set_e_music e (Some (getS3Url env (f_key f2)))
                                         (Some (f_originalname f2)))))
                (w_deleted w ++ refKeys (e_music e) ++ [f_key f1])
                (w_uuids w)).
Proof.
  intros Hf Hs Hi Hnth Hp Hz He Hhost Hk.
  assert (Hkeys : refKeys (Some (getS3Url env (f_key f1))) = [f_key f1])
    by (apply refKeys_getS3Url; assumption).
  split.
  - rewrite (@uploadEpisodeThumbnail_run env w d ss seriesId i s param z e
               Hf Hs Hi Hnth Hp Hz He f1).
    cbn [snd].
    set (e1 := set_e_thumbnail e (Some (getS3Url env (f_key f1)))).
    destruct (after_store d ss seriesId z e1 Hi Hnth He)
      as (Hs1 & Hi1 & Hnth1 & He1).
    erewrite uploadEpisodeThumbnail_run;
      [| reflexivity | exact Hs1 | exact Hi1 | exact Hnth1 | exact Hp
       | exact Hz | exact He1].
    cbn [w_deleted w_uuids]. rewrite store_episode_twice.
    change (refKeys (e_thumbnail e1))
      with (refKeys (Some (getS3Url env (f_key f1)))).
    now rewrite Hkeys, <- app_assoc.
  - rewrite (@uploadMusic_run env w d ss seriesId i s param z e
               Hf Hs Hi Hnth Hp Hz He f1).
    cbn [snd].
    set (e1 := set_e_music e (Some (getS3Url env (f_key f1)))
                           (Some (f_originalname f1))).
    destruct (after_store d ss seriesId z e1 Hi Hnth He)
      as (Hs1 & Hi1 & Hnth1 & He1).
    erewrite uploadMusic_run;
      [| reflexivity | exact Hs1 | exact Hi1 | exact Hnth1 | exact Hp
       | exact Hz | exact He1].
    cbn [w_deleted w_uuids]. rewrite store_episode_twice.
    change (refKeys (e_music e1))
      with (refKeys (Some (getS3Url env (f_key f1)))).
    now rewrite Hkeys, <- app_assoc.
Qed.

Lemma episode_asset_replacement_witness :
  w_deleted
    (snd (uploadEpisodeThumbnail sample_env "s1" "0" (Some sample_file2)
            (snd (uploadEpisodeThumbnail sample_env "s1" "0" (Some sample_file)
                    (world_of (JsonDoc sample_doc))))))
  = ["thumbnails/t.png"; "media/n.png"].
Proof.
  destruct (@episode_asset_replacement sample_env
              (world_of (JsonDoc sample_doc)) sample_doc
              [sample_series; two_episode_series] "s1" 0%nat sample_series
              "0" 0 sample_episode sample_file sample_file2
              eq_refl eq_refl eq_refl eq_refl eq_refl (Z.le_refl 0) eq_refl
              sample_env_plain eq_refl) as [H _].
  rewrite H. reflexivity.
Defined.

(** ** Storage keys *)

(** X20.  Every object stored through [createS3Storage] can be found again
    from its URL: the key built for an upload is [folder/], the generated
    id and the extension of the original name, and when that key as a
    whole holds none of the line terminators LF, CR, U+2028 and U+2029 (and
    bucket and region no slash) [getKeyFromUrl] reads exactly that key out
    of [getS3Url(key)]. *)
Theorem storageKey_round_trip (env : Env) (folder originalname : string)
        (w : World) :
  plain_host env ->
  no_line_terminator (folder ++ "/" ++ uuid_gen env (w_uuids w)
                      ++ extname env originalname) = true ->
  exists key,
    storageKey env folder originalname w
    = (Ok key, mkWorld (w_file w) (w_deleted w) (S (w_uuids w)))
    /\ key = (folder ++ "/" ++ uuid_gen env (w_uuids w)
              ++ extname env originalname)%string
    /\ getKeyFromUrl (Some (getS3Url env key)) = Some key.
Proof.
  intros Hhost Hno.
  eexists. split; [reflexivity|]. split; [reflexivity|].
  apply key_of_stored_url; [exact Hhost|].
  unfold dot_plus_to_end.
  destruct (folder ++ "/" ++ uuid_gen env (w_uuids w)
            ++ extname env originalname)%string eqn:E; [|exact Hno].
  destruct folder; discriminate E.
Qed.

Lemma storageKey_round_trip_witness :
  storageKey photo_env "media" "holiday.png" (world_of Missing)
  = (Ok "media/uuid-0.png", mkWorld Missing [] 1)
  /\ getKeyFromUrl (Some (getS3Url photo_env "media/uuid-0.png"))
     = Some "media/uuid-0.png".
Proof.
  destruct (@storageKey_round_trip photo_env "media" "holiday.png"
              (world_of Missing) (conj eq_refl eq_refl) eq_refl)
    as (key & Hrun & Hkey & Hback).
  simpl in Hkey. subst key. split; [exact Hrun | exact Hback].
Defined.

(** ** Error behaviour of the routes *)



(** X22.  A series id that matches no series of the document is answered
    404 "Series not found" by every route that takes one (lookup, update,
    delete, the four uploads, music and media deletion, reorder), whatever
    the episode index, and nothing is written, deleted or generated. *)
Theorem unknown_series_is_404 (env : Env) (w : World) (d : Document)
        (ss : list Series) (seriesId : string) :
  w_file w = JsonDoc d -> series d = Some ss ->
  ~ In seriesId (List.map s_id ss) ->
  let missing := (Ok (mkResponse 404 (BError "Series not found")), w) in
  getSeries env seriesId w = missing
  /\ (forall b, updateSeries env seriesId b w = missing)
  /\ deleteSeries env seriesId w = missing
  /\ (forall f, uploadSeriesThumbnail env seriesId (Some f) w = missing)
  /\ (forall param f,
         uploadEpisodeThumbnail env seriesId param (Some f) w = missing)
  /\ (forall param f fs,
         uploadMedia env seriesId param (Some (f :: fs)) w = missing)
  /\ (forall param f, uploadMusic env seriesId param (Some f) w = missing)
  /\ (forall param, deleteMusic env seriesId param w = missing)
  /\ (forall param mediaId, deleteMedia env seriesId param mediaId w = missing)
  /\ (forall param ids, reorder env seriesId param (Some ids) w = missing).
Proof.
  intros Hf Hs Hnot missing.
  assert (Hi : findIndex (has_id seriesId) ss = None).
  { destruct (findIndex (has_id seriesId) ss) as [i|] eqn:E; [|reflexivity].
    destruct (findIndex_Some _ _ E) as (x & Hx & Hp & _).
    exfalso. apply Hnot. apply in_map_iff. exists x.
    unfold has_id in Hp. apply String.eqb_eq in Hp.
    split; [exact Hp | eapply nth_error_In; exact Hx]. }
  destruct (unknown_series_not_found env w seriesId Hf Hs Hi)
    as (H1 & H2 & H3 & H4 & H5 & H6).
  assert (Hdata := getData_current env w Hf Hs).
  split; [exact H1|]. split; [exact H2|]. split; [exact H3|].
  split.
  { intros f. unfold uploadSeriesThumbnail, bind.
    rewrite Hdata. simpl deref. rewrite Hs. cbn [deref ret].
    now rewrite Hi. }
  split.
  { intros param f. unfold uploadEpisodeThumbnail, bind.
    rewrite Hdata. simpl deref. rewrite Hs. cbn [deref ret].
    now rewrite Hi. }
  split.
  { intros param f fs. unfold uploadMedia, bind.
    rewrite Hdata. simpl deref. rewrite Hs. cbn [deref ret].
    now rewrite Hi. }
  split.
  { intros param f. unfold uploadMusic, bind.
    rewrite Hdata. simpl deref. rewrite Hs. cbn [deref ret].
    now rewrite Hi. }
  split; [exact H4|]. split; [exact H5 | exact H6].
Qed.

Lemma unknown_series_is_404_witness :
  uploadMusic sample_env "nobody" "0" (Some sample_file)
              (world_of (JsonDoc sample_doc))
  = (Ok (mkResponse 404 (BError "Series not found")),
     world_of (JsonDoc sample_doc)).
Proof.
  destruct (@unknown_series_is_404 sample_env (world_of (JsonDoc sample_doc))
              sample_doc [sample_series; two_episode_series] "nobody"
              eq_refl eq_refl)
    as (_ & _ & _ & _ & _ & _ & H & _).
  - simpl. intuition discriminate.
  - apply H.
Defined.
